(** * file-system: lazy, path-aware file and directory handles

    A shallow embedding of [src/lib/open.ts] (classes [Directory] and [File],
    the resolvers [open] / [openFile], and the helpers [createFile],
    [readFile], [writeFile], [deleteFile], [isNoEntityError]), of
    [src/lib/file.ts] and of [src/lib/file-browser.ts] (the constructor,
    [get], and the generators [fileNames] and [files]).

    [open.ts] holds two revisions of the module; the second one (static
    [Directory.open] / [File.open], [delete], [save], [slice], [write],
    [remove]) is the one exercised by [file-system.spec.ts] and is the one
    embedded here; of the first one, [openFile] is kept for comparison.

    The host (node:fs, node:path) is a collaborator of the program.  It is
    given a small executable model: POSIX path algebra on strings, and a
    directory tree of regular files, directories, FIFOs and sockets with the
    usual error codes; symbolic links whose target is missing are laid over
    the tree for the two calls of [file-browser.ts].  Methods are computations over the state of the host
    that return a value or throw; a promise that rejects is a computation
    that throws.  The class [LazyFile] comes from a package that is not part
    of the sources; it is modelled from the specification. *)

From Stdlib Require Import ZArith List String Ascii Bool Lia.
Import ListNotations.

Local Open Scope string_scope.
Local Open Scope list_scope.

(** String concatenation, i.e. JavaScript's [+] on strings. *)
Infix "+++" := String.append (right associativity, at level 60).

(** ** node:path, POSIX flavour *)

Module Path.

Definition slash : ascii := "/"%char.

Definition nonempty (s : string) : bool :=
  match s with EmptyString => false | String _ _ => true end.

(** [p.split("/")] *)
Fixpoint segments (p : string) : list string :=
  match p with
  | EmptyString => [EmptyString]
  | String c r =>
      if Ascii.eqb c slash then EmptyString :: segments r
      else match segments r with
           | x :: xs => String c x :: xs
           | [] => [String c EmptyString]
           end
  end.

Definition isAbsolute (p : string) : bool :=
  match p with
  | String c _ => Ascii.eqb c slash
  | EmptyString => false
  end.

Fixpoint endsWithSlash (p : string) : bool :=
  match p with
  | EmptyString => false
  | String c EmptyString => Ascii.eqb c slash
  | String _ r => endsWithSlash r
  end.

(** One step of [normalizeString]: [res] is the stack of segments kept so
    far, innermost first. *)
Definition normStep (allowAboveRoot : bool) (res : list string) (seg : string)
  : list string :=
  if (seg =? EmptyString) || (seg =? ".") then res
  else if seg =? ".." then
    match res with
    | [] => if allowAboveRoot then [".."] else []
    | top :: rest =>
        if top =? ".." then (if allowAboveRoot then ".." :: res else res)
        else rest
    end
  else seg :: res.

Definition normalizeString (segs : list string) (allowAboveRoot : bool)
  : list string :=
  rev (fold_left (normStep allowAboveRoot) segs []).

Definition unsegments (segs : list string) : string := String.concat "/" segs.

Definition normalize (p : string) : string :=
  if negb (nonempty p) then "."
  else
    let abs := isAbsolute p in
    let trailingSeparator := endsWithSlash p in
    let path := unsegments (normalizeString (segments p) (negb abs)) in
    if negb (nonempty path) then
      (if abs then "/" else if trailingSeparator then "./" else ".")
    else
      let path := if trailingSeparator then path +++ "/" else path in
      if abs then "/" +++ path else path.

(** [path.join(a, b)] *)
Definition join (a b : string) : string :=
  match filter nonempty [a; b] with
  | [] => "."
  | parts => normalize (unsegments parts)
  end.

(** The normalized segments of [path.resolve(p)] when the working
    directory is [cwd]; the second component tells whether the result is
    absolute. *)
Definition resolveSegments (cwd p : string) : list string * bool :=
  let tail := if nonempty p then p +++ "/" else EmptyString in
  let '(resolvedPath, resolvedAbsolute) :=
    if isAbsolute p then (tail, true)
    else if nonempty cwd then (cwd +++ "/" +++ tail, isAbsolute cwd)
    else (tail, false) in
  (normalizeString (segments resolvedPath) (negb resolvedAbsolute),
   resolvedAbsolute).

(** [path.resolve(p)] *)
Definition resolve (cwd p : string) : string :=
  let '(segs, abs) := resolveSegments cwd p in
  let res := unsegments segs in
  if abs then "/" +++ res else if nonempty res then res else ".".

(** [path.basename(p)]: the last non-empty segment. *)
Definition basename (p : string) : string :=
  last (filter nonempty (segments p)) EmptyString.

(** The segments that precede the last non-empty one. *)
Fixpoint beforeLast (segs : list string) : option (list string) :=
  match segs with
  | [] => None
  | s :: rest =>
      match beforeLast rest with
      | Some pre => Some (s :: pre)
      | None => if nonempty s then Some [] else None
      end
  end.

(** [path.dirname(p)] *)
Definition dirname (p : string) : string :=
  if negb (nonempty p) then "."
  else match beforeLast (segments p) with
       | None => "/"
       | Some [] => "."
       | Some [EmptyString] => "/"
       | Some [EmptyString; EmptyString] => "//"
       | Some pre => unsegments pre
       end.

End Path.


(** ** Regular expressions

    The [filter] arguments of [Directory.files] and [Directory.subdirs] are
    JavaScript regular expressions used through [RegExp.prototype.test].
    [RegExp] is the pattern, and [test] below is what the method answers
    for an object without the sticky or global flag, where it keeps no
    position between calls; a matcher by derivatives stands for it.  The
    objects with their flags and their [lastIndex] are [RegExpObject]. *)

Inductive RegExp : Type :=
| ReNever
| ReEmpty
| ReChar (c : ascii)
| ReDot
| ReSeq (r1 r2 : RegExp)
| ReAlt (r1 r2 : RegExp)
| ReStar (r : RegExp).

Fixpoint nullable (r : RegExp) : bool :=
  match r with
  | ReNever => false
  | ReEmpty => true
  | ReChar _ => false
  | ReDot => false
  | ReSeq r1 r2 => nullable r1 && nullable r2
  | ReAlt r1 r2 => nullable r1 || nullable r2
  | ReStar _ => true
  end.

(** [.] matches every character but the line terminators. *)
Definition lineTerminator (c : ascii) : bool :=
  Ascii.eqb c "010"%char || Ascii.eqb c "013"%char.

Fixpoint deriv (c : ascii) (r : RegExp) : RegExp :=
  match r with
  | ReNever => ReNever
  | ReEmpty => ReNever
  | ReChar c' => if Ascii.eqb c c' then ReEmpty else ReNever
  | ReDot => if lineTerminator c then ReNever else ReEmpty
  | ReSeq r1 r2 =>
      if nullable r1 then ReAlt (ReSeq (deriv c r1) r2) (deriv c r2)
      else ReSeq (deriv c r1) r2
  | ReAlt r1 r2 => ReAlt (deriv c r1) (deriv c r2)
  | ReStar r1 => ReSeq (deriv c r1) (ReStar r1)
  end.

(** Does some prefix of [s] match [r]? *)
Fixpoint matchesPrefix (r : RegExp) (s : string) : bool :=
  nullable r ||
  match s with
  | EmptyString => false
  | String c s' => matchesPrefix (deriv c r) s'
  end.

(** [r.test(s)]: does some substring of [s] match [r]? *)
Fixpoint test (r : RegExp) (s : string) : bool :=
  matchesPrefix r s ||
  match s with
  | EmptyString => false
  | String _ s' => test r s'
  end.

(** The default argument [/.*/]. *)
Definition matchAll : RegExp := ReStar ReDot.

(** ** The host file system (node:fs)

    A directory tree.  The tree holds no symbolic links, so [statSync] and
    the directory entries of [readdirSync] agree on the kind of the entries
    of the tree.  The kind of a symbolic link is there for the entries a
    listing shows where links stand (see [linkedFs]). *)

Inductive errno : Type := ENOENT | ENOTDIR | EISDIR | EEXIST | ENXIO | EBUSY.

(** What a JavaScript [catch] can receive: a system error carrying an errno
    [code], a plain [Error] made by the program, or a [RangeError] made by
    Node when it validates an argument, whose [code] is no errno. *)
Inductive exn : Type :=
| ErrnoException (code : errno) (syscall : string) (path : string)
| JsError (message : string)
| RangeError (code : string).

Inductive res (A : Type) : Type :=
| Ok (a : A)
| Err (e : errno).
Arguments Ok {A} a.
Arguments Err {A} e.

Inductive kind : Type := KFile | KDirectory | KFIFO | KSocket | KSymbolicLink.

Definition kind_eqb (a b : kind) : bool :=
  match a, b with
  | KFile, KFile | KDirectory, KDirectory | KFIFO, KFIFO | KSocket, KSocket
  | KSymbolicLink, KSymbolicLink => true
  | _, _ => false
  end.

#[warnings="-register-all"]
Inductive node : Type :=
| RegFile (content : list Byte.byte) (mtimeMs : Z)
| Dir (children : list (string * node)) (mtimeMs : Z)
| Fifo (mtimeMs : Z)
| Socket (mtimeMs : Z).

Definition kindOf (n : node) : kind :=
  match n with
  | RegFile _ _ => KFile
  | Dir _ _ => KDirectory
  | Fifo _ => KFIFO
  | Socket _ => KSocket
  end.

(** The size [stat] reports; for a directory it is up to the host, and the
    block size 4096 stands for it. *)
Definition sizeOf (n : node) : Z :=
  match n with
  | RegFile bs _ => Z.of_nat (List.length bs)
  | Dir _ _ => 4096
  | Fifo _ | Socket _ => 0
  end.

Definition mtimeOf (n : node) : Z :=
  match n with
  | RegFile _ t | Dir _ t | Fifo t | Socket t => t
  end.

Fixpoint assoc (k : string) (l : list (string * node)) : option node :=
  match l with
  | [] => None
  | (k', v) :: l' => if k' =? k then Some v else assoc k l'
  end.

(** Replaces the entry named [k] where it stands, or appends it. *)
Fixpoint setChild (k : string) (v : node) (l : list (string * node))
  : list (string * node) :=
  match l with
  | [] => [(k, v)]
  | (k', v') :: l' =>
      if k' =? k then (k, v) :: l' else (k', v') :: setChild k v l'
  end.

Fixpoint removeChild (k : string) (l : list (string * node))
  : list (string * node) :=
  match l with
  | [] => []
  | (k', v') :: l' =>
      if k' =? k then removeChild k l' else (k', v') :: removeChild k l'
  end.

(** The node at the end of a chain of names, from [n]. *)
Fixpoint lookup (segs : list string) (n : node) : res node :=
  match segs with
  | [] => Ok n
  | s :: rest =>
      match n with
      | Dir ch _ =>
          match assoc s ch with
          | Some c => lookup rest c
          | None => Err ENOENT
          end
      | _ => Err ENOTDIR
      end
  end.

(** Rewrites the entry at the end of a chain of names: [f] receives the
    entry found there, if any, and answers with the entry to leave ([None]
    removes it) or with an error. *)
Fixpoint alter (segs : list string) (f : option node -> res (option node))
  (n : node) : res node :=
  match segs with
  | [] =>
      match f (Some n) with
      | Ok (Some n') => Ok n'
      | Ok None => Err EBUSY
      | Err e => Err e
      end
  | s :: rest =>
      match n with
      | Dir ch t =>
          match rest with
          | [] =>
              match f (assoc s ch) with
              | Ok (Some v) => Ok (Dir (setChild s v ch) t)
              | Ok None => Ok (Dir (removeChild s ch) t)
              | Err e => Err e
              end
          | _ :: _ =>
              match assoc s ch with
              | Some c =>
                  match alter rest f c with
                  | Ok c' => Ok (Dir (setChild s c' ch) t)
                  | Err e => Err e
                  end
              | None => Err ENOENT
              end
          end
      | _ => Err ENOTDIR
      end
  end.

(** [mkdir -p]: every missing directory along the chain is created. *)
Fixpoint mkdirp (segs : list string) (now : Z) (n : node) : res node :=
  match n with
  | Dir ch t =>
      match segs with
      | [] => Ok n
      | s :: rest =>
          let c := match assoc s ch with Some c => c | None => Dir [] now end in
          match mkdirp rest now c with
          | Ok c' => Ok (Dir (setChild s c' ch) t)
          | Err e => Err e
          end
      end
  | _ =>
      match segs with
      | [] => Err EEXIST
      | _ :: _ => Err ENOTDIR
      end
  end.

(** [fs.Stats] and [fs.Dirent] *)
Record Stats : Type := {
  st_size : Z;
  st_mtimeMs : Z;
  st_kind : kind
}.

Record Dirent : Type := {
  de_name : string;
  de_kind : kind
}.

Definition statsOf (n : node) : Stats :=
  {| st_size := sizeOf n; st_mtimeMs := mtimeOf n; st_kind := kindOf n |}.

Definition st_isFile (s : Stats) : bool := kind_eqb (st_kind s) KFile.
Definition st_isDirectory (s : Stats) : bool := kind_eqb (st_kind s) KDirectory.
Definition st_isFIFO (s : Stats) : bool := kind_eqb (st_kind s) KFIFO.
Definition st_isSocket (s : Stats) : bool := kind_eqb (st_kind s) KSocket.
Definition st_isSymbolicLink (s : Stats) : bool := kind_eqb (st_kind s) KSymbolicLink.

Definition de_isFile (d : Dirent) : bool := kind_eqb (de_kind d) KFile.
Definition de_isDirectory (d : Dirent) : bool := kind_eqb (de_kind d) KDirectory.
Definition de_isSymbolicLink (d : Dirent) : bool := kind_eqb (de_kind d) KSymbolicLink.

(** The host calls that are kept in the log: the synchronous calls of the
    program, and the read requests with their bounds. *)
Inductive call : Type :=
| CallStat (p : string)
| CallReaddir (p : string)
| CallMkdir (p : string)
| CallWriteFile (p : string)
| CallRead (p : string) (start end_ : option Z).

(** The state of the host: the entries of the root directory, the working
    directory of the process (a chain of names from the root), the clock,
    the table of [mrmime], and the calls issued so far, oldest first. *)
Record host : Type := {
  tree : list (string * node);
  cwd : list string;
  clock : Z;
  mime : string -> option string;
  calls : list call
}.

Definition root (h : host) : node := Dir (tree h) 0.

Definition withRoot (h : host) (r : node) : host :=
  match r with
  | Dir ch _ =>
      {| tree := ch; cwd := cwd h; clock := clock h; mime := mime h; calls := calls h |}
  | _ => h
  end.

Definition withCall (h : host) (c : call) : host :=
  {| tree := tree h; cwd := cwd h; clock := clock h; mime := mime h;
     calls := calls h ++ [c] |}.

(** [process.cwd()] *)
Definition process_cwd (h : host) : string := "/" +++ Path.unsegments (cwd h).

(** Where a path name leads, as a chain of names from the root: the chain
    [path.resolve] computes, against the working directory and with [.],
    [..], repeated [/] and a trailing [/] taken lexically.  The host calls
    below read their path argument this way.  That is what the host does for
    a path name made of entry names only (see [plainPath]), and for every
    path a handle keeps, which is resolved; for a path name with a [..]
    after a name that is missing or no directory, with a trailing [/] after
    a name that is no directory or is to be created, and for the empty
    path name, the host fails where this reading goes on. *)
Definition address (h : host) (p : string) : list string :=
  fst (Path.resolveSegments (process_cwd h) p).

(** ** Computations: host state, exceptions and rejections

    A synchronous function that throws and an asynchronous one whose promise
    rejects are both [Throw]; the asynchronous functions of the program
    await every step, so they are sequenced like the synchronous ones. *)

Inductive outcome (A : Type) : Type :=
| Return (a : A)
| Throw (e : exn).
Arguments Return {A} a.
Arguments Throw {A} e.

Definition IO (A : Type) : Type := host -> outcome A * host.

Definition ret {A : Type} (a : A) : IO A := fun h => (Return a, h).

Definition throw {A : Type} (e : exn) : IO A := fun h => (Throw e, h).

Definition bind {A B : Type} (m : IO A) (k : A -> IO B) : IO B :=
  fun h =>
    match m h with
    | (Return a, h') => k a h'
    | (Throw e, h') => (Throw e, h')
    end.

Definition tryCatch {A : Type} (m : IO A) (handler : exn -> IO A) : IO A :=
  fun h =>
    match m h with
    | (Return a, h') => (Return a, h')
    | (Throw e, h') => handler e h'
    end.

Notation "x <- m ;; k" := (bind m (fun x => k))
  (at level 61, m at next level, right associativity).
Notation "m ;;; k" := (bind m (fun _ => k))
  (at level 61, right associativity).

Definition liftRes {A : Type} (syscall p : string) (r : res A) : outcome A :=
  match r with
  | Ok a => Return a
  | Err e => Throw (ErrnoException e syscall p)
  end.

(** [fs.statSync(p)] *)
Definition statSync (p : string) : IO Stats :=
  fun h =>
    (liftRes "stat" p
       (match lookup (address h p) (root h) with
        | Ok n => Ok (statsOf n)
        | Err e => Err e
        end),
     withCall h (CallStat p)).

(** [fs.readdirSync(p, { withFileTypes: true })] *)
Definition readdirOf (n : node) : res (list Dirent) :=
  match n with
  | Dir ch _ => Ok (map (fun kv => {| de_name := fst kv; de_kind := kindOf (snd kv) |}) ch)
  | _ => Err ENOTDIR
  end.

Definition readdirSync (p : string) : IO (list Dirent) :=
  fun h =>
    (liftRes "scandir" p
       (match lookup (address h p) (root h) with
        | Ok n => readdirOf n
        | Err e => Err e
        end),
     withCall h (CallReaddir p)).

(** [fsp.opendir(p)], with the entries the handle will deliver.  The call
    is asynchronous and is not kept in the log. *)
Definition opendir (p : string) : IO (list Dirent) :=
  fun h =>
    (liftRes "opendir" p
       (match lookup (address h p) (root h) with
        | Ok n => readdirOf n
        | Err e => Err e
        end),
     h).

(** Runs a change of the tree: the new tree is installed on success. *)
Definition commit (syscall p : string) (r : res node) (h : host) : outcome unit * host :=
  match r with
  | Ok r' => (Return tt, withRoot h r')
  | Err e => (Throw (ErrnoException e syscall p), h)
  end.

(** [fs.mkdirSync(p, { recursive: true })] *)
Definition mkdirSync (p : string) : IO unit :=
  fun h =>
    commit "mkdir" p (mkdirp (address h p) (clock h) (root h))
      (withCall h (CallMkdir p)).

(** Opening for writing with flag [w]: the file is created or truncated, and
    then holds [bs]. *)
Definition putFile (bs : list Byte.byte) (now : Z) (old : option node)
  : res (option node) :=
  match old with
  | None => Ok (Some (RegFile bs now))
  | Some (RegFile _ _) => Ok (Some (RegFile bs now))
  | Some (Dir _ _) => Err EISDIR
  | Some (Fifo _) | Some (Socket _) => Err ENXIO
  end.

(** [fs.writeFileSync(p, data)] *)
Definition writeFileSync (p : string) (data : list Byte.byte) : IO unit :=
  fun h =>
    commit "open" p (alter (address h p) (putFile data (clock h)) (root h))
      (withCall h (CallWriteFile p)).

(** [fs.createWriteStream(p)]: the destination is created, or truncated. *)
Definition createWriteStream (p : string) : IO unit :=
  fun h => commit "open" p (alter (address h p) (putFile [] (clock h)) (root h)) h.

(** The [write(chunk)] calls on the stream made by [createWriteStream(p)],
    and its [end()]: the destination then holds [data]. *)
Definition writeChunks (p : string) (data : list Byte.byte) : IO unit :=
  fun h => commit "write" p (alter (address h p) (putFile data (clock h)) (root h)) h.

Definition unlinkNode (old : option node) : res (option node) :=
  match old with
  | None => Err ENOENT
  | Some (Dir _ _) => Err EISDIR
  | Some _ => Ok None
  end.

(** [fs.unlink(p, callback)]: the callback receives the error, if any. *)
Definition unlink (p : string) : IO unit :=
  fun h => commit "unlink" p (alter (address h p) unlinkNode (root h)) h.

Definition rmNode (old : option node) : res (option node) :=
  match old with
  | None => Err ENOENT
  | Some _ => Ok None
  end.

(** [fsp.rm(p, { recursive: true })] *)
Definition rm (p : string) : IO unit :=
  fun h => commit "rm" p (alter (address h p) rmNode (root h)) h.

(** The bytes at the positions [start <= i < stop]. *)
Definition bytesBetween (start stop : Z) (bs : list Byte.byte) : list Byte.byte :=
  let s := Z.max 0 start in
  firstn (Z.to_nat (stop - s)) (skipn (Z.to_nat s) bs).

(** The validation of [start] and [end] by [fs.createReadStream]: both are
    integers that are not negative, and [start <= end]; [Infinity] ([None])
    is not checked. *)
Definition rangeOk (start end_ : option Z) : bool :=
  match start with Some s => (0 <=? s)%Z | None => true end
  && match end_ with
     | Some e =>
         (0 <=? e)%Z && match start with Some s => (s <=? e)%Z | None => true end
     | None => true
     end.

(** [fs.createReadStream(p, { start, end })], drained: the bytes from
    [start] (default 0) to [end] inclusive ([None] is [Infinity]) of the
    file as it is when read.  Bounds that do not pass the validation make
    the call throw [ERR_OUT_OF_RANGE] before anything is asked of the
    host. *)
Definition createReadStream (p : string) (start : option Z) (end_ : option Z)
  : IO (list Byte.byte) :=
  fun h =>
    if negb (rangeOk start end_) then (Throw (RangeError "ERR_OUT_OF_RANGE"), h)
    else
    (liftRes "open" p
       (match lookup (address h p) (root h) with
        | Ok (RegFile bs _) =>
            let s := match start with Some s => s | None => 0%Z end in
            Ok (match end_ with
                | Some e => bytesBetween s (e + 1) bs
                | None => bytesBetween s (Z.of_nat (List.length bs)) bs
                end)
        | Ok (Dir _ _) => Err EISDIR
        | Ok _ => Err ENXIO
        | Err e => Err e
        end),
     withCall h (CallRead p start end_)).

(** ** The lazy blob of [@mjackson/lazy-file] *)

(** A [LazyFileContent] is built in two places ([createFile] in [open.ts]
    and [FileBrowser.get]), both times as
    [{ byteLength: stats.size, read(start, end) { return readFile(filename, start, end) } }]:
    it is represented by the length and the file name its [read] captures.
    The other contents are arrays of parts, where a part is a byte array or
    a [Blob], i.e. the content and the window of another lazy file. *)
Inductive content : Type :=
| LazyFileContent (byteLength : Z) (filename : string)
| BlobParts (parts : list blobPart)
with blobPart : Type :=
| BytesPart (bs : list Byte.byte)
| BlobPart (c : content) (offset length : Z).

Definition partSize (p : blobPart) : Z :=
  match p with
  | BytesPart bs => Z.of_nat (List.length bs)
  | BlobPart _ _ length => length
  end.

Definition contentSize (c : content) : Z :=
  match c with
  | LazyFileContent byteLength _ => byteLength
  | BlobParts parts => fold_right (fun p acc => (partSize p + acc)%Z) 0%Z parts
  end.

(** [readFile(filename, start, end = Infinity)] of [open.ts] and of
    [file-browser.ts]: [fs.createReadStream(filename, { start, end: end - 1 })],
    whose chunks are handed over one by one; the result here is their
    concatenation. *)
Definition readFile (filename : string) (start : option Z) (end_ : option Z)
  : IO (list Byte.byte) :=
  createReadStream filename start
    (match end_ with Some e => Some (e - 1)%Z | None => None end).

(** Modelled from the spec: the class [LazyFile] of the package
    [@mjackson/lazy-file] is not under src/.  Spec 3 and 4.2: a lazy content
    is a window [(source, offset, length)]; [byteLength] is the length of the
    window.  The window of a new one is told by [LazyFile_new]. *)
Record LazyFile : Type := {
  lf_content : content;
  lf_offset : Z;
  lf_length : Z;
  lf_name : string;
  lf_type : string;
  lf_lastModified : Z
}.

Definition orElse {A : Type} (o : option A) (d : A) : A :=
  match o with Some a => a | None => d end.

(** Modelled from the spec: the window a new [LazyFile] has on its content
    (the constructor is not under src/).  A content covers itself whole.
    An array that holds one blob is what [File.slice] hands to the
    constructor, and spec 4.3 says what handle that makes: one whose content
    is the content sliced per 4.2, that is, the window of that blob, on the
    same source with the offset and the length of the blob.  Spec 3 and 4.2:
    a window is [(source, offset, length)]. *)
Definition windowSource (c : content) : content :=
  match c with
  | BlobParts [BlobPart source _ _] => source
  | _ => c
  end.

Definition windowOffset (c : content) : Z :=
  match c with
  | BlobParts [BlobPart _ offset _] => offset
  | _ => 0%Z
  end.

Definition windowLength (c : content) : Z :=
  match c with
  | BlobParts [BlobPart _ _ length] => length
  | _ => contentSize c
  end.

(** Modelled from the spec: the constructor of [LazyFile] (not under src/);
    the window is the one of the content, an absent [type] is the empty
    string and an absent [lastModified] is the current time. *)
Definition LazyFile_new (c : content) (name : string) (type : option string)
  (lastModified : option Z) (now : Z) : LazyFile :=
  {| lf_content := windowSource c;
     lf_offset := windowOffset c;
     lf_length := windowLength c;
     lf_name := name;
     lf_type := orElse type EmptyString;
     lf_lastModified := orElse lastModified now |}.

(** Modelled from the spec: [LazyFile.size] (not under src/) is the length of
    the current window (spec 4.2, [byteLength]). *)
Definition LazyFile_size (this : LazyFile) : Z := lf_length this.

(** Modelled from the spec: index clamping of [slice] (not under src/).
    Spec 4.2: negative indices count from the end of the current window and
    results are clamped to [0, byteLength]. *)
Definition clampIndex (byteLength i : Z) : Z :=
  if (i <? 0)%Z then Z.max 0 (byteLength + i) else Z.min i byteLength.

(** Modelled from the spec: [LazyFile.slice(start, end)] (not under src/).
    Spec 3 and 4.2: both bounds default to the whole window, the new window
    starts at [offset + clamp(relStart)] and ends at [offset + clamp(relEnd)],
    the source is shared and no I/O occurs.  The result is a [Blob]. *)
Definition LazyFile_slice (this : LazyFile) (start end_ : option Z) : blobPart :=
  let s := clampIndex (lf_length this) (orElse start 0%Z) in
  let e := clampIndex (lf_length this) (orElse end_ (lf_length this)) in
  BlobPart (lf_content this) (lf_offset this + s) (Z.max 0 (e - s)).

(** Modelled from the spec: the bytes that a read of the window
    [offset, offset + length) of a content delivers, concatenated (not
    under src/).  Spec 4.2: the window of a source is read by delegating to
    [source.read(absoluteStart, absoluteEnd)].  An array of parts holds the
    bytes of its parts in order; no code under src/ builds an array of several
    parts, and the spec has no words for one: a part that is a blob is read
    here through the window it is narrowed to. *)
Fixpoint readContent (c : content) (offset length : Z) {struct c}
  : IO (list Byte.byte) :=
  match c with
  | LazyFileContent _ filename =>
      readFile filename (Some offset) (Some (offset + length)%Z)
  | BlobParts parts =>
      fold_right
        (fun p rest pos =>
           first <- readPart p (offset - pos)%Z (offset + length - pos)%Z ;;
           others <- rest (pos + partSize p)%Z ;;
           ret (first ++ others))
        (fun _ => ret []) parts 0%Z
  end
with readPart (p : blobPart) (start stop : Z) {struct p} : IO (list Byte.byte) :=
  match p with
  | BytesPart bs => ret (bytesBetween start stop bs)
  | BlobPart c offset length =>
      let s := Z.min (Z.max 0 start) length in
      let e := Z.min (Z.max 0 stop) length in
      readContent c (offset + s)%Z (Z.max 0 (e - s))
  end.

(** Modelled from the spec: [LazyFile.stream()], drained, and [bytes()]
    (not under src/).  Spec 8: the empty window yields zero chunks; spec
    4.2: any other window is read by delegating to
    [source.read(absoluteStart, absoluteEnd)]. *)
Definition LazyFile_bytes (this : LazyFile) : IO (list Byte.byte) :=
  if (lf_length this <=? 0)%Z then ret []
  else readContent (lf_content this) (lf_offset this) (lf_length this).

(** Modelled from the spec: [LazyFile.text()] (not under src/): the bytes,
    as the string of their code units. *)
Definition LazyFile_text (this : LazyFile) : IO string :=
  bs <- LazyFile_bytes this ;; ret (string_of_list_byte bs).

(** ** [open.ts] *)

Definition dq : string := String (ascii_of_nat 34) EmptyString.

Definition isNoEntityError (obj : exn) : bool :=
  match obj with
  | ErrnoException ENOENT _ _ => true
  | _ => false
  end.

Record OpenOptions : Type := { autoCreate : option bool }.

(** [options?.autoCreate ?? true] *)
Definition autoCreateOf (options : option OpenOptions) : bool :=
  match options with
  | Some {| autoCreate := Some b |} => b
  | _ => true
  end.

(** [FilePropertyBag]; [bag_type] is [Some None] when the key [type] is
    there with the value [undefined]. *)
Record FilePropertyBag : Type := {
  bag_type : option (option string);
  bag_lastModified : option Z
}.

Record Directory : Type := { d_path : string }.

Record File : Type := { f_super : LazyFile; f_path : string }.

(** [new Directory(name)] *)
Definition Directory_new (name : string) : IO Directory :=
  fun h => (Return {| d_path := Path.resolve (process_cwd h) name |}, h).

(** [new File(content, name, props)]: the name given to [super] is the base
    name of the resolved path, and [{ type: lookup(name), ...props }] lets a
    [type] key of [props] win over the inferred type. *)
Definition File_new (c : content) (name : string) (props : option FilePropertyBag)
  : IO File :=
  fun h =>
    let resolved := Path.resolve (process_cwd h) name in
    let type := match props with
                | Some {| bag_type := Some t |} => t
                | _ => mime h name
                end in
    let lastModified := match props with
                        | Some bag => bag_lastModified bag
                        | None => None
                        end in
    (Return {| f_super := LazyFile_new c (Path.basename resolved) type
                            lastModified (clock h);
               f_path := resolved |}, h).

Definition Directory_path (this : Directory) : string := d_path this.
Definition Directory_dirname (this : Directory) : string :=
  Path.dirname (Directory_path this).
Definition Directory_name (this : Directory) : string :=
  Path.basename (Directory_path this).
Definition Directory_dir (this : Directory) : IO Directory :=
  Directory_new (Directory_dirname this).

Definition File_path (this : File) : string := f_path this.
Definition File_dirname (this : File) : string := Path.dirname (File_path this).
Definition File_name (this : File) : string := lf_name (f_super this).
Definition File_size (this : File) : Z := LazyFile_size (f_super this).
Definition File_dir (this : File) : IO Directory :=
  Directory_new (File_dirname this).
Definition File_stats (this : File) : IO Stats := statSync (File_path this).
Definition File_bytes (this : File) : IO (list Byte.byte) :=
  LazyFile_bytes (f_super this).
Definition File_text (this : File) : IO string := LazyFile_text (f_super this).

Definition createFile (filename : string) (stats : Stats) : IO File :=
  let c := LazyFileContent (st_size stats) filename in
  File_new c filename
    (Some {| bag_type := None; bag_lastModified := Some (st_mtimeMs stats) |}).

(** [writeFile(filename, stream)]: the destination is opened for writing,
    the chunks of [stream] are written as they come, and an error of the
    stream rejects the promise.  The steps are taken one after the other:
    the destination is opened (created or truncated) first, then the source
    is drained and written.  A failure to open the destination is no error
    of the promise: Node reports it as an [error] event on the write
    stream, for which the program has no listener (what the process does
    with the event is not followed here); the source is drained all the
    same, the chunks are dropped and [end] calls back. *)
Definition writeFile (filename : string) (stream : IO (list Byte.byte)) : IO unit :=
  opened <- tryCatch (createWriteStream filename ;;; ret true) (fun _ => ret false) ;;
  tryCatch (chunks <- stream ;;
            if opened : bool then writeChunks filename chunks else ret tt)
           (fun error => throw error).

Definition deleteFile (filename : string) : IO unit := unlink filename.

(** [Directory.open(name, options)] *)
Definition Directory_open (name : string) (options : option OpenOptions)
  : IO Directory :=
  stats <- tryCatch (statSync name)
             (fun error =>
                if negb (isNoEntityError error) then throw error
                else if autoCreateOf options then
                  mkdirSync name ;;; statSync name
                else
                  throw (JsError ("Directory " +++ dq +++ name +++ dq
                                  +++ " does not exist"))) ;;
  if negb (st_isDirectory stats) then
    throw (JsError ("Path " +++ dq +++ name +++ dq +++ " is not a directory"))
  else Directory_new name.

Definition Directory_delete (this : Directory) : IO unit :=
  rm (Directory_path this).

Definition Directory_subdir (this : Directory) (name : string)
  : IO (option Directory) :=
  let dirname := Path.join (Directory_path this) name in
  tryCatch
    (stats <- statSync dirname ;;
     if st_isDirectory stats then d <- Directory_new dirname ;; ret (Some d)
     else ret None)
    (fun error => if isNoEntityError error then ret None else throw error).

Definition Directory_entryNames (this : Directory) : IO (list string) :=
  es <- readdirSync (Directory_path this) ;; ret (map de_name es).

Definition Directory_entries (this : Directory) : IO (list Dirent) :=
  readdirSync (Directory_path this).

Definition Directory_file (this : Directory) (name : string) : IO (option File) :=
  let filename := Path.join (Directory_path this) name in
  tryCatch
    (stats <- statSync filename ;;
     if st_isFile stats then f <- createFile filename stats ;; ret (Some f)
     else ret None)
    (fun error => if isNoEntityError error then ret None else throw error).

Definition Directory_remove (this : Directory) (file : string + File) : IO unit :=
  let file := match file with inl s => s | inr f => File_name f end in
  deleteFile (Path.join (Directory_path this) file).

(** [Directory.write(file)]; the result is [this.file(file.name) as File],
    which is [null] when the lookup finds no regular file. *)
Definition Directory_write (this : Directory) (file : File) : IO (option File) :=
  writeFile (Path.join (Directory_path this) (File_name file)) (File_bytes file) ;;;
  Directory_file this (File_name file).

Definition open : string -> option OpenOptions -> IO Directory := Directory_open.

(** [File.open(name, options)] *)
Definition File_open (name : string) (options : option OpenOptions) : IO File :=
  stats <- tryCatch (statSync name)
             (fun error =>
                if negb (isNoEntityError error) then throw error
                else if autoCreateOf options then
                  writeFileSync name [] ;;; statSync name
                else
                  throw (JsError ("File " +++ dq +++ name +++ dq
                                  +++ " does not exist"))) ;;
  if negb (st_isFile stats) then
    throw (JsError ("Path " +++ dq +++ name +++ dq +++ " is not a file"))
  else createFile name stats.

Definition File_delete (this : File) : IO unit := deleteFile (File_path this).

Definition File_save (this : File) : IO (option File) :=
  d <- open (File_dirname this) None ;; Directory_write d this.

(** [File.slice(start, end, contentType)] *)
Definition File_slice (this : File) (start end_ : option Z)
  (contentType : option string) : IO File :=
  let c := [LazyFile_slice (f_super this) start end_] in
  File_new (BlobParts c) (File_path this)
    (Some {| bag_type := Some contentType; bag_lastModified := None |}).

Definition openFile : string -> option OpenOptions -> IO File := File_open.

(** The first revision kept in [open.ts] has an [openFile(name)] without
    options: a missing file is an error there, and nothing is created. *)
Definition openFile_rev1 (name : string) : IO File :=
  stats <- tryCatch (statSync name)
             (fun error =>
                if negb (isNoEntityError error) then throw error
                else throw (JsError ("File " +++ dq +++ name +++ dq
                                      +++ " does not exist"))) ;;
  if negb (st_isFile stats) then
    throw (JsError ("Path " +++ dq +++ name +++ dq +++ " is not a file"))
  else createFile name stats.

(** ** The module [node:fs] as [file-browser.ts] sees it

    [file-browser.ts] reads the host with two calls, [fs.statSync] and
    [fsp.opendir]. *)

Record fsModule : Type := {
  fs_statSync : string -> IO Stats;
  fs_opendir : string -> IO (list Dirent)
}.

(** The module over the tree of the host. *)
Definition nodeFs : fsModule := {| fs_statSync := statSync; fs_opendir := opendir |}.

(** ** Symbolic links with a missing target

    The tree of the host holds no symbolic links.  What the two calls
    answer where symbolic links with a missing target stand does not need
    the links in the tree: the listing of the directory shows the link, as
    an entry that is a symbolic link, and [stat], which follows links,
    fails with not-found at the link and on every path through it.
    [links] holds the chains of names at which such links stand; nothing
    stands in the tree at these chains (see [linksFree]). *)

Fixpoint isPrefixOf (l a : list string) : bool :=
  match l, a with
  | [], _ => true
  | x :: l', y :: a' => (x =? y) && isPrefixOf l' a'
  | _ :: _, [] => false
  end.

(** Does the chain [a] go through one of the links? *)
Definition throughLink (links : list (list string)) (a : list string) : bool :=
  existsb (fun l => isPrefixOf l a) links.

(** The name of the link at [l], when it stands in the directory at [dir]. *)
Fixpoint linkNameIn (dir l : list string) : option string :=
  match dir, l with
  | [], [n] => Some n
  | x :: dir', y :: l' => if x =? y then linkNameIn dir' l' else None
  | _, _ => None
  end.

Definition linkNamesIn (links : list (list string)) (dir : list string) : list string :=
  flat_map (fun l => match linkNameIn dir l with Some n => [n] | None => [] end) links.

Definition linkEntry (n : string) : Dirent := {| de_name := n; de_kind := KSymbolicLink |}.

(** [fs.statSync(p)] where the links stand. *)
Definition Linked_statSync (links : list (list string)) (p : string) : IO Stats :=
  fun h =>
    if throughLink links (address h p)
    then (Throw (ErrnoException ENOENT "stat" p), withCall h (CallStat p))
    else statSync p h.

(** [fsp.opendir(p)] where the links stand: the links of the directory are
    listed after the entries of the tree. *)
Definition Linked_opendir (links : list (list string)) (p : string) : IO (list Dirent) :=
  fun h =>
    if throughLink links (address h p)
    then (Throw (ErrnoException ENOENT "opendir" p), h)
    else match opendir p h with
         | (Return entries, h') =>
             (Return (entries ++ map linkEntry (linkNamesIn links (address h p))), h')
         | (Throw e, h') => (Throw e, h')
         end.

Definition linkedFs (links : list (list string)) : fsModule :=
  {| fs_statSync := Linked_statSync links; fs_opendir := Linked_opendir links |}.

(** Nothing stands in the tree where a link stands. *)
Definition linksFree (links : list (list string)) (h : host) : Prop :=
  Forall (fun l => lookup l (root h) = Err ENOENT) links.

(** ** The generators [Directory.files] and [Directory.subdirs]

    A generator object is its suspended state: not started yet, suspended
    inside the [for] loop with the entries still to visit, or finished.
    The listing is taken when the body starts, at the first [next()]; the
    host may change between two calls of [next()].

    The generators here hold the pattern of a filter that has neither the
    flag [g] nor the flag [y], whose [test] is a function of the name.  The
    generators that hold the filter as an object, with every flag, are in
    [Flagged]; without these flags they run as the ones here
    ([files_plain], [subdirs_plain]). *)

Inductive genState : Type :=
| GenStart
| GenLoop (rest : list Dirent)
| GenDone.

Record Generator : Type := {
  gen_this : Directory;
  gen_filter : RegExp;
  gen_state : genState
}.

Inductive IteratorResult (A : Type) : Type :=
| Yield (value : A)
| Done.
Arguments Yield {A} value.
Arguments Done {A}.

Definition suspend (g : Generator) (st : genState) : Generator :=
  {| gen_this := gen_this g; gen_filter := gen_filter g; gen_state := st |}.

(** [dir.files(filter)] and [dir.subdirs(filter)]: nothing runs before the
    first [next()]. *)
Definition Directory_files (this : Directory) (filter : option RegExp) : Generator :=
  {| gen_this := this; gen_filter := orElse filter matchAll; gen_state := GenStart |}.

Definition Directory_subdirs (this : Directory) (filter : option RegExp) : Generator :=
  {| gen_this := this; gen_filter := orElse filter matchAll; gen_state := GenStart |}.

(** The loop of [files], resumed with [entries] still to visit. *)
Fixpoint filesLoop (g : Generator) (entries : list Dirent) (h : host)
  : outcome (IteratorResult File) * Generator * host :=
  match entries with
  | [] => (Return Done, suspend g GenDone, h)
  | entry :: rest =>
      if de_isFile entry && test (gen_filter g) (de_name entry) then
        let filename := Path.join (Directory_path (gen_this g)) (de_name entry) in
        match (stats <- statSync filename ;; createFile filename stats) h with
        | (Return f, h') => (Return (Yield f), suspend g (GenLoop rest), h')
        | (Throw e, h') => (Throw e, suspend g GenDone, h')
        end
      else filesLoop g rest h
  end.

(** [gen.next()] for a generator made by [files]. *)
Definition files_next (g : Generator) (h : host)
  : outcome (IteratorResult File) * Generator * host :=
  match gen_state g with
  | GenStart =>
      match Directory_entries (gen_this g) h with
      | (Return entries, h') => filesLoop g entries h'
      | (Throw e, h') => (Throw e, suspend g GenDone, h')
      end
  | GenLoop rest => filesLoop g rest h
  | GenDone => (Return Done, g, h)
  end.

(** The loop of [subdirs]. *)
Fixpoint subdirsLoop (g : Generator) (entries : list Dirent) (h : host)
  : outcome (IteratorResult Directory) * Generator * host :=
  match entries with
  | [] => (Return Done, suspend g GenDone, h)
  | entry :: rest =>
      if de_isDirectory entry && test (gen_filter g) (de_name entry) then
        match Directory_new (Path.join (Directory_path (gen_this g)) (de_name entry)) h with
        | (Return d, h') => (Return (Yield d), suspend g (GenLoop rest), h')
        | (Throw e, h') => (Throw e, suspend g GenDone, h')
        end
      else subdirsLoop g rest h
  end.

(** [gen.next()] for a generator made by [subdirs]. *)
Definition subdirs_next (g : Generator) (h : host)
  : outcome (IteratorResult Directory) * Generator * host :=
  match gen_state g with
  | GenStart =>
      match Directory_entries (gen_this g) h with
      | (Return entries, h') => subdirsLoop g entries h'
      | (Throw e, h') => (Throw e, suspend g GenDone, h')
      end
  | GenLoop rest => subdirsLoop g rest h
  | GenDone => (Return Done, g, h)
  end.

(** [Array.from(gen)]: [next()] is called until the generator is done, with
    nothing else touching the host in between.  [fuel] bounds the number of
    calls; [None] tells that it did not suffice. *)
Fixpoint arrayFrom {A : Type}
  (next : Generator -> host -> outcome (IteratorResult A) * Generator * host)
  (fuel : nat) (g : Generator) (h : host) : option (outcome (list A) * host) :=
  match fuel with
  | O => None
  | S fuel' =>
      match next g h with
      | (Return Done, _, h') => Some (Return [], h')
      | (Throw e, _, h') => Some (Throw e, h')
      | (Return (Yield v), g', h') =>
          match arrayFrom next fuel' g' h' with
          | Some (Return vs, h'') => Some (Return (v :: vs), h'')
          | other => other
          end
      end
  end.

(** ** [file.ts] *)

Module FileTs.

Record FileProps : Type := {
  type : option string;
  lastModified : option Z;
  dirname : option string;
  isDirectory : option bool;
  isFIFO : option bool;
  isFile : option bool;
  isSocket : option bool;
  isSymbolicLink : option bool
}.

Definition noProps : FileProps :=
  {| type := None; lastModified := None; dirname := None; isDirectory := None;
     isFIFO := None; isFile := None; isSocket := None; isSymbolicLink := None |}.

Record File : Type := { super : LazyFile; props : FileProps }.

(** [new File(content, name, props)], without a [range]. *)
Definition new (c : content) (name : string) (p : option FileProps) : IO File :=
  fun h =>
    let p := orElse p noProps in
    (Return {| super := LazyFile_new c name (type p) (lastModified p) (clock h);
               props := p |}, h).

Definition get_dirname (this : File) : string :=
  orElse (dirname (props this)) EmptyString.
Definition get_isDirectory (this : File) : bool :=
  orElse (isDirectory (props this)) false.
Definition get_isFIFO (this : File) : bool :=
  orElse (isFIFO (props this)) false.
Definition get_isFile (this : File) : bool :=
  orElse (isFile (props this)) false.
Definition get_isSocket (this : File) : bool :=
  orElse (isSocket (props this)) false.
Definition get_isSymbolicLink (this : File) : bool :=
  orElse (isSymbolicLink (props this)) false.

End FileTs.

(** ** [file-browser.ts] *)

Module FileBrowser.

Record t : Type := { directory : string }.

(** [new FileBrowser(directory)] *)
Definition new (dir : string) : IO t :=
  tryCatch
    (stat <- statSync dir ;;
     if negb (st_isDirectory stat) then
       throw (JsError ("Path " +++ dq +++ dir +++ dq +++ " is not a directory"))
     else ret tt)
    (fun error =>
       if negb (isNoEntityError error) then throw error
       else mkdirSync dir) ;;;
  ret {| directory := dir |}.

(** [browser.get(filename)], with the module [fs] it calls. *)
Definition getOn (fs : fsModule) (this : t) (filename : string) : IO (option FileTs.File) :=
  tryCatch
    (let file := Path.join (directory this) filename in
     stat <- fs_statSync fs file ;;
     let c := LazyFileContent (st_size stat) file in
     m <- (fun h => (Return (mime h filename), h)) ;;
     let props :=
       {| FileTs.dirname := Some (directory this);
          FileTs.isDirectory := Some (st_isDirectory stat);
          FileTs.isFIFO := Some (st_isFIFO stat);
          FileTs.isFile := Some (st_isFile stat);
          FileTs.isSocket := Some (st_isSocket stat);
          FileTs.isSymbolicLink := Some (st_isSymbolicLink stat);
          FileTs.lastModified := Some (st_mtimeMs stat);
          FileTs.type := m |} in
     f <- FileTs.new c filename (Some props) ;;
     ret (Some f))
    (fun error =>
       if negb (isNoEntityError error) then throw error else ret None).

Definition get : t -> string -> IO (option FileTs.File) := getOn nodeFs.

End FileBrowser.

(** ** The fixtures of the test suite

    [test/fixtures] holds [a.txt], [b.txt], [c.txt] and the directories
    [sub] and [sub2]; the tests run with the package as working directory. *)

Definition newline : string := String (ascii_of_nat 10) EmptyString.

Definition fileOf (text : string) : node := RegFile (list_byte_of_string text) 1.

Definition fixturesDir : node :=
  Dir [("a.txt", fileOf ("This is file a." +++ newline));
       ("b.txt", fileOf ("This is file b." +++ newline));
       ("c.txt", fileOf ("This is file c." +++ newline));
       ("sub", Dir [] 1);
       ("sub2", Dir [] 1)] 1.

Definition testHost : host :=
  {| tree := [("pkg", Dir [("src", Dir [("test", Dir [("fixtures", fixturesDir)] 1)] 1)] 1)];
     cwd := ["pkg"];
     clock := 1000;
     mime := fun _ => None;
     calls := [] |}.

Definition fixtures : string := "/pkg/src/test/fixtures".

(** The value of a computation, and of a run of [arrayFrom]. *)
Definition valueOf {A : Type} (r : outcome A * host) : option A :=
  match r with
  | (Return a, _) => Some a
  | (Throw _, _) => None
  end.

Definition errorOf {A : Type} (r : outcome A * host) : option exn :=
  match r with
  | (Return _, _) => None
  | (Throw e, _) => Some e
  end.

Definition evalIO {A : Type} (m : IO A) (h : host) : option A := valueOf (m h).
Definition failIO {A : Type} (m : IO A) (h : host) : option exn := errorOf (m h).

(** ** Names *)

Fixpoint noSlash (s : string) : bool :=
  match s with
  | EmptyString => true
  | String c r => negb (Ascii.eqb c Path.slash) && noSlash r
  end.

(** A segment that [normalizeString] keeps: neither empty nor [.]. *)
Definition keptSeg (s : string) : bool :=
  Path.nonempty s && negb (s =? ".") && noSlash s.

(** The name of a directory entry: a non-empty string without [/] that is
    neither [.] nor [..]. *)
Definition validName (s : string) : bool :=
  keptSeg s && negb (s =? "..").

(** The stack of [normalizeString] once the working directory is read. *)
Definition cwdStack (h : host) : list string :=
  fold_left (Path.normStep false) (Path.segments (process_cwd h)) [].

(** The entry a path name leads to. *)
Definition entryAt (h : host) (p : string) : res node :=
  lookup (address h p) (root h).

Definition isDir (n : node) : bool := kind_eqb (kindOf n) KDirectory.

(** Two states of the host with the same process around the tree. *)
Definition sameProcess (h h' : host) : Prop :=
  cwd h' = cwd h /\ clock h' = clock h /\ mime h' = mime h.

(** The parts of an array from the position [pos] on, read through the
    window [start, stop) of the array. *)
Definition readParts (parts : list blobPart) (start stop : Z) : Z -> IO (list Byte.byte) :=
  fold_right
    (fun p rest pos =>
       first <- readPart p (start - pos)%Z (stop - pos)%Z ;;
       others <- rest (pos + partSize p)%Z ;;
       ret (first ++ others))
    (fun _ => ret []) parts.

(** The host after a series of calls. *)
Definition withCalls (h : host) (cs : list call) : host := fold_left withCall cs h.

(** The tests of the loops of [files] and [subdirs]. *)
Definition fileMatch (r : RegExp) (e : Dirent) : bool :=
  de_isFile e && test r (de_name e).

Definition dirMatch (r : RegExp) (e : Dirent) : bool :=
  de_isDirectory e && test r (de_name e).

Definition direntOf (kv : string * node) : Dirent :=
  {| de_name := fst kv; de_kind := kindOf (snd kv) |}.

(** A path name made of entry names only: it is not empty, has no segment
    [.] or [..], no repeated [/] and no trailing [/].  For such a path
    name the host goes from name to name, as [lookup] does on the chain
    [address] computes. *)
Definition plainPath (p : string) : bool :=
  match Path.segments p with
  | EmptyString :: name :: names => forallb validName (name :: names)
  | names => forallb validName names
  end.

(** ** The asynchronous generators of [file-browser.ts]

    [fileNames()] opens the directory with [fsp.opendir] and yields the name
    of each entry the handle delivers; [files()] runs [fileNames()] and
    yields [this.get(filename)] for each name.  Nothing runs before the
    first [next()], and the host may change between two calls of [next()].

    What an open directory handle delivers when entries come and go while
    it is read is left to the host; here the handle delivers the entries
    that stood in the directory when it was opened (see [opendir]). *)

Record NamesGenerator : Type := {
  ng_this : FileBrowser.t;
  ng_state : genState
}.

(** [browser.fileNames()] *)
Definition FileBrowser_fileNames (this : FileBrowser.t) : NamesGenerator :=
  {| ng_this := this; ng_state := GenStart |}.

Definition namesSuspend (g : NamesGenerator) (st : genState) : NamesGenerator :=
  {| ng_this := ng_this g; ng_state := st |}.

(** The loop [for await (let entry of dir) yield entry.name]. *)
Definition fileNamesLoop (g : NamesGenerator) (entries : list Dirent) (h : host)
  : outcome (IteratorResult string) * NamesGenerator * host :=
  match entries with
  | [] => (Return Done, namesSuspend g GenDone, h)
  | entry :: rest => (Return (Yield (de_name entry)), namesSuspend g (GenLoop rest), h)
  end.

(** [gen.next()] for a generator made by [fileNames], with the module
    [fsp] it calls. *)
Definition fileNames_nextOn (fs : fsModule) (g : NamesGenerator) (h : host)
  : outcome (IteratorResult string) * NamesGenerator * host :=
  match ng_state g with
  | GenStart =>
      match fs_opendir fs (FileBrowser.directory (ng_this g)) h with
      | (Return entries, h') => fileNamesLoop g entries h'
      | (Throw e, h') => (Throw e, namesSuspend g GenDone, h')
      end
  | GenLoop rest => fileNamesLoop g rest h
  | GenDone => (Return Done, g, h)
  end.

Definition fileNames_next : NamesGenerator -> host
  -> outcome (IteratorResult string) * NamesGenerator * host :=
  fileNames_nextOn nodeFs.

(** The state of a generator made by [files]: not started, suspended at its
    [yield] with the generator of names it iterates, or finished. *)
Inductive browserState : Type :=
| BrowseStart
| BrowseLoop (names : NamesGenerator)
| BrowseDone.

Record FilesGenerator : Type := {
  fg_this : FileBrowser.t;
  fg_state : browserState
}.

(** [browser.files()] *)
Definition FileBrowser_files (this : FileBrowser.t) : FilesGenerator :=
  {| fg_this := this; fg_state := BrowseStart |}.

Definition filesSuspend (g : FilesGenerator) (st : browserState) : FilesGenerator :=
  {| fg_this := fg_this g; fg_state := st |}.

(** One turn of [for await (let filename of this.fileNames()) yield this.get(filename) as File]:
    the next name is asked for, and [get] is called on it.  The value
    yielded is what [get] returns, [null] included: the cast does not
    check it. *)
Definition browserFilesLoopOn (fs : fsModule) (g : FilesGenerator) (names : NamesGenerator)
  (h : host) : outcome (IteratorResult (option FileTs.File)) * FilesGenerator * host :=
  match fileNames_nextOn fs names h with
  | (Return (Yield filename), names', h1) =>
      match FileBrowser.getOn fs (fg_this g) filename h1 with
      | (Return f, h2) => (Return (Yield f), filesSuspend g (BrowseLoop names'), h2)
      | (Throw e, h2) => (Throw e, filesSuspend g BrowseDone, h2)
      end
  | (Return Done, _, h1) => (Return Done, filesSuspend g BrowseDone, h1)
  | (Throw e, _, h1) => (Throw e, filesSuspend g BrowseDone, h1)
  end.

Definition browserFilesLoop : FilesGenerator -> NamesGenerator -> host
  -> outcome (IteratorResult (option FileTs.File)) * FilesGenerator * host :=
  browserFilesLoopOn nodeFs.

(** [gen.next()] for a generator made by [FileBrowser.files], with the
    modules [fs] and [fsp] it calls. *)
Definition browserFiles_nextOn (fs : fsModule) (g : FilesGenerator) (h : host)
  : outcome (IteratorResult (option FileTs.File)) * FilesGenerator * host :=
  match fg_state g with
  | BrowseStart => browserFilesLoopOn fs g (FileBrowser_fileNames (fg_this g)) h
  | BrowseLoop names => browserFilesLoopOn fs g names h
  | BrowseDone => (Return Done, g, h)
  end.

Definition browserFiles_next : FilesGenerator -> host
  -> outcome (IteratorResult (option FileTs.File)) * FilesGenerator * host :=
  browserFiles_nextOn nodeFs.

(** [for await (let x of gen) xs.push(x)]: [next()] is awaited until the
    generator is done, with nothing else touching the host in between.
    [fuel] bounds the number of calls; [None] tells that it did not
    suffice. *)
Fixpoint forAwait {G A : Type}
  (next : G -> host -> outcome (IteratorResult A) * G * host)
  (fuel : nat) (g : G) (h : host) : option (outcome (list A) * host) :=
  match fuel with
  | O => None
  | S fuel' =>
      match next g h with
      | (Return Done, _, h') => Some (Return [], h')
      | (Throw e, _, h') => Some (Throw e, h')
      | (Return (Yield v), g', h') =>
          match forAwait next fuel' g' h' with
          | Some (Return vs, h'') => Some (Return (v :: vs), h'')
          | other => other
          end
      end
  end.

(** ** Walking up

    [d.dir.dir...]: the getter [dir] applied [k] times. *)
Fixpoint ancestor (k : nat) (d : Directory) : IO Directory :=
  match k with
  | O => ret d
  | S k' => p <- Directory_dir d ;; ancestor k' p
  end.

(** The number of segments of a resolved path. *)
Definition depth (h : host) (p : string) : nat := List.length (address h p).

(** What is looked at in a handle made by [FileBrowser.get]: its name and
    the flags [isFile] and [isDirectory]; [None] for [null]. *)
Definition describe (f : option FileTs.File) : option (string * bool * bool) :=
  match f with
  | Some f => Some (lf_name (FileTs.super f), FileTs.get_isFile f, FileTs.get_isDirectory f)
  | None => None
  end.

(** A tree without the modification times of its directories: the names,
    the kinds, and the regular files with their bytes and times. *)
Fixpoint untimed (n : node) : node :=
  match n with
  | Dir ch _ => Dir (map (fun kv : string * node => let (k, c) := kv in (k, untimed c)) ch) 0%Z
  | other => other
  end.

(** ** Regular expression objects

    [filter.test(entry.name)] is called on the object the caller passed.  A
    [RegExp] object is its pattern, its flags and its [lastIndex].  With
    the global flag [g] or the sticky flag [y], [test] starts the search at
    [lastIndex] and leaves the end of the match there, or 0 after a
    failure, so the next call goes on from where this one stopped; without
    them [test] searches from the start and leaves the object alone, and is
    the function [test] above of the pattern and the string. *)

Record RegExpObject : Type := {
  re_source : RegExp;
  re_global : bool;
  re_sticky : bool;
  re_lastIndex : nat
}.

(** [/source/] without flags, as a literal makes it. *)
Definition literal (source : RegExp) : RegExpObject :=
  {| re_source := source; re_global := false; re_sticky := false; re_lastIndex := 0 |}.

Definition setLastIndex (R : RegExpObject) (i : nat) : RegExpObject :=
  {| re_source := re_source R; re_global := re_global R; re_sticky := re_sticky R;
     re_lastIndex := i |}.

(** Does [test] keep a position in the object? *)
Definition keepsIndex (R : RegExpObject) : bool := re_global R || re_sticky R.

(** The strings a pattern matches. *)
Inductive matches : RegExp -> string -> Prop :=
| MEmpty : matches ReEmpty EmptyString
| MChar (c : ascii) : matches (ReChar c) (String c EmptyString)
| MDot (c : ascii) : lineTerminator c = false -> matches ReDot (String c EmptyString)
| MSeq (r1 r2 : RegExp) (s1 s2 : string) :
    matches r1 s1 -> matches r2 s2 -> matches (ReSeq r1 r2) (s1 +++ s2)
| MAltL (r1 r2 : RegExp) (s : string) : matches r1 s -> matches (ReAlt r1 r2) s
| MAltR (r1 r2 : RegExp) (s : string) : matches r2 s -> matches (ReAlt r1 r2) s
| MStarEnd (r : RegExp) : matches (ReStar r) EmptyString
| MStarStep (r : RegExp) (s1 s2 : string) :
    matches r s1 -> matches (ReStar r) s2 -> matches (ReStar r) (s1 +++ s2).

(** Some prefix of [s] matches [r]. *)
Definition prefixMatch (r : RegExp) (s : string) : Prop :=
  exists s1 s2, s = s1 +++ s2 /\ matches r s1.

(** What the backtracking matcher accepts: a prefix that matches, with a
    rest that the continuation accepts. *)
Definition accepts (r : RegExp) (s : string) (k : string -> option string) : Prop :=
  exists s1 s2, s = s1 +++ s2 /\ matches r s1 /\ k s2 <> None.

(** The iterations of [*]: [m] matches the pattern under the star.  It is
    greedy, one more iteration is tried before the continuation, and an
    iteration that has matched the empty string is given up.  Every
    iteration that counts takes a character, so the length of the string
    bounds their number. *)
Definition repeatK (m : string -> (string -> option string) -> option string)
  (k : string -> option string) : nat -> string -> option string :=
  fix repeat (fuel : nat) (s : string) {struct fuel} : option string :=
    match
      match fuel with
      | O => None
      | S fuel' =>
          m s (fun s1 =>
                 if (String.length s1 <? String.length s)%nat then repeat fuel' s1
                 else None)
      end
    with
    | Some rest => Some rest
    | None => k s
    end.

(** The backtracking matcher of the language: [r] is matched at the start
    of [s] and the continuation [k] receives what is left of [s]; the
    first choice that the continuation accepts is the match.  A
    disjunction tries its left side first. *)
Fixpoint matchK (r : RegExp) (s : string) (k : string -> option string) {struct r}
  : option string :=
  match r with
  | ReNever => None
  | ReEmpty => k s
  | ReChar c =>
      match s with
      | String c' s' => if Ascii.eqb c' c then k s' else None
      | EmptyString => None
      end
  | ReDot =>
      match s with
      | String c' s' => if lineTerminator c' then None else k s'
      | EmptyString => None
      end
  | ReSeq r1 r2 => matchK r1 s (fun s1 => matchK r2 s1 k)
  | ReAlt r1 r2 =>
      match matchK r1 s k with
      | Some rest => Some rest
      | None => matchK r2 s k
      end
  | ReStar r1 => repeatK (matchK r1) k (String.length s) s
  end.

(** The number of characters of the match of [r] at the start of [s]. *)
Definition matchAt (r : RegExp) (s : string) : option nat :=
  match matchK r s (fun rest => Some rest) with
  | Some rest => Some (String.length s - String.length rest)%nat
  | None => None
  end.

(** The search of [RegExpBuiltinExec]: [s] is the string from the index
    [i] on; the answer is the index at which the first match ends.  A
    sticky search looks at the index [i] only. *)
Fixpoint execFrom (r : RegExp) (sticky : bool) (s : string) (i : nat) : option nat :=
  match matchAt r s with
  | Some n => Some (i + n)%nat
  | None =>
      if sticky then None
      else match s with
           | String _ s' => execFrom r sticky s' (S i)
           | EmptyString => None
           end
  end.

(** The string from the index [i] on; nothing when [i] is beyond its end. *)
Fixpoint dropChars (i : nat) (s : string) : option string :=
  match i with
  | O => Some s
  | S i' =>
      match s with
      | String _ s' => dropChars i' s'
      | EmptyString => None
      end
  end.

(** [R.test(s)], with the object as the call leaves it. *)
Definition RegExp_test (R : RegExpObject) (s : string) : bool * RegExpObject :=
  let lastIndex := if keepsIndex R then re_lastIndex R else O in
  match dropChars lastIndex s with
  | None => (false, if keepsIndex R then setLastIndex R 0 else R)
  | Some rest =>
      match execFrom (re_source R) (re_sticky R) rest lastIndex with
      | Some e => (true, if keepsIndex R then setLastIndex R e else R)
      | None => (false, if keepsIndex R then setLastIndex R 0 else R)
      end
  end.

(** ** The generators with the filter as an object

    The generator keeps the object it was given and calls [test] on it at
    each entry of the wanted kind ([&&] does not evaluate its right side
    otherwise).  The object is followed here as the generator leaves it;
    the caller touching it between two calls of [next()] is left out. *)

Module Flagged.

Record Generator : Type := {
  gen_this : Directory;
  gen_filter : RegExpObject;
  gen_state : genState
}.

Definition suspend (g : Generator) (st : genState) : Generator :=
  {| gen_this := gen_this g; gen_filter := gen_filter g; gen_state := st |}.

Definition withFilter (g : Generator) (R : RegExpObject) : Generator :=
  {| gen_this := gen_this g; gen_filter := R; gen_state := gen_state g |}.

(** The default argument [/.*/]. *)
Definition defaultFilter : RegExpObject := literal matchAll.

(** [dir.files(filter)] and [dir.subdirs(filter)] *)
Definition Directory_files (this : Directory) (filter : option RegExpObject) : Generator :=
  {| gen_this := this; gen_filter := orElse filter defaultFilter; gen_state := GenStart |}.

Definition Directory_subdirs (this : Directory) (filter : option RegExpObject) : Generator :=
  {| gen_this := this; gen_filter := orElse filter defaultFilter; gen_state := GenStart |}.

(** The loop of [files], resumed with [entries] still to visit. *)
Fixpoint filesLoop (g : Generator) (entries : list Dirent) (h : host)
  : outcome (IteratorResult File) * Generator * host :=
  match entries with
  | [] => (Return Done, suspend g GenDone, h)
  | entry :: rest =>
      if de_isFile entry then
        let (passes, R) := RegExp_test (gen_filter g) (de_name entry) in
        let g := withFilter g R in
        if passes then
          let filename := Path.join (Directory_path (gen_this g)) (de_name entry) in
          match (stats <- statSync filename ;; createFile filename stats) h with
          | (Return f, h') => (Return (Yield f), suspend g (GenLoop rest), h')
          | (Throw e, h') => (Throw e, suspend g GenDone, h')
          end
        else filesLoop g rest h
      else filesLoop g rest h
  end.

(** [gen.next()] for a generator made by [files]. *)
Definition files_next (g : Generator) (h : host)
  : outcome (IteratorResult File) * Generator * host :=
  match gen_state g with
  | GenStart =>
      match Directory_entries (gen_this g) h with
      | (Return entries, h') => filesLoop g entries h'
      | (Throw e, h') => (Throw e, suspend g GenDone, h')
      end
  | GenLoop rest => filesLoop g rest h
  | GenDone => (Return Done, g, h)
  end.

(** The loop of [subdirs]. *)
Fixpoint subdirsLoop (g : Generator) (entries : list Dirent) (h : host)
  : outcome (IteratorResult Directory) * Generator * host :=
  match entries with
  | [] => (Return Done, suspend g GenDone, h)
  | entry :: rest =>
      if de_isDirectory entry then
        let (passes, R) := RegExp_test (gen_filter g) (de_name entry) in
        let g := withFilter g R in
        if passes then
          match Directory_new (Path.join (Directory_path (gen_this g)) (de_name entry)) h with
          | (Return d, h') => (Return (Yield d), suspend g (GenLoop rest), h')
          | (Throw e, h') => (Throw e, suspend g GenDone, h')
          end
        else subdirsLoop g rest h
      else subdirsLoop g rest h
  end.

(** [gen.next()] for a generator made by [subdirs]. *)
Definition subdirs_next (g : Generator) (h : host)
  : outcome (IteratorResult Directory) * Generator * host :=
  match gen_state g with
  | GenStart =>
      match Directory_entries (gen_this g) h with
      | (Return entries, h') => subdirsLoop g entries h'
      | (Throw e, h') => (Throw e, suspend g GenDone, h')
      end
  | GenLoop rest => subdirsLoop g rest h
  | GenDone => (Return Done, g, h)
  end.

(** [Array.from(gen)], as [arrayFrom] above. *)
Fixpoint arrayFrom {A : Type}
  (next : Generator -> host -> outcome (IteratorResult A) * Generator * host)
  (fuel : nat) (g : Generator) (h : host) : option (outcome (list A) * host) :=
  match fuel with
  | O => None
  | S fuel' =>
      match next g h with
      | (Return Done, _, h') => Some (Return [], h')
      | (Throw e, _, h') => Some (Throw e, h')
      | (Return (Yield v), g', h') =>
          match arrayFrom next fuel' g' h' with
          | Some (Return vs, h'') => Some (Return (v :: vs), h'')
          | other => other
          end
      end
  end.

End Flagged.

(** [/\.txt/]: the pattern of the names that hold [.txt]. *)
Definition dotTxt : RegExp :=
  ReSeq (ReChar ".") (ReSeq (ReChar "t") (ReSeq (ReChar "x") (ReChar "t"))).

(** The handle [files] makes for an entry: its path is the resolved path of
    the entry, and its size is the size of the child of that name. *)
Definition fileOfEntry (h0 : host) (dir : string) (children : list (string * node))
  (f : File) (e : Dirent) : Prop :=
  File_path f = Path.resolve (process_cwd h0) (Path.join dir (de_name e))
  /\ exists c, assoc (de_name e) children = Some c /\ File_size f = sizeOf c.

Definition dirOfEntry (h0 : host) (dir : string) (s : Directory) (e : Dirent) : Prop :=
  Directory_path s = Path.resolve (process_cwd h0) (Path.join dir (de_name e)).
Example resolve_ex1 : Path.resolve "/home/u" "a/../b/./c.txt" = "/home/u/b/c.txt".
Proof. reflexivity. Qed.
Example resolve_ex2 : Path.resolve "/home/u" "/x//y/" = "/x/y".
Proof. reflexivity. Qed.
Example resolve_ex3 : Path.resolve "/home/u" "../../../.." = "/".
Proof. reflexivity. Qed.
Example dirname_ex1 : map Path.dirname ["/a/b"; "/a"; "/"; "a"; "a/b/"; "//a"; "/a//b"; "///"]
                      = ["/a"; "/"; "/"; "."; "a"; "//"; "/a/"; "/"].
Proof. reflexivity. Qed.
Example basename_ex1 : map Path.basename ["/a/b"; "/a/"; "/"; "a"; "a//b//"]
                      = ["b"; "a"; EmptyString; "a"; "b"].
Proof. reflexivity. Qed.
Example join_ex1 : map (fun '(a, b) => Path.join a b)
                     [("/a", "b"); ("/a/", "../b"); ("/", EmptyString); ("a", ".."); ("/a", "b/")]
                   = ["/a/b"; "/b"; "/"; "."; "/a/b/"].
Proof. reflexivity. Qed.

(** The cases of [file-system.spec.ts], run on the model. *)

Example spec_open_autoCreate_false :
  failIO (open "does-not-exist" (Some {| autoCreate := Some false |})) testHost
  = Some (JsError ("Directory " +++ dq +++ "does-not-exist" +++ dq +++ " does not exist")).
Proof. reflexivity. Qed.

Example spec_open_autoCreate :
  evalIO (d <- open (Path.join fixtures "does-not-exist") None ;;
           ret (Directory_name d, Directory_path d, Directory_dirname d)) testHost
  = Some ("does-not-exist", "/pkg/src/test/fixtures/does-not-exist", fixtures).
Proof. reflexivity. Qed.

Example spec_entryNames :
  evalIO (d <- open fixtures None ;; Directory_entryNames d) testHost
  = Some ["a.txt"; "b.txt"; "c.txt"; "sub"; "sub2"].
Proof. reflexivity. Qed.

Example spec_parent :
  evalIO (d <- open fixtures None ;; p <- Directory_dir d ;; ret (Directory_name p)) testHost
  = Some "test".
Proof. reflexivity. Qed.

Example spec_files_pattern :
  match evalIO (open fixtures None) testHost with
  | Some d =>
      match arrayFrom files_next 10 (Directory_files d (Some (ReChar "b"))) testHost with
      | Some (Return fs, _) => map File_name fs = ["b.txt"]
      | _ => False
      end
  | None => False
  end.
Proof. reflexivity. Qed.

Example spec_subdirs_pattern :
  match evalIO (open fixtures None) testHost with
  | Some d =>
      match arrayFrom subdirs_next 10 (Directory_subdirs d (Some (ReChar "2"))) testHost with
      | Some (Return ds, _) => map Directory_name ds = ["sub2"]
      | _ => False
      end
  | None => False
  end.
Proof. reflexivity. Qed.

Example spec_file_missing :
  evalIO (d <- open fixtures None ;; Directory_file d "does-not-exist.txt") testHost
  = Some None.
Proof. reflexivity. Qed.

Example spec_slice_text :
  evalIO (d <- open fixtures None ;;
           f <- Directory_file d "a.txt" ;;
           match f with
           | Some f => g <- File_slice f (Some 0%Z) (Some 5%Z) None ;; File_text g
           | None => ret "null"
           end) testHost
  = Some "This ".
Proof. reflexivity. Qed.

Example spec_openFile_autoCreate :
  evalIO (f <- openFile (Path.join fixtures "does-not-exist.txt") None ;;
           t <- File_text f ;;
           File_delete f ;;;
           ret (File_name f, File_path f, File_dirname f, t)) testHost
  = Some ("does-not-exist.txt", "/pkg/src/test/fixtures/does-not-exist.txt", fixtures, EmptyString).
Proof. reflexivity. Qed.

Example spec_openFile_autoCreate_false :
  failIO (openFile (Path.join fixtures "does-not-exist.txt")
             (Some {| autoCreate := Some false |})) testHost
  = Some (JsError ("File " +++ dq +++ "/pkg/src/test/fixtures/does-not-exist.txt" +++ dq
                   +++ " does not exist")).
Proof. reflexivity. Qed.

(** The first revision of [openFile] on the same missing file. *)
Example rev1_openFile_missing :
  openFile_rev1 (Path.join fixtures "does-not-exist.txt") testHost
  = (Throw (JsError ("File " +++ dq +++ "/pkg/src/test/fixtures/does-not-exist.txt" +++ dq
                     +++ " does not exist")),
     withCall testHost (CallStat "/pkg/src/test/fixtures/does-not-exist.txt")).
Proof. reflexivity. Qed.

(** * Facts about the path algebra *)

Section PathFacts.

Import Path.

Lemma segments_not_nil (p : string) : segments p <> [].
Proof.
  destruct p as [|c r]; simpl; [discriminate|].
  destruct (Ascii.eqb c slash); [discriminate|].
  destruct (segments r); discriminate.
Qed.

Lemma segments_slash (r : string) :
  segments (String slash r) = EmptyString :: segments r.
Proof. reflexivity. Qed.

Lemma segments_app (a b : string) :
  segments (a +++ String slash b) = segments a ++ segments b.
Proof.
  induction a as [|c a IH]; simpl.
  - reflexivity.
  - destruct (Ascii.eqb c slash).
    + now rewrite IH.
    + rewrite IH. destruct (segments a) as [|x xs] eqn:E.
      * now destruct (segments_not_nil a).
      * reflexivity.
Qed.

Lemma segments_single (s : string) : noSlash s = true -> segments s = [s].
Proof.
  induction s as [|c s IH]; simpl; [reflexivity|].
  intros H. apply andb_prop in H as [Hc Hs].
  apply negb_true_iff in Hc. rewrite Hc, (IH Hs). reflexivity.
Qed.

Lemma segments_noSlash (p : string) :
  Forall (fun s => noSlash s = true) (segments p).
Proof.
  induction p as [|c r IH]; simpl.
  - repeat constructor.
  - destruct (Ascii.eqb c slash) eqn:E.
    + constructor; [reflexivity|exact IH].
    + destruct (segments r) as [|x xs].
      * repeat constructor. simpl. now rewrite E.
      * inversion IH; subst. constructor; [|assumption].
        simpl. now rewrite E.
Qed.

Lemma unsegments_cons2 (x y : string) (l : list string) :
  unsegments (x :: y :: l) = x +++ String slash (unsegments (y :: l)).
Proof. reflexivity. Qed.

Lemma segments_unsegments (l : list string) :
  l <> [] -> Forall (fun s => noSlash s = true) l ->
  segments (unsegments l) = l.
Proof.
  induction l as [|x l IH]; [congruence|].
  intros _ H. inversion H as [|? ? Hx Hl]; subst.
  destruct l as [|y l].
  - simpl. now apply segments_single.
  - rewrite unsegments_cons2, segments_app, (segments_single _ Hx).
    rewrite IH; [reflexivity|discriminate|assumption].
Qed.

Lemma unsegments_app1 (l : list string) (n : string) :
  l <> [] -> unsegments (l ++ [n]) = unsegments l +++ String slash n.
Proof.
  induction l as [|x l IH]; [congruence|]. intros _.
  destruct l as [|y l].
  - reflexivity.
  - change ((x :: y :: l) ++ [n]) with (x :: y :: (l ++ [n])).
    rewrite !unsegments_cons2.
    change (y :: l ++ [n]) with ((y :: l) ++ [n]).
    rewrite IH by discriminate.
    clear. induction x as [|c x IHx]; simpl; [reflexivity|now rewrite IHx].
Qed.



Lemma nonempty_append_r (a b : string) : nonempty b = true -> nonempty (a +++ b) = true.
Proof. destruct a; simpl; auto. Qed.

Lemma endsWithSlash_append (a b : string) :
  nonempty b = true -> endsWithSlash (a +++ b) = endsWithSlash b.
Proof.
  intros Hb. induction a as [|c a IH]; simpl; [reflexivity|].
  rewrite IH. destruct (a +++ b) eqn:E; [|reflexivity].
  destruct a; simpl in E; [subst b; discriminate|discriminate].
Qed.

Lemma endsWithSlash_noSlash (s : string) : noSlash s = true -> endsWithSlash s = false.
Proof.
  induction s as [|c s IH]; simpl; [reflexivity|].
  intros H. apply andb_prop in H as [Hc Hs]. apply negb_true_iff in Hc.
  destruct s; [exact Hc|now apply IH].
Qed.

(** *** Classification of segments *)

Lemma keptSeg_spec (s : string) :
  keptSeg s = true ->
  (s =? EmptyString) = false /\ (s =? ".") = false /\ noSlash s = true /\ nonempty s = true.
Proof.
  unfold keptSeg. intros H.
  apply andb_prop in H as [H Hn]. apply andb_prop in H as [He Hd].
  apply negb_true_iff in Hd. repeat split; try assumption.
  destruct s; [discriminate|reflexivity].
Qed.

Lemma validName_spec (s : string) :
  validName s = true -> keptSeg s = true /\ (s =? "..") = false.
Proof.
  unfold validName. intros H. apply andb_prop in H as [H1 H2].
  apply negb_true_iff in H2. now split.
Qed.

Lemma validName_noSlash (s : string) : validName s = true -> noSlash s = true.
Proof. intros H. apply validName_spec in H as [H _]. now apply keptSeg_spec in H. Qed.

Lemma validName_nonempty (s : string) : validName s = true -> nonempty s = true.
Proof. intros H. apply validName_spec in H as [H _]. now apply keptSeg_spec in H. Qed.

Lemma Forall_validName_noSlash (l : list string) :
  Forall (fun s => validName s = true) l -> Forall (fun s => noSlash s = true) l.
Proof. apply Forall_impl. exact validName_noSlash. Qed.


Lemma normStep_push (b : bool) (res : list string) (s : string) :
  validName s = true -> normStep b res s = s :: res.
Proof.
  intros H. apply validName_spec in H as [Hk Hdd].
  apply keptSeg_spec in Hk as (He & Hd & _ & _).
  unfold normStep. now rewrite He, Hd, Hdd.
Qed.

Lemma normStep_dotdot_pop (b : bool) (top : string) (res : list string) :
  (top =? "..") = false -> normStep b (top :: res) ".." = res.
Proof. intros H. unfold normStep. simpl. now rewrite H. Qed.

Lemma fold_normStep_valid (b : bool) (l acc : list string) :
  Forall (fun s => validName s = true) l ->
  fold_left (normStep b) l acc = rev l ++ acc.
Proof.
  revert acc. induction l as [|s l IH]; intros acc H; [reflexivity|].
  inversion H; subst. simpl. rewrite normStep_push by assumption.
  rewrite IH by assumption. now rewrite <- app_assoc.
Qed.

(** In absolute mode the stack only ever holds valid names. *)
Lemma normStep_abs_valid (res : list string) (s : string) :
  noSlash s = true ->
  Forall (fun s => validName s = true) res ->
  Forall (fun s => validName s = true) (normStep false res s).
Proof.
  intros Hs Hres. unfold normStep.
  destruct (s =? EmptyString) eqn:He; [assumption|].
  destruct (s =? ".") eqn:Hd; [assumption|]. simpl.
  destruct (s =? "..") eqn:Hdd.
  - destruct res as [|top rest]; [constructor|].
    inversion Hres; subst. destruct (top =? ".."); assumption.
  - constructor; [|assumption].
    unfold validName, keptSeg. rewrite Hd, Hdd, Hs.
    destruct s; [discriminate|reflexivity].
Qed.

Lemma fold_normStep_abs_valid (l acc : list string) :
  Forall (fun s => noSlash s = true) l ->
  Forall (fun s => validName s = true) acc ->
  Forall (fun s => validName s = true) (fold_left (normStep false) l acc).
Proof.
  revert acc. induction l as [|s l IH]; intros acc Hl Hacc; [assumption|].
  inversion Hl; subst. simpl. apply IH; [assumption|].
  now apply normStep_abs_valid.
Qed.



End PathFacts.

(** * Facts about path resolution *)

Section AddressFacts.

Import Path.

Local Abbreviation valid := (fun s : string => validName s = true).
Local Abbreviation kept := (fun s : string => keptSeg s = true).
Local Abbreviation slashFree := (fun s : string => noSlash s = true).

Lemma fold_normStep_snoc_empty (b : bool) (l acc : list string) :
  fold_left (normStep b) (l ++ [EmptyString]) acc = fold_left (normStep b) l acc.
Proof. now rewrite fold_left_app. Qed.

Lemma isAbsolute_nonempty (p : string) : isAbsolute p = true -> nonempty p = true.
Proof. destruct p; [discriminate|reflexivity]. Qed.

Lemma segments_snoc_slash (p : string) :
  segments (p +++ "/") = segments p ++ [EmptyString].
Proof. apply (segments_app p EmptyString). Qed.


Lemma resolveSegments_abs (cwd0 p : string) :
  isAbsolute p = true ->
  resolveSegments cwd0 p = (normalizeString (segments p ++ [EmptyString]) false, true).
Proof.
  intros Habs. unfold resolveSegments.
  rewrite Habs, (isAbsolute_nonempty _ Habs). cbv beta iota.
  f_equal. f_equal. apply (segments_app p EmptyString).
Qed.

Lemma resolveSegments_rel (h : host) (p : string) :
  isAbsolute p = false ->
  resolveSegments (process_cwd h) p =
  (normalizeString
     (segments (process_cwd h)
      ++ segments (if nonempty p then p +++ "/" else EmptyString)) false, true).
Proof.
  intros Habs. unfold resolveSegments. rewrite Habs.
  change (nonempty (process_cwd h)) with true.
  change (isAbsolute (process_cwd h)) with true. cbv beta iota.
  f_equal. f_equal.
  apply (segments_app (process_cwd h) (if nonempty p then p +++ "/" else EmptyString)).
Qed.

Lemma address_eq (h : host) (p : string) :
  address h p =
  rev (fold_left (normStep false) (segments p)
         (if isAbsolute p then [] else cwdStack h)).
Proof.
  unfold address.
  destruct (isAbsolute p) eqn:Habs.
  - rewrite (resolveSegments_abs _ _ Habs). unfold fst, normalizeString.
    now rewrite fold_normStep_snoc_empty.
  - rewrite (resolveSegments_rel _ _ Habs). unfold fst, normalizeString.
    rewrite fold_left_app. fold (cwdStack h).
    destruct p as [|c p].
    + reflexivity.
    + unfold nonempty.
      now rewrite segments_snoc_slash, fold_normStep_snoc_empty.
Qed.

Lemma cwdStack_valid (h : host) : Forall valid (cwdStack h).
Proof.
  apply fold_normStep_abs_valid; [apply segments_noSlash|constructor].
Qed.

Lemma address_valid (h : host) (p : string) : Forall valid (address h p).
Proof.
  rewrite address_eq. apply Forall_rev. apply fold_normStep_abs_valid.
  - apply segments_noSlash.
  - destruct (isAbsolute p); [constructor|apply cwdStack_valid].
Qed.

Lemma resolve_eq (h : host) (p : string) :
  resolve (process_cwd h) p = "/" +++ unsegments (address h p).
Proof.
  unfold resolve, address.
  destruct (resolveSegments (process_cwd h) p) as [segs abs] eqn:E.
  assert (abs = true) as ->; [|reflexivity].
  unfold resolveSegments in E.
  destruct (isAbsolute p); [now inversion E|].
  change (nonempty (process_cwd h)) with true in E. cbv iota in E.
  now inversion E.
Qed.

Lemma address_of_valid (h : host) (l : list string) :
  Forall valid l -> address h ("/" +++ unsegments l) = l.
Proof.
  intros H. rewrite address_eq.
  change ("/" +++ unsegments l) with (String slash (unsegments l)).
  rewrite segments_slash. simpl isAbsolute. cbv iota.
  destruct l as [|x l].
  - reflexivity.
  - rewrite segments_unsegments;
      [|discriminate|now apply Forall_validName_noSlash].
    change (fold_left (normStep false) (EmptyString :: x :: l) [])
      with (fold_left (normStep false) (x :: l) []).
    rewrite fold_normStep_valid by assumption.
    now rewrite app_nil_r, rev_involutive.
Qed.

(** A resolved path leads where the path it was resolved from led, whatever
    the working directory has become. *)
Lemma address_resolve (h h' : host) (p : string) :
  address h (resolve (process_cwd h') p) = address h' p.
Proof. rewrite resolve_eq. apply address_of_valid, address_valid. Qed.

Lemma resolve_resolve (h h' : host) (p : string) :
  resolve (process_cwd h) (resolve (process_cwd h') p) = resolve (process_cwd h') p.
Proof. rewrite (resolve_eq h), address_resolve. symmetry. apply resolve_eq. Qed.

(** *** Relative normalization followed by absolute normalization *)

Lemma normStep_rel_kept (res : list string) (s : string) :
  noSlash s = true -> Forall kept res -> Forall kept (normStep true res s).
Proof.
  intros Hs Hres. unfold normStep.
  destruct (s =? EmptyString) eqn:He; [assumption|].
  destruct (s =? ".") eqn:Hd; [assumption|]. simpl.
  destruct (s =? "..") eqn:Hdd.
  - destruct res as [|top rest]; [repeat constructor|].
    destruct (top =? "..").
    + constructor; [reflexivity|assumption].
    + now inversion Hres.
  - constructor; [|assumption].
    unfold keptSeg. rewrite Hd, Hs. destruct s; [discriminate|reflexivity].
Qed.

Lemma fold_normStep_rel_kept (l acc : list string) :
  Forall slashFree l -> Forall kept acc ->
  Forall kept (fold_left (normStep true) l acc).
Proof.
  revert acc. induction l as [|s l IH]; intros acc Hl Hacc; [assumption|].
  inversion Hl; subst. simpl. apply IH; [assumption|].
  now apply normStep_rel_kept.
Qed.

Lemma normStep_kept_not_dotdot (b : bool) (res : list string) (s : string) :
  keptSeg s = true -> (s =? "..") = false -> normStep b res s = s :: res.
Proof.
  intros Hk Hdd. apply normStep_push. unfold validName. now rewrite Hk, Hdd.
Qed.

(** One step in relative mode, replayed in absolute mode. *)
Lemma normStep_replay (S0 acc : list string) (s : string) :
  Forall kept acc ->
  fold_left (normStep false) (rev (normStep true acc s)) S0 =
  normStep false (fold_left (normStep false) (rev acc) S0) s.
Proof.
  intros Hacc. unfold normStep at 2.
  destruct (s =? EmptyString) eqn:He.
  { apply String.eqb_eq in He. subst s. reflexivity. }
  destruct (s =? ".") eqn:Hd.
  { apply String.eqb_eq in Hd. subst s. reflexivity. }
  simpl orb. cbv iota.
  destruct (s =? "..") eqn:Hdd.
  - apply String.eqb_eq in Hdd. subst s.
    destruct acc as [|top rest].
    + reflexivity.
    + destruct (top =? "..") eqn:Ht.
      * simpl rev at 1. now rewrite fold_left_app.
      * inversion Hacc as [|? ? Hk Hrest]; subst.
        simpl rev. rewrite fold_left_app. simpl fold_left at 2.
        rewrite (normStep_kept_not_dotdot false _ top Hk Ht).
        now rewrite normStep_dotdot_pop.
  - simpl rev. rewrite fold_left_app. reflexivity.
Qed.

Lemma fold_normStep_replay (l acc S0 : list string) :
  Forall slashFree l -> Forall kept acc ->
  fold_left (normStep false) (rev (fold_left (normStep true) l acc)) S0 =
  fold_left (normStep false) l (fold_left (normStep false) (rev acc) S0).
Proof.
  revert acc. induction l as [|s l IH]; intros acc Hl Hacc; [reflexivity|].
  inversion Hl; subst. simpl fold_left at 2. simpl fold_left at 3.
  rewrite IH by (try assumption; now apply normStep_rel_kept).
  now rewrite normStep_replay.
Qed.

End AddressFacts.

(** * Facts about [join], [basename] and [dirname] *)

Section JoinFacts.

Import Path.

Local Abbreviation valid := (fun s : string => validName s = true).
Local Abbreviation kept := (fun s : string => keptSeg s = true).
Local Abbreviation slashFree := (fun s : string => noSlash s = true).

Lemma isAbsolute_append (a b : string) :
  nonempty a = true -> isAbsolute (a +++ b) = isAbsolute a.
Proof. destruct a; [discriminate|reflexivity]. Qed.

Lemma isAbsolute_kept (s : string) : keptSeg s = true -> isAbsolute s = false.
Proof.
  intros H. apply keptSeg_spec in H as (_ & _ & Hs & Hn).
  destruct s as [|c s]; [reflexivity|]. simpl in *.
  apply andb_prop in Hs as [Hc _]. now apply negb_true_iff in Hc.
Qed.

Lemma isAbsolute_unsegments_kept (l : list string) :
  Forall kept l -> isAbsolute (unsegments l) = false.
Proof.
  intros H. destruct l as [|x l]; [reflexivity|].
  inversion H as [|? ? Hx Hl]; subst.
  destruct l as [|y l].
  - now apply isAbsolute_kept.
  - rewrite unsegments_cons2, isAbsolute_append.
    + now apply isAbsolute_kept.
    + now apply keptSeg_spec in Hx.
Qed.

Lemma nonempty_unsegments_snoc (l : list string) (n : string) :
  nonempty n = true -> nonempty (unsegments (l ++ [n])) = true.
Proof.
  intros Hn. destruct l as [|x l]; [exact Hn|].
  rewrite unsegments_app1 by discriminate.
  now apply nonempty_append_r.
Qed.


Lemma valid_kept (s : string) : validName s = true -> keptSeg s = true.
Proof. intros H. now apply validName_spec in H. Qed.

(** [normalize] of a path that ends with a valid name. *)
Lemma normalize_snoc (dir n : string) :
  nonempty dir = true -> validName n = true ->
  normalize (dir +++ String slash n) =
  if isAbsolute dir
  then "/" +++ unsegments (rev (fold_left (normStep false) (segments dir) []) ++ [n])
  else unsegments (rev (fold_left (normStep true) (segments dir) []) ++ [n]).
Proof.
  intros Hd Hn. unfold normalize.
  rewrite nonempty_append_r by reflexivity. cbv beta iota zeta. simpl negb at 1. cbv iota.
  rewrite isAbsolute_append by assumption.
  rewrite endsWithSlash_append by reflexivity.
  assert (endsWithSlash (String slash n) = false) as ->.
  { pose proof (endsWithSlash_noSlash _ (validName_noSlash _ Hn)) as He.
    pose proof (validName_nonempty _ Hn) as Hne.
    destruct n; [discriminate|exact He]. }
  rewrite segments_app, (segments_single n (validName_noSlash _ Hn)).
  unfold normalizeString. rewrite fold_left_app. cbn [fold_left].
  rewrite normStep_push by assumption. cbn [rev].
  rewrite nonempty_unsegments_snoc by (now apply validName_nonempty).
  cbn [negb].
  destruct (isAbsolute dir); reflexivity.
Qed.

Lemma normalize_valid (n : string) : validName n = true -> normalize n = n.
Proof.
  intros Hn. unfold normalize.
  rewrite (isAbsolute_kept _ (valid_kept _ Hn)).
  rewrite (endsWithSlash_noSlash _ (validName_noSlash _ Hn)).
  rewrite (segments_single _ (validName_noSlash _ Hn)).
  unfold normalizeString. cbn [fold_left].
  rewrite normStep_push by assumption.
  change (unsegments (rev [n])) with n.
  now rewrite (validName_nonempty _ Hn).
Qed.

Lemma join_eq (dir n : string) :
  validName n = true ->
  join dir n =
  if isAbsolute dir
  then "/" +++ unsegments (rev (fold_left (normStep false) (segments dir) []) ++ [n])
  else unsegments (rev (fold_left (normStep true) (segments dir) []) ++ [n]).
Proof.
  intros Hn. unfold join. simpl filter.
  rewrite (validName_nonempty _ Hn).
  destruct dir as [|c dir].
  - simpl. now apply normalize_valid.
  - unfold nonempty at 1. cbv iota.
    change (unsegments [String c dir; n]) with (String c dir +++ String slash n).
    now apply normalize_snoc.
Qed.

(** Joining a valid name to a directory path leads to the entry of that
    name in the directory. *)
Lemma address_join (h : host) (dir n : string) :
  validName n = true ->
  address h (join dir n) = address h dir ++ [n].
Proof.
  intros Hn. rewrite (join_eq _ _ Hn), (address_eq h dir).
  destruct (isAbsolute dir) eqn:Habs.
  - apply address_of_valid. apply Forall_app. split.
    + apply Forall_rev. apply fold_normStep_abs_valid;
        [apply segments_noSlash|constructor].
    + now constructor.
  - set (R := rev (fold_left (normStep true) (segments dir) [])).
    assert (HR : Forall kept R).
    { apply Forall_rev. apply fold_normStep_rel_kept;
        [apply segments_noSlash|constructor]. }
    assert (HRn : Forall kept (R ++ [n])).
    { apply Forall_app. split; [assumption|]. constructor; [|constructor].
      now apply valid_kept. }
    rewrite address_eq, (isAbsolute_unsegments_kept _ HRn).
    rewrite segments_unsegments.
    + rewrite fold_left_app. cbn [fold_left].
      rewrite normStep_push by assumption. cbn [rev].
      f_equal. f_equal. unfold R.
      rewrite fold_normStep_replay; [reflexivity|apply segments_noSlash|constructor].
    + destruct R; discriminate.
    + eapply Forall_impl; [|exact HRn].
      intros s Hs. now apply keptSeg_spec in Hs.
Qed.

(** *** Paths in resolved form *)

Lemma filter_nonempty_valid (l : list string) :
  Forall valid l -> filter nonempty l = l.
Proof.
  induction 1 as [|x l Hx Hl IH]; [reflexivity|].
  simpl. now rewrite (validName_nonempty _ Hx), IH.
Qed.

Lemma segments_resolved (l : list string) :
  Forall valid l ->
  filter nonempty (segments ("/" +++ unsegments l)) = l.
Proof.
  intros H. change ("/" +++ unsegments l) with (String slash (unsegments l)).
  rewrite segments_slash. simpl filter.
  destruct l as [|x l]; [reflexivity|].
  rewrite segments_unsegments; [|discriminate|now apply Forall_validName_noSlash].
  now apply filter_nonempty_valid.
Qed.

Lemma basename_resolved (l : list string) :
  Forall valid l -> basename ("/" +++ unsegments l) = last l EmptyString.
Proof. intros H. unfold basename. now rewrite segments_resolved. Qed.

Lemma beforeLast_snoc (l : list string) (n : string) :
  nonempty n = true -> beforeLast (l ++ [n]) = Some l.
Proof.
  intros Hn. induction l as [|x l IH]; simpl.
  - now rewrite Hn.
  - now rewrite IH.
Qed.

Lemma dirname_resolved (l : list string) (n : string) :
  Forall valid l -> validName n = true ->
  dirname ("/" +++ unsegments (l ++ [n])) = "/" +++ unsegments l.
Proof.
  intros Hl Hn. unfold dirname.
  change ("/" +++ unsegments (l ++ [n])) with (String slash (unsegments (l ++ [n]))).
  unfold nonempty at 1. simpl negb. cbv iota.
  rewrite segments_slash, segments_unsegments.
  - change (EmptyString :: l ++ [n]) with ((EmptyString :: l) ++ [n]).
    rewrite beforeLast_snoc by (now apply validName_nonempty).
    destruct l as [|x l]; [reflexivity|].
    inversion Hl as [|? ? Hx Hl']; subst.
    pose proof (validName_nonempty _ Hx) as Hxe.
    destruct x as [|c x]; [discriminate|].
    destruct l; reflexivity.
  - destruct l; discriminate.
  - apply Forall_validName_noSlash, Forall_app. split; [assumption|now constructor].
Qed.

Lemma join_resolved (l : list string) (n : string) :
  Forall valid l -> validName n = true ->
  join ("/" +++ unsegments l) n = "/" +++ unsegments (l ++ [n]).
Proof.
  intros Hl Hn. rewrite (join_eq _ _ Hn).
  change (isAbsolute ("/" +++ unsegments l)) with true. cbv iota.
  change ("/" +++ unsegments l) with (String slash (unsegments l)).
  rewrite segments_slash.
  change (fold_left (normStep false) (EmptyString :: segments (unsegments l)) [])
    with (fold_left (normStep false) (segments (unsegments l)) []).
  destruct l as [|x l]; [reflexivity|].
  rewrite segments_unsegments; [|discriminate|now apply Forall_validName_noSlash].
  rewrite fold_normStep_valid by assumption.
  now rewrite app_nil_r, rev_involutive.
Qed.

(** The invariant of the handles, on paths in resolved form. *)
Lemma join_dirname_basename (l : list string) :
  Forall valid l ->
  let p := "/" +++ unsegments l in
  join (dirname p) (basename p) = p.
Proof.
  intros H p. unfold p.
  destruct (rev l) as [|n rl] eqn:E.
  - apply (f_equal (@rev string)) in E. rewrite rev_involutive in E. subst l.
    reflexivity.
  - apply (f_equal (@rev string)) in E. rewrite rev_involutive in E. simpl in E.
    subst l. apply Forall_app in H as [Hl Hn]. inversion Hn; subst.
    rewrite basename_resolved by (apply Forall_app; split; assumption).
    rewrite last_last.
    rewrite dirname_resolved by assumption.
    now apply join_resolved.
Qed.

Lemma basename_resolve (h : host) (p : string) :
  basename (resolve (process_cwd h) p) = last (address h p) EmptyString.
Proof. rewrite resolve_eq. apply basename_resolved, address_valid. Qed.

Lemma resolve_invariant (h : host) (name : string) :
  let p := resolve (process_cwd h) name in
  join (dirname p) (basename p) = p.
Proof.
  simpl. rewrite resolve_eq. apply join_dirname_basename, address_valid.
Qed.

End JoinFacts.

(** * Facts about the directory tree *)

Section TreeFacts.

Lemma assoc_setChild_same (k : string) (v : node) (l : list (string * node)) :
  assoc k (setChild k v l) = Some v.
Proof.
  induction l as [|[k' v'] l IH]; simpl.
  - now rewrite String.eqb_refl.
  - destruct (k' =? k) eqn:E; simpl.
    + now rewrite String.eqb_refl.
    + now rewrite E.
Qed.

Lemma assoc_setChild_other (k k0 : string) (v : node) (l : list (string * node)) :
  k0 <> k -> assoc k0 (setChild k v l) = assoc k0 l.
Proof.
  intros Hne. induction l as [|[k' v'] l IH]; simpl.
  - destruct (String.eqb_spec k k0); [congruence|reflexivity].
  - destruct (String.eqb_spec k' k) as [->|Hk]; simpl.
    + destruct (String.eqb_spec k k0); [congruence|reflexivity].
    + destruct (k' =? k0); [reflexivity|exact IH].
Qed.

Lemma assoc_removeChild_same (k : string) (l : list (string * node)) :
  assoc k (removeChild k l) = None.
Proof.
  induction l as [|[k' v'] l IH]; simpl; [reflexivity|].
  destruct (k' =? k) eqn:E; simpl; [exact IH|now rewrite E].
Qed.

Lemma assoc_removeChild_other (k k0 : string) (l : list (string * node)) :
  k0 <> k -> assoc k0 (removeChild k l) = assoc k0 l.
Proof.
  intros Hne. induction l as [|[k' v'] l IH]; simpl; [reflexivity|].
  destruct (String.eqb_spec k' k) as [->|Hk]; simpl.
  - destruct (String.eqb_spec k k0); [congruence|exact IH].
  - destruct (k' =? k0); [reflexivity|exact IH].
Qed.

Lemma lookup_app (a b : list string) (n : node) :
  lookup (a ++ b) n =
  match lookup a n with
  | Ok m => lookup b m
  | Err e => Err e
  end.
Proof.
  revert n. induction a as [|s a IH]; intros n; simpl; [reflexivity|].
  destruct n; try reflexivity.
  destruct (assoc s children); [apply IH|reflexivity].
Qed.

Lemma lookup_snoc (par : list string) (s : string) (n : node)
  (ch : list (string * node)) (t : Z) :
  lookup par n = Ok (Dir ch t) ->
  lookup (par ++ [s]) n =
  match assoc s ch with Some c => Ok c | None => Err ENOENT end.
Proof. intros H. rewrite lookup_app, H. simpl. now destruct (assoc s ch). Qed.

Lemma alter_cons (s x : string) (rest : list string)
  (f : option node -> res (option node)) (ch : list (string * node)) (t : Z) :
  alter (s :: x :: rest) f (Dir ch t) =
  match assoc s ch with
  | Some c =>
      match alter (x :: rest) f c with
      | Ok c' => Ok (Dir (setChild s c' ch) t)
      | Err e => Err e
      end
  | None => Err ENOENT
  end.
Proof. reflexivity. Qed.

(** What [alter] does at [par ++ [s]] when [par] leads to a directory. *)
Lemma alter_snoc (par : list string) (s : string)
  (f : option node -> res (option node))
  (ch0 : list (string * node)) (t0 : Z)
  (ch : list (string * node)) (t : Z) :
  lookup par (Dir ch0 t0) = Ok (Dir ch t) ->
  match f (assoc s ch) with
  | Ok (Some v) =>
      exists ch', alter (par ++ [s]) f (Dir ch0 t0) = Ok (Dir ch' t0)
                  /\ lookup par (Dir ch' t0) = Ok (Dir (setChild s v ch) t)
  | Ok None =>
      exists ch', alter (par ++ [s]) f (Dir ch0 t0) = Ok (Dir ch' t0)
                  /\ lookup par (Dir ch' t0) = Ok (Dir (removeChild s ch) t)
  | Err e => alter (par ++ [s]) f (Dir ch0 t0) = Err e
  end.
Proof.
  revert ch0 t0. induction par as [|x par IH]; intros ch0 t0 H.
  - simpl in H. inversion H; subst. simpl.
    destruct (f (assoc s ch)) as [[v|]|e]; eauto.
  - simpl in H.
    destruct (assoc x ch0) as [c|] eqn:Ec; [|discriminate].
    assert (Hc : exists ch1 t1, c = Dir ch1 t1).
    { destruct par; simpl in H.
      - inversion H. eauto.
      - destruct c; try discriminate. eauto. }
    destruct Hc as (ch1 & t1 & ->).
    specialize (IH ch1 t1 H).
    assert (Hcons : exists y rest, par ++ [s] = y :: rest).
    { destruct par; simpl; eauto. }
    destruct Hcons as (y & rest & Hyr).
    change ((x :: par) ++ [s]) with (x :: (par ++ [s])).
    rewrite Hyr, alter_cons, Ec, <- Hyr.
    destruct (f (assoc s ch)) as [[v|]|e].
    + destruct IH as (c' & Ha & Hl). rewrite Ha.
      eexists. split; [reflexivity|].
      simpl. now rewrite assoc_setChild_same.
    + destruct IH as (c' & Ha & Hl). rewrite Ha.
      eexists. split; [reflexivity|].
      simpl. now rewrite assoc_setChild_same.
    + now rewrite IH.
Qed.

(** [alter] fails where the way to the parent fails. *)
Lemma alter_parent_err (par : list string) (s : string)
  (f : option node -> res (option node)) (n : node) (e : errno) :
  lookup par n = Err e -> alter (par ++ [s]) f n = Err e.
Proof.
  revert n. induction par as [|x par IH]; intros n H; [discriminate|].
  simpl in H.
  assert (Hcons : exists y rest, par ++ [s] = y :: rest).
  { destruct par; simpl; eauto. }
  destruct Hcons as (y & rest & Hyr).
  change ((x :: par) ++ [s]) with (x :: (par ++ [s])). rewrite Hyr.
  destruct n as [|ch0 t0| |]; try (simpl; congruence).
  rewrite alter_cons, <- Hyr.
  destruct (assoc x ch0) as [c|]; [|congruence].
  now rewrite (IH c H).
Qed.

Lemma alter_parent_notdir (par : list string) (s : string)
  (f : option node -> res (option node)) (n m : node) :
  lookup par n = Ok m -> isDir m = false -> alter (par ++ [s]) f n = Err ENOTDIR.
Proof.
  revert n. induction par as [|x par IH]; intros n H Hm.
  - simpl in H. inversion H; subst m. destruct n; try reflexivity. discriminate.
  - simpl in H.
    assert (Hcons : exists y rest, par ++ [s] = y :: rest).
    { destruct par; simpl; eauto. }
    destruct Hcons as (y & rest & Hyr).
    change ((x :: par) ++ [s]) with (x :: (par ++ [s])). rewrite Hyr.
    destruct n as [|ch0 t0| |]; try discriminate.
    rewrite alter_cons, <- Hyr.
    destruct (assoc x ch0) as [c|]; [|discriminate].
    now rewrite (IH c H Hm).
Qed.

(** A chain of names is empty or ends with a name. *)
Lemma list_snoc_cases {A : Type} (l : list A) :
  l = [] \/ exists init x, l = init ++ [x].
Proof.
  destruct (rev l) as [|x r] eqn:E.
  - left. apply (f_equal (@rev A)) in E. now rewrite rev_involutive in E.
  - right. exists (rev r), x.
    apply (f_equal (@rev A)) in E. now rewrite rev_involutive in E.
Qed.

(** [unlink], compared with what [lookup] finds. *)
Lemma alter_unlink (q : list string) (ch0 : list (string * node)) (t0 : Z) :
  match lookup q (Dir ch0 t0) with
  | Err e => alter q unlinkNode (Dir ch0 t0) = Err e
  | Ok m =>
      if isDir m then alter q unlinkNode (Dir ch0 t0) = Err EISDIR
      else exists ch', alter q unlinkNode (Dir ch0 t0) = Ok (Dir ch' t0)
                       /\ lookup q (Dir ch' t0) = Err ENOENT
  end.
Proof.
  destruct (list_snoc_cases q) as [->|(par & s & ->)].
  - reflexivity.
  - rewrite lookup_app.
    destruct (lookup par (Dir ch0 t0)) as [m|e] eqn:Hp.
    + destruct m as [bs t|ch t|t|t];
        try (simpl; apply (alter_parent_notdir par s _ _ _ Hp); reflexivity).
      pose proof (alter_snoc par s unlinkNode _ _ _ _ Hp) as Ha.
      simpl. destruct (assoc s ch) as [c|] eqn:Es.
      * assert (Hgone : forall ch', lookup par (Dir ch' t0) = Ok (Dir (removeChild s ch) t) ->
                                    lookup (par ++ [s]) (Dir ch' t0) = Err ENOENT).
        { intros ch' Hl. rewrite lookup_app, Hl. simpl.
          now rewrite assoc_removeChild_same. }
        destruct c as [bs' t'|ch1 t1|t'|t']; simpl in Ha |- *;
          try exact Ha;
          destruct Ha as (ch' & Ha & Hl); exists ch'; split; auto.
      * simpl in Ha. exact Ha.
    + now apply alter_parent_err.
Qed.

End TreeFacts.

(** * Facts about the host calls *)

Section HostFacts.

Lemma entryAt_withCall (h : host) (c : call) (p : string) :
  entryAt (withCall h c) p = entryAt h p.
Proof. reflexivity. Qed.

Lemma statSync_eq (h : host) (p : string) :
  statSync p h =
  (match entryAt h p with
   | Ok m => Return (statsOf m)
   | Err e => Throw (ErrnoException e "stat" p)
   end, withCall h (CallStat p)).
Proof.
  unfold statSync, entryAt. now destruct (lookup (address h p) (root h)).
Qed.

Lemma readdirSync_eq (h : host) (p : string) :
  readdirSync p h =
  (match entryAt h p with
   | Ok m => liftRes "scandir" p (readdirOf m)
   | Err e => Throw (ErrnoException e "scandir" p)
   end, withCall h (CallReaddir p)).
Proof.
  unfold readdirSync, entryAt. now destruct (lookup (address h p) (root h)).
Qed.


Lemma isDir_Dir (m : node) :
  isDir m = true -> exists ch t, m = Dir ch t.
Proof. destruct m; try discriminate. eauto. Qed.

Lemma isFile_RegFile (m : node) :
  kind_eqb (kindOf m) KFile = true -> exists bs t, m = RegFile bs t.
Proof. destruct m; try discriminate. eauto. Qed.

(** The entry of a valid name in a directory. *)
Lemma entryAt_child (h : host) (dir n : string) (ch : list (string * node)) (t : Z) :
  validName n = true ->
  entryAt h dir = Ok (Dir ch t) ->
  entryAt h (Path.join dir n) =
  match assoc n ch with Some c => Ok c | None => Err ENOENT end.
Proof.
  intros Hn Hd. unfold entryAt in *. rewrite (address_join _ _ _ Hn).
  now apply lookup_snoc with (t := t).
Qed.

Lemma unlink_eq (h : host) (p : string) :
  match entryAt h p with
  | Err e => unlink p h = (Throw (ErrnoException e "unlink" p), h)
  | Ok m =>
      if isDir m then unlink p h = (Throw (ErrnoException EISDIR "unlink" p), h)
      else exists h', unlink p h = (Return tt, h')
                      /\ entryAt h' p = Err ENOENT
                      /\ cwd h' = cwd h /\ calls h' = calls h
                      /\ clock h' = clock h /\ mime h' = mime h
  end.
Proof.
  unfold entryAt, unlink, commit, root.
  pose proof (alter_unlink (address h p) (tree h) 0) as H.
  destruct (lookup (address h p) (Dir (tree h) 0)) as [m|e].
  - destruct (isDir m).
    + now rewrite H.
    + destruct H as (ch' & Ha & Hl). rewrite Ha. eexists. split; [reflexivity|].
      repeat split. exact Hl.
  - now rewrite H.
Qed.

End HostFacts.


(** * Facts about creation: [mkdir -p] and writing *)

Section CreateFacts.

Lemma mkdirp_fresh (q : list string) (now : Z) :
  exists ch', mkdirp q now (Dir [] now) = Ok (Dir ch' now)
              /\ lookup q (Dir ch' now) = Ok (Dir [] now).
Proof.
  induction q as [|s q IH].
  - exists []. split; reflexivity.
  - destruct IH as (ch' & Hm & Hl). simpl. rewrite Hm.
    eexists. split; [reflexivity|]. simpl. now rewrite String.eqb_refl.
Qed.

(** Where nothing stood, [mkdir -p] leaves an empty directory. *)
Lemma mkdirp_enoent (q : list string) (now : Z)
  (ch : list (string * node)) (t : Z) :
  lookup q (Dir ch t) = Err ENOENT ->
  exists ch', mkdirp q now (Dir ch t) = Ok (Dir ch' t)
              /\ lookup q (Dir ch' t) = Ok (Dir [] now).
Proof.
  revert ch t. induction q as [|s q IH]; intros ch t H; [discriminate|].
  simpl in H. simpl mkdirp.
  destruct (assoc s ch) as [c|] eqn:Es.
  - assert (Hc : exists ch1 t1, c = Dir ch1 t1).
    { destruct q; simpl in H; [discriminate|].
      destruct c; try discriminate. eauto. }
    destruct Hc as (ch1 & t1 & ->).
    destruct (IH _ _ H) as (ch' & Hm & Hl). rewrite Hm.
    eexists. split; [reflexivity|]. simpl. now rewrite assoc_setChild_same.
  - destruct (mkdirp_fresh q now) as (ch' & Hm & Hl). rewrite Hm.
    eexists. split; [reflexivity|]. simpl. now rewrite assoc_setChild_same.
Qed.

(** Whenever [mkdir -p] succeeds, a directory stands at the end. *)
Lemma mkdirp_dir (q : list string) (now : Z) (n n' : node) :
  mkdirp q now n = Ok n' ->
  (exists ch t, lookup q n' = Ok (Dir ch t))
  /\ (forall ch0 t0, n = Dir ch0 t0 -> exists ch', n' = Dir ch' t0).
Proof.
  revert n n'. induction q as [|s q IH]; intros n n' H.
  - destruct n; try discriminate. simpl in H. inversion H; subst.
    split; [simpl; eauto|]. intros ch0 t0 E. inversion E; subst. eauto.
  - destruct n as [|ch t| |]; try discriminate. simpl in H.
    destruct (mkdirp q now
                match assoc s ch with Some c => c | None => Dir [] now end)
      as [c'|e] eqn:Hm; [|discriminate].
    inversion H; subst. destruct (IH _ _ Hm) as [(ch1 & t1 & Hl) _].
    split.
    + exists ch1, t1. simpl. now rewrite assoc_setChild_same.
    + intros ch0 t0 E. inversion E; subst. eauto.
Qed.

(** Whenever writing succeeds, the file stands at the end with the data. *)
Lemma alter_putFile (q : list string) (data : list Byte.byte) (now : Z)
  (ch0 : list (string * node)) (t0 : Z) (n' : node) :
  alter q (putFile data now) (Dir ch0 t0) = Ok n' ->
  exists ch', n' = Dir ch' t0 /\ lookup q (Dir ch' t0) = Ok (RegFile data now).
Proof.
  destruct (list_snoc_cases q) as [->|(par & s & ->)]; [discriminate|].
  intros H.
  destruct (lookup par (Dir ch0 t0)) as [m|e] eqn:Hp.
  - destruct m as [bs t|ch t|t|t];
      try (rewrite (alter_parent_notdir par s _ _ _ Hp eq_refl) in H; discriminate).
    pose proof (alter_snoc par s (putFile data now) _ _ _ _ Hp) as Ha.
    destruct (assoc s ch) as [[bs' t'|ch1 t1|t'|t']|] eqn:Es; simpl in Ha;
      try (rewrite Ha in H; discriminate);
      destruct Ha as (ch' & Ha & Hl); rewrite Ha in H; inversion H; subst;
      exists ch'; (split; [reflexivity|]);
      rewrite lookup_app, Hl; simpl; now rewrite assoc_setChild_same.
  - rewrite (alter_parent_err par s _ _ _ Hp) in H. discriminate.
Qed.

(** Writing succeeds where the parent is a directory without an entry of
    that name. *)
Lemma alter_putFile_new (par : list string) (s : string)
  (data : list Byte.byte) (now : Z)
  (ch0 : list (string * node)) (t0 : Z) (ch : list (string * node)) (t : Z) :
  lookup par (Dir ch0 t0) = Ok (Dir ch t) ->
  assoc s ch = None ->
  exists ch', alter (par ++ [s]) (putFile data now) (Dir ch0 t0) = Ok (Dir ch' t0).
Proof.
  intros Hp Hs.
  pose proof (alter_snoc par s (putFile data now) _ _ _ _ Hp) as Ha.
  rewrite Hs in Ha. simpl in Ha. destruct Ha as (ch' & Ha & _). eauto.
Qed.

(** Writing over a regular file succeeds. *)
Lemma alter_putFile_over (q : list string) (data bs : list Byte.byte) (now t : Z)
  (ch0 : list (string * node)) (t0 : Z) :
  lookup q (Dir ch0 t0) = Ok (RegFile bs t) ->
  exists ch', alter q (putFile data now) (Dir ch0 t0) = Ok (Dir ch' t0).
Proof.
  destruct (list_snoc_cases q) as [->|(par & s & ->)]; [discriminate|].
  rewrite lookup_app.
  destruct (lookup par (Dir ch0 t0)) as [m|e] eqn:Hp; [|discriminate].
  destruct m as [bs1 t1|ch t1|t1|t1]; try discriminate.
  simpl. destruct (assoc s ch) as [c|] eqn:Es; [|discriminate].
  intros H. inversion H; subst c.
  pose proof (alter_snoc par s (putFile data now) _ _ _ _ Hp) as Ha.
  rewrite Es in Ha. simpl in Ha. destruct Ha as (ch' & Ha & _). eauto.
Qed.

Lemma address_cwd (h h' : host) (p : string) :
  cwd h' = cwd h -> address h' p = address h p.
Proof. intros H. unfold address, process_cwd. now rewrite H. Qed.

Lemma sameProcess_refl (h : host) : sameProcess h h.
Proof. repeat split. Qed.

Lemma sameProcess_withCall (h : host) (c : call) : sameProcess h (withCall h c).
Proof. repeat split. Qed.

Lemma sameProcess_trans (h1 h2 h3 : host) :
  sameProcess h1 h2 -> sameProcess h2 h3 -> sameProcess h1 h3.
Proof. intros (a & b & c) (a' & b' & c'). repeat split; congruence. Qed.


Lemma mkdirSync_enoent (h : host) (p : string) :
  entryAt h p = Err ENOENT ->
  exists h', mkdirSync p h = (Return tt, h')
             /\ entryAt h' p = Ok (Dir [] (clock h))
             /\ sameProcess h h'
             /\ calls h' = calls h ++ [CallMkdir p].
Proof.
  unfold entryAt, mkdirSync. intros H. unfold root in H.
  destruct (mkdirp_enoent _ (clock h) _ _ H) as (ch' & Hm & Hl).
  unfold root. rewrite Hm. eexists. split; [reflexivity|]. repeat split. exact Hl.
Qed.

Lemma mkdirSync_returns (h h' : host) (p : string) :
  mkdirSync p h = (Return tt, h') ->
  (exists ch t, entryAt h' p = Ok (Dir ch t)) /\ sameProcess h h'.
Proof.
  unfold mkdirSync, commit, root.
  destruct (mkdirp (address h p) (clock h) (Dir (tree h) 0)) as [r|e] eqn:Hm;
    [|discriminate].
  destruct (mkdirp_dir _ _ _ _ Hm) as [(ch & t & Hl) Hshell].
  destruct (Hshell _ _ eq_refl) as (ch' & ->).
  intros H. inversion H; subst h'. split; [|repeat split].
  exists ch, t. exact Hl.
Qed.

Lemma writeFileSync_returns (h h' : host) (p : string) (data : list Byte.byte) :
  writeFileSync p data h = (Return tt, h') ->
  entryAt h' p = Ok (RegFile data (clock h)) /\ sameProcess h h'.
Proof.
  unfold writeFileSync, commit, root.
  destruct (alter (address h p) (putFile data (clock h)) (Dir (tree h) 0))
    as [r|e] eqn:Ha; [|discriminate].
  destruct (alter_putFile _ _ _ _ _ _ Ha) as (ch' & -> & Hl).
  intros H. inversion H; subst h'. split; [exact Hl|repeat split].
Qed.

End CreateFacts.

(** * Facts about byte windows *)

Section WindowFacts.

Local Open Scope Z_scope.

Lemma clampIndex_inside (len i : Z) : 0 <= i <= len -> clampIndex len i = i.
Proof.
  intros H. unfold clampIndex.
  destruct (Z.ltb_spec i 0); lia.
Qed.

(** Reading a window of a file that is not empty is one read request, for
    the bounds of the window. *)
Lemma readContent_lazy (n : Z) (fn : string) (o l : Z) (h : host) :
  0 <= o -> 0 < l ->
  readContent (LazyFileContent n fn) o l h =
  (match entryAt h fn with
   | Ok (RegFile bs _) => Return (bytesBetween o (o + l) bs)
   | Ok (Dir _ _) => Throw (ErrnoException EISDIR "open" fn)
   | Ok _ => Throw (ErrnoException ENXIO "open" fn)
   | Err e => Throw (ErrnoException e "open" fn)
   end, withCall h (CallRead fn (Some o) (Some (o + l - 1)))).
Proof.
  intros Ho Hl. unfold entryAt. cbn [readContent]. unfold readFile, createReadStream.
  assert (Hok : rangeOk (Some o) (Some (o + l - 1)) = true).
  { unfold rangeOk. rewrite !andb_true_iff, !Z.leb_le. lia. }
  rewrite Hok. cbn [negb].
  destruct (lookup (address h fn) (root h)) as [[bs t|ch t|t|t]|e]; try reflexivity.
  cbn [liftRes]. now replace (o + l - 1 + 1) with (o + l) by lia.
Qed.

Lemma readContent_parts (parts : list blobPart) (o l : Z) (h : host) :
  readContent (BlobParts parts) o l h = readParts parts o (o + l) 0 h.
Proof. reflexivity. Qed.

Lemma readParts_cons (p : blobPart) (parts : list blobPart)
  (start stop pos : Z) (h : host) :
  readParts (p :: parts) start stop pos h =
  match readPart p (start - pos) (stop - pos) h with
  | (Return first, h1) =>
      match readParts parts start stop (pos + partSize p) h1 with
      | (Return others, h2) => (Return (first ++ others), h2)
      | (Throw e, h2) => (Throw e, h2)
      end
  | (Throw e, h1) => (Throw e, h1)
  end.
Proof. reflexivity. Qed.

(** Reading only adds calls to the log of the host. *)
Lemma readContent_host :
  forall (c : content) (o l : Z) (h : host),
    exists cs, snd (readContent c o l h) = withCalls h cs.
Proof.
  fix IH 1. intros c o l h. destruct c as [n fn|parts].
  - cbn [readContent]. unfold readFile, createReadStream.
    destruct (negb (rangeOk (Some o) (Some (o + l - 1)))).
    + exists []. reflexivity.
    + eexists [_]. reflexivity.
  - rewrite readContent_parts. generalize 0 as pos. revert h.
    generalize (o + l) as stop.
    induction parts as [|p parts IHparts]; intros stop h pos.
    + exists []. reflexivity.
    + rewrite readParts_cons.
      assert (Hp : exists cs, snd (readPart p (o - pos) (stop - pos) h) = withCalls h cs).
      { destruct p as [bs|c' o' l'].
        - exists []. reflexivity.
        - cbn [readPart]. apply IH. }
      destruct Hp as (cs1 & Hcs1).
      destruct (readPart p (o - pos) (stop - pos) h) as [[first|e] h1]; simpl in Hcs1.
      * destruct (IHparts stop h1 (pos + partSize p)) as (cs2 & Hcs2).
        destruct (readParts parts o stop (pos + partSize p) h1) as [[others|e] h2];
          simpl in Hcs2 |- *; exists (cs1 ++ cs2); rewrite Hcs2, Hcs1;
          unfold withCalls; now rewrite fold_left_app.
      * exists cs1. exact Hcs1.
Qed.

Lemma withCalls_same (h : host) (cs : list call) :
  tree (withCalls h cs) = tree h /\ sameProcess h (withCalls h cs).
Proof.
  revert h. induction cs as [|c cs IH]; intros h.
  - split; [reflexivity|apply sameProcess_refl].
  - destruct (IH (withCall h c)) as [Ht Hs]. split; [exact Ht|].
    eapply sameProcess_trans; [apply sameProcess_withCall|exact Hs].
Qed.

Lemma readContent_same (c : content) (o l : Z) (h h' : host) (r : outcome (list Byte.byte)) :
  readContent c o l h = (r, h') ->
  tree h' = tree h /\ sameProcess h h'.
Proof.
  intros H. destruct (readContent_host c o l h) as (cs & Hcs).
  rewrite H in Hcs. simpl in Hcs. subst h'. apply withCalls_same.
Qed.

(** Reading the bytes of a handle leaves the tree and the process as they
    are. *)
Lemma File_bytes_same (f : File) (h h' : host) (r : outcome (list Byte.byte)) :
  File_bytes f h = (r, h') ->
  tree h' = tree h /\ sameProcess h h'.
Proof.
  unfold File_bytes, LazyFile_bytes.
  destruct (lf_length (f_super f) <=? 0).
  - intros H. inversion H; subst. split; [reflexivity|apply sameProcess_refl].
  - apply readContent_same.
Qed.

(** The window of [f.slice(x, y)] for bounds inside the window of [f]: the
    same source, the offset moved by [x], the length [y - x]. *)
Lemma File_slice_window (f : File) (x y : Z) (ct : option string) (h1 : host) :
  0 <= x <= y -> y <= File_size f ->
  exists g, File_slice f (Some x) (Some y) ct h1 = (Return g, h1)
            /\ lf_content (f_super g) = lf_content (f_super f)
            /\ lf_offset (f_super g) = lf_offset (f_super f) + x
            /\ File_size g = y - x
            /\ File_path g = Path.resolve (process_cwd h1) (File_path f).
Proof.
  intros Hxy Hy. unfold File_size, LazyFile_size in Hy.
  eexists. split; [reflexivity|].
  unfold File_size, LazyFile_size, File_path, LazyFile_slice.
  cbn [f_super f_path LazyFile_new lf_length lf_offset lf_content
       windowSource windowOffset windowLength orElse].
  rewrite !clampIndex_inside by lia.
  repeat split. lia.
Qed.

(** The bytes of a handle on a window of a file. *)
Lemma File_bytes_window (f : File) (n : Z) (fn : string) (h : host) :
  lf_content (f_super f) = LazyFileContent n fn ->
  0 <= lf_offset (f_super f) ->
  File_bytes f h =
  if 0 <? File_size f
  then (match entryAt h fn with
        | Ok (RegFile bs _) =>
            Return (bytesBetween (lf_offset (f_super f))
                      (lf_offset (f_super f) + File_size f) bs)
        | Ok (Dir _ _) => Throw (ErrnoException EISDIR "open" fn)
        | Ok _ => Throw (ErrnoException ENXIO "open" fn)
        | Err e => Throw (ErrnoException e "open" fn)
        end,
        withCall h (CallRead fn (Some (lf_offset (f_super f)))
                      (Some (lf_offset (f_super f) + File_size f - 1))))
  else (Return [], h).
Proof.
  intros Hc Ho. unfold File_bytes, LazyFile_bytes, File_size, LazyFile_size.
  rewrite Hc.
  destruct (Z.leb_spec (lf_length (f_super f)) 0) as [Hl|Hl];
    destruct (Z.ltb_spec 0 (lf_length (f_super f))) as [Hl'|Hl']; try lia.
  - reflexivity.
  - now apply readContent_lazy.
Qed.

End WindowFacts.

(** * Facts about the generators *)

Lemma filesLoop_suspend (g : Generator) (st : genState) (l : list Dirent) (h1 : host) :
  filesLoop (suspend g st) l h1 = filesLoop g l h1.
Proof.
  induction l as [|e l IH]; [reflexivity|].
  cbn [filesLoop]. rewrite IH. reflexivity.
Qed.

Lemma subdirsLoop_suspend (g : Generator) (st : genState) (l : list Dirent) (h1 : host) :
  subdirsLoop (suspend g st) l h1 = subdirsLoop g l h1.
Proof.
  induction l as [|e l IH]; [reflexivity|].
  cbn [subdirsLoop]. rewrite IH. reflexivity.
Qed.

(** One [next()] inside the loop of [files], on an entry that passes the
    test: the entry is looked up again, and the failure of that [stat] is
    the failure of [next()]. *)
Lemma files_next_match (g : Generator) (e : Dirent) (rest : list Dirent) (h1 : host) :
  fileMatch (gen_filter g) e = true ->
  let filename := Path.join (Directory_path (gen_this g)) (de_name e) in
  let h2 := withCall h1 (CallStat filename) in
  files_next (suspend g (GenLoop (e :: rest))) h1 =
  match entryAt h1 filename with
  | Ok m =>
      match createFile filename (statsOf m) h2 with
      | (Return f, h3) => (Return (Yield f), suspend g (GenLoop rest), h3)
      | (Throw x, h3) => (Throw x, suspend g GenDone, h3)
      end
  | Err x => (Throw (ErrnoException x "stat" filename), suspend g GenDone, h2)
  end.
Proof.
  intros Hm filename h2. unfold files_next. cbn [gen_state suspend].
  rewrite filesLoop_suspend. cbn [filesLoop].
  unfold fileMatch in Hm. rewrite Hm. fold filename.
  unfold bind. rewrite (statSync_eq h1 filename). fold h2.
  destruct (entryAt h1 filename) as [m|x]; reflexivity.
Qed.

Lemma files_next_skip (g : Generator) (e : Dirent) (rest : list Dirent) (h1 : host) :
  fileMatch (gen_filter g) e = false ->
  files_next (suspend g (GenLoop (e :: rest))) h1
  = files_next (suspend g (GenLoop rest)) h1.
Proof.
  intros Hm. unfold files_next. cbn [gen_state suspend].
  rewrite !filesLoop_suspend. cbn [filesLoop].
  unfold fileMatch in Hm. now rewrite Hm.
Qed.

Lemma subdirs_next_match (g : Generator) (e : Dirent) (rest : list Dirent) (h1 : host) :
  dirMatch (gen_filter g) e = true ->
  subdirs_next (suspend g (GenLoop (e :: rest))) h1 =
  (Return (Yield {| d_path := Path.resolve (process_cwd h1)
                                (Path.join (Directory_path (gen_this g)) (de_name e)) |}),
   suspend g (GenLoop rest), h1).
Proof.
  intros Hm. unfold subdirs_next. cbn [gen_state suspend].
  rewrite subdirsLoop_suspend. cbn [subdirsLoop].
  unfold dirMatch in Hm. now rewrite Hm.
Qed.

Lemma subdirs_next_skip (g : Generator) (e : Dirent) (rest : list Dirent) (h1 : host) :
  dirMatch (gen_filter g) e = false ->
  subdirs_next (suspend g (GenLoop (e :: rest))) h1
  = subdirs_next (suspend g (GenLoop rest)) h1.
Proof.
  intros Hm. unfold subdirs_next. cbn [gen_state suspend].
  rewrite !subdirsLoop_suspend. cbn [subdirsLoop].
  unfold dirMatch in Hm. now rewrite Hm.
Qed.

Lemma arrayFrom_step {A : Type}
  (next : Generator -> host -> outcome (IteratorResult A) * Generator * host)
  (fuel : nat) (g g' : Generator) (h1 : host) :
  next g h1 = next g' h1 ->
  arrayFrom next (S fuel) g h1 = arrayFrom next (S fuel) g' h1.
Proof. intros H. cbn [arrayFrom]. now rewrite H. Qed.

Section GeneratorFacts.

Variable d : Directory.
Variable r : RegExp.
Variable h : host.
Variable ch : list (string * node).
Variable t : Z.
Hypothesis Hdir : entryAt h (Directory_path d) = Ok (Dir ch t).

Let path := Directory_path d.
Let statOf (e : Dirent) : call := CallStat (Path.join path (de_name e)).

Let listed (rest : list Dirent) : Prop :=
  Forall (fun e => validName (de_name e) = true /\ assoc (de_name e) ch <> None) rest.

Lemma assoc_In (k : string) (v : node) (l : list (string * node)) :
  In (k, v) l -> assoc k l <> None.
Proof.
  induction l as [|[k' v'] l IH]; [contradiction|].
  intros [E|Hin]; simpl.
  - inversion E; subst. now rewrite String.eqb_refl.
  - destruct (k' =? k); [discriminate|now apply IH].
Qed.

Lemma listed_entries :
  Forall (fun kv => validName (fst kv) = true) ch -> listed (map direntOf ch).
Proof.
  intros Hv. unfold listed. apply Forall_forall. intros e Hin.
  apply in_map_iff in Hin as ([k v] & <- & Hin). simpl.
  split.
  - rewrite Forall_forall in Hv. exact (Hv _ Hin).
  - now apply assoc_In with (v := v).
Qed.

Lemma entries_eq :
  Directory_entries d h = (Return (map direntOf ch), withCall h (CallReaddir path)).
Proof.
  unfold Directory_entries. rewrite readdirSync_eq. fold path.
  unfold path. now rewrite Hdir.
Qed.

Lemma entryAt_same (h1 : host) (p : string) :
  tree h1 = tree h -> cwd h1 = cwd h -> entryAt h1 p = entryAt h p.
Proof.
  intros Ht Hc. unfold entryAt, root. now rewrite Ht, (address_cwd h h1 p Hc).
Qed.

Lemma stat_listed (h1 : host) (e : Dirent) :
  tree h1 = tree h -> cwd h1 = cwd h ->
  validName (de_name e) = true -> assoc (de_name e) ch <> None ->
  exists c, entryAt h1 (Path.join path (de_name e)) = Ok c.
Proof.
  intros Ht Hc Hv Ha.
  assert (Hd1 : entryAt h1 path = Ok (Dir ch t)).
  { unfold path. now rewrite (entryAt_same h1 _ Ht Hc). }
  rewrite (entryAt_child h1 path _ ch t Hv Hd1).
  destruct (assoc (de_name e) ch) as [c|]; [eauto|congruence].
Qed.

Lemma basename_join (h1 : host) (n : string) :
  validName n = true ->
  Path.basename (Path.resolve (process_cwd h1) (Path.join path n)) = n.
Proof.
  intros Hn. rewrite basename_resolve, (address_join _ _ _ Hn). apply last_last.
Qed.

Lemma withCalls_cons (h1 : host) (c : call) (cs : list call) :
  withCalls (withCall h1 c) cs = withCalls h1 (c :: cs).
Proof. reflexivity. Qed.



(** The run of [files] from the inside of its loop. *)
Lemma files_run (g : Generator) (rest : list Dirent) :
  gen_this g = d -> gen_filter g = r ->
  forall (fuel : nat) (h1 : host),
    tree h1 = tree h -> cwd h1 = cwd h ->
    listed rest -> (List.length rest < fuel)%nat ->
    exists fs,
      arrayFrom files_next fuel (suspend g (GenLoop rest)) h1
      = Some (Return fs, withCalls h1 (map statOf (filter (fileMatch r) rest)))
      /\ map File_name fs = map de_name (filter (fileMatch r) rest).
Proof.
  intros Hthis Hfilter. induction rest as [|e rest IH]; intros fuel h1 Ht Hc Hl Hfuel.
  - destruct fuel as [|fuel]; [inversion Hfuel|]. exists []. split; reflexivity.
  - destruct fuel as [|fuel]; [inversion Hfuel|].
    pose proof (Forall_inv Hl) as [Hv Ha]. pose proof (Forall_inv_tail Hl) as Hl'.
    simpl List.length in Hfuel.
    destruct (fileMatch r e) eqn:Hm.
    + destruct (stat_listed h1 e Ht Hc Hv Ha) as (c & Hstat).
      destruct (IH fuel (withCall h1 (statOf e))) as (fs & Hrun & Hnames);
        [exact Ht|exact Hc|exact Hl'|lia|].
      eexists. split.
      * cbn [arrayFrom]. rewrite files_next_match by (now rewrite Hfilter).
        rewrite Hthis. fold path. rewrite Hstat. cbn [createFile File_new].
        unfold statOf in Hrun. rewrite Hrun.
        cbn [filter]. rewrite Hm. reflexivity.
      * cbn [filter]. rewrite Hm. cbn [map]. rewrite Hnames. f_equal.
        unfold File_name. cbn [f_super LazyFile_new lf_name].
        now apply basename_join.
    + destruct (IH (S fuel) h1) as (fs & Hrun & Hnames);
        [exact Ht|exact Hc|exact Hl'|lia|].
      exists fs. split.
      * cbn [filter]. rewrite Hm. rewrite <- Hrun.
        apply arrayFrom_step, files_next_skip. now rewrite Hfilter.
      * cbn [filter]. now rewrite Hm.
Qed.

(** The run of [subdirs] from the inside of its loop. *)
Lemma subdirs_run (g : Generator) (rest : list Dirent) :
  gen_this g = d -> gen_filter g = r ->
  forall (fuel : nat) (h1 : host),
    listed rest -> (List.length rest < fuel)%nat ->
    exists ds,
      arrayFrom subdirs_next fuel (suspend g (GenLoop rest)) h1 = Some (Return ds, h1)
      /\ map Directory_name ds = map de_name (filter (dirMatch r) rest).
Proof.
  intros Hthis Hfilter. induction rest as [|e rest IH]; intros fuel h1 Hl Hfuel.
  - destruct fuel as [|fuel]; [inversion Hfuel|]. exists []. split; reflexivity.
  - destruct fuel as [|fuel]; [inversion Hfuel|].
    pose proof (Forall_inv Hl) as [Hv Ha]. pose proof (Forall_inv_tail Hl) as Hl'.
    simpl List.length in Hfuel.
    destruct (dirMatch r e) eqn:Hm.
    + destruct (IH fuel h1) as (ds & Hrun & Hnames); [exact Hl'|lia|].
      eexists. split.
      * cbn [arrayFrom]. rewrite subdirs_next_match by (now rewrite Hfilter).
        rewrite Hrun. reflexivity.
      * cbn [filter]. rewrite Hm. cbn [map]. rewrite Hnames. f_equal.
        unfold Directory_name, Directory_path. cbn [d_path].
        rewrite Hthis. now apply basename_join.
    + destruct (IH (S fuel) h1) as (ds & Hrun & Hnames); [exact Hl'|lia|].
      exists ds. split.
      * rewrite <- Hrun. apply arrayFrom_step, subdirs_next_skip. now rewrite Hfilter.
      * cbn [filter]. now rewrite Hm.
Qed.

End GeneratorFacts.

Lemma test_matchAll (s : string) : test matchAll s = true.
Proof. destruct s; reflexivity. Qed.

(** * Facts about [writeFile] and [Directory.write] *)

Lemma createWriteStream_new (h : host) (dir n : string)
  (ch : list (string * node)) (t : Z) :
  validName n = true ->
  entryAt h dir = Ok (Dir ch t) ->
  assoc n ch = None ->
  exists h', createWriteStream (Path.join dir n) h = (Return tt, h')
             /\ entryAt h' (Path.join dir n) = Ok (RegFile [] (clock h))
             /\ sameProcess h h' /\ calls h' = calls h.
Proof.
  intros Hn Hd Ha. unfold entryAt in Hd. unfold root in Hd.
  destruct (alter_putFile_new _ n [] (clock h) _ _ _ _ Hd Ha) as (ch' & Halt).
  destruct (alter_putFile _ _ _ _ _ _ Halt) as (ch2 & E & Hl).
  inversion E; subst ch2.
  exists (withRoot h (Dir ch' 0)). split.
  - unfold createWriteStream, commit, root.
    now rewrite (address_join _ _ _ Hn), Halt.
  - split; [|repeat split].
    unfold entryAt. rewrite (address_join _ _ _ Hn).
    change (address (withRoot h (Dir ch' 0)) dir) with (address h dir).
    exact Hl.
Qed.

Lemma writeChunks_over (h : host) (p : string) (data bs : list Byte.byte) (t : Z) :
  entryAt h p = Ok (RegFile bs t) ->
  exists h', writeChunks p data h = (Return tt, h')
             /\ entryAt h' p = Ok (RegFile data (clock h))
             /\ sameProcess h h' /\ calls h' = calls h.
Proof.
  intros Hp. unfold entryAt in Hp. unfold root in Hp.
  destruct (alter_putFile_over _ data _ (clock h) _ _ _ Hp) as (ch' & Halt).
  destruct (alter_putFile _ _ _ _ _ _ Halt) as (ch2 & E & Hl).
  inversion E; subst ch2.
  exists (withRoot h (Dir ch' 0)). split.
  - unfold writeChunks, commit, root. now rewrite Halt.
  - split; [exact Hl|repeat split].
Qed.

Lemma process_cwd_same (h h' : host) : sameProcess h h' -> process_cwd h' = process_cwd h.
Proof. intros (Hc & _). unfold process_cwd. now rewrite Hc. Qed.

(** Writing a file into a directory that has no entry of its name. *)
Lemma Directory_write_new (h1 : host) (d : Directory) (f : File)
  (ch : list (string * node)) (t : Z) :
  validName (File_name f) = true ->
  entryAt h1 (Directory_path d) = Ok (Dir ch t) ->
  assoc (File_name f) ch = None ->
  let dest := Path.join (Directory_path d) (File_name f) in
  exists h2,
    createWriteStream dest h1 = (Return tt, h2)
    /\ sameProcess h1 h2
    /\ (forall bs h2', File_bytes f h2 = (Return bs, h2') ->
          exists f' h3,
            Directory_write d f h1 = (Return (Some f'), h3)
            /\ entryAt h3 dest = Ok (RegFile bs (clock h1))
            /\ File_size f' = Z.of_nat (List.length bs)
            /\ File_path f' = Path.resolve (process_cwd h1) dest)
    /\ (forall e h2', File_bytes f h2 = (Throw e, h2') ->
          Directory_write d f h1 = (Throw e, h2')).
Proof.
  intros Hn Hd Ha dest.
  destruct (createWriteStream_new h1 _ _ ch t Hn Hd Ha) as (h2 & Hc & He & Hsp & _).
  fold dest in Hc, He.
  exists h2. split; [exact Hc|]. split; [exact Hsp|]. split.
  - intros bs h2' Hb.
    destruct (File_bytes_same _ _ _ _ Hb) as [Ht' Hsp'].
    assert (He' : entryAt h2' dest = Ok (RegFile [] (clock h1))).
    { rewrite (entryAt_same h2 h2' dest Ht'); [exact He|apply Hsp']. }
    destruct (writeChunks_over h2' dest bs [] _ He') as (h3 & Hw & He3 & Hsp3 & _).
    assert (Hclock : clock h2' = clock h1).
    { destruct Hsp as (_ & c1 & _). destruct Hsp' as (_ & c2 & _). congruence. }
    rewrite Hclock in He3.
    unfold Directory_write, writeFile, bind, tryCatch, ret. fold dest.
    rewrite Hc, Hb, Hw.
    unfold Directory_file, tryCatch, bind. fold dest.
    rewrite (statSync_eq h3 dest), He3.
    eexists. eexists. split; [reflexivity|].
    split; [now rewrite entryAt_withCall|]. split; [reflexivity|].
    unfold File_path. cbn [f_path].
    f_equal.
    change (process_cwd (withCall h3 (CallStat dest))) with (process_cwd h3).
    rewrite (process_cwd_same h2' h3 Hsp3), (process_cwd_same h2 h2' Hsp').
    now apply process_cwd_same.
  - intros e h2' Hb.
    unfold Directory_write, writeFile, bind, tryCatch, ret. fold dest.
    now rewrite Hc, Hb.
Qed.

(** Opening a missing directory with the default options creates it. *)
Lemma open_missing (h : host) (p : string) :
  entryAt h p = Err ENOENT ->
  exists d h1,
    open p None h = (Return d, h1)
    /\ entryAt h1 p = Ok (Dir [] (clock h))
    /\ Directory_path d = Path.resolve (process_cwd h) p
    /\ sameProcess h h1
    /\ calls h1 = calls h ++ [CallStat p; CallMkdir p; CallStat p].
Proof.
  intros Hp.
  destruct (mkdirSync_enoent (withCall h (CallStat p)) p)
    as (h' & Hm & He & Hsp & Hcalls); [exact Hp|].
  unfold open, Directory_open, bind, tryCatch.
  rewrite (statSync_eq h p), Hp. cbn [isNoEntityError negb autoCreateOf].
  rewrite Hm, (statSync_eq h' p), He.
  eexists. eexists. split; [reflexivity|].
  split; [rewrite entryAt_withCall; exact He|].
  split.
  - unfold Directory_path. cbn [d_path]. f_equal.
    change (process_cwd (withCall h' (CallStat p))) with (process_cwd h').
    now rewrite (process_cwd_same _ _ Hsp).
  - split.
    + destruct Hsp as (a & b & c). repeat split; assumption.
    + cbn [calls withCall]. rewrite Hcalls. cbn [calls withCall].
      now rewrite <- !app_assoc.
Qed.

(** * Facts about missing entries and whole runs *)

(** The parent of a missing entry, in terms of chains of names. *)
Lemma missing_entry_parent (h : host) (p : string) (ch : list (string * node)) (t : Z) :
  entryAt h p = Err ENOENT ->
  entryAt h (Path.dirname (Path.resolve (process_cwd h) p)) = Ok (Dir ch t) ->
  exists par s, address h p = par ++ [s]
                /\ validName s = true
                /\ lookup par (root h) = Ok (Dir ch t)
                /\ assoc s ch = None.
Proof.
  unfold entryAt. intros Hp Hd.
  pose proof (address_valid h p) as Hv.
  rewrite resolve_eq in Hd.
  destruct (list_snoc_cases (address h p)) as [E|(par & s & E)].
  - rewrite E in Hp. discriminate.
  - rewrite E in Hv, Hd, Hp. apply Forall_app in Hv as [Hpar Hs].
    inversion Hs; subst.
    rewrite dirname_resolved, address_of_valid in Hd by assumption.
    exists par, s. repeat split; try assumption.
    rewrite (lookup_snoc _ _ _ _ _ Hd) in Hp.
    now destruct (assoc s ch).
Qed.


Lemma arrayFrom_start {A : Type}
  (next : Generator -> host -> outcome (IteratorResult A) * Generator * host)
  (fuel : nat) (g g' : Generator) (h1 h2 : host) :
  next g h1 = next g' h2 ->
  arrayFrom next (S fuel) g h1 = arrayFrom next (S fuel) g' h2.
Proof. intros H. cbn [arrayFrom]. now rewrite H. Qed.

(** The whole run of [Array.from(dir.files(pattern))] in a directory whose
    entries are [ch]. *)
Lemma files_from_start (h : host) (d : Directory) (pattern : option RegExp)
  (ch : list (string * node)) (t : Z) (fuel : nat) :
  entryAt h (Directory_path d) = Ok (Dir ch t) ->
  Forall (fun kv => validName (fst kv) = true) ch ->
  (List.length ch < fuel)%nat ->
  let r := orElse pattern matchAll in
  let matching := filter (fileMatch r) (map direntOf ch) in
  exists fs,
    arrayFrom files_next fuel (Directory_files d pattern) h
    = Some (Return fs,
            withCalls h (CallReaddir (Directory_path d)
                         :: map (fun e => CallStat (Path.join (Directory_path d) (de_name e)))
                              matching))
    /\ map File_name fs = map de_name matching.
Proof.
  intros Hd Hv Hfuel r matching.
  destruct fuel as [|fuel]; [inversion Hfuel|].
  destruct (files_run d r h ch t Hd (Directory_files d pattern) (map direntOf ch)
              eq_refl eq_refl (S fuel) (withCall h (CallReaddir (Directory_path d))))
    as (fs & Hrun & Hnames);
    [reflexivity|reflexivity|now apply listed_entries|now rewrite length_map|].
  exists fs. split; [|exact Hnames].
  unfold matching. rewrite <- withCalls_cons, <- Hrun.
  apply arrayFrom_start.
  unfold files_next at 1. cbn [Directory_files gen_state gen_this].
  rewrite (entries_eq d h ch t Hd).
  unfold files_next. cbn [gen_state suspend]. now rewrite filesLoop_suspend.
Qed.

Lemma subdirs_from_start (h : host) (d : Directory) (pattern : option RegExp)
  (ch : list (string * node)) (t : Z) (fuel : nat) :
  entryAt h (Directory_path d) = Ok (Dir ch t) ->
  Forall (fun kv => validName (fst kv) = true) ch ->
  (List.length ch < fuel)%nat ->
  let r := orElse pattern matchAll in
  exists ds,
    arrayFrom subdirs_next fuel (Directory_subdirs d pattern) h
    = Some (Return ds, withCall h (CallReaddir (Directory_path d)))
    /\ map Directory_name ds = map de_name (filter (dirMatch r) (map direntOf ch)).
Proof.
  intros Hd Hv Hfuel r.
  destruct fuel as [|fuel]; [inversion Hfuel|].
  destruct (subdirs_run d r ch (Directory_subdirs d pattern) (map direntOf ch)
              eq_refl eq_refl (S fuel) (withCall h (CallReaddir (Directory_path d))))
    as (ds & Hrun & Hnames);
    [now apply listed_entries|now rewrite length_map|].
  exists ds. split; [|exact Hnames].
  rewrite <- Hrun.
  apply arrayFrom_start.
  unfold subdirs_next at 1. cbn [Directory_subdirs gen_state gen_this].
  rewrite (entries_eq d h ch t Hd).
  unfold subdirs_next. cbn [gen_state suspend]. now rewrite subdirsLoop_suspend.
Qed.

Lemma resolve_of_valid (h : host) (l : list string) :
  Forall (fun s => validName s = true) l ->
  Path.resolve (process_cwd h) ("/" +++ Path.unsegments l) = "/" +++ Path.unsegments l.
Proof. intros H. now rewrite resolve_eq, address_of_valid. Qed.

(** The names that pass a test of the loops, as entries of the directory. *)
Lemma filtered_names (test_ : Dirent -> bool) (ch : list (string * node)) (n : string) :
  In n (map de_name (filter test_ (map direntOf ch)))
  <-> exists c, In (n, c) ch /\ test_ (direntOf (n, c)) = true.
Proof.
  rewrite in_map_iff. split.
  - intros (e & <- & He). apply filter_In in He as [Hin Ht].
    apply in_map_iff in Hin as ([k c] & <- & Hin). exists c. split; assumption.
  - intros (c & Hin & Ht). exists (direntOf (n, c)). split; [reflexivity|].
    apply filter_In. split; [|exact Ht].
    apply in_map_iff. exists (n, c). split; [reflexivity|exact Hin].
Qed.

(** * Facts about successive changes of one entry *)

Section UndoFacts.

Lemma removeChild_absent (k : string) (l : list (string * node)) :
  assoc k l = None -> removeChild k l = l.
Proof.
  induction l as [|[k' v'] l IH]; simpl; [reflexivity|].
  destruct (k' =? k); [discriminate|]. intros H. now rewrite IH.
Qed.

Lemma removeChild_setChild (k : string) (v : node) (l : list (string * node)) :
  removeChild k (setChild k v l) = removeChild k l.
Proof.
  induction l as [|[k' v'] l IH]; simpl.
  - now rewrite String.eqb_refl.
  - destruct (k' =? k) eqn:E; simpl.
    + now rewrite String.eqb_refl.
    + now rewrite E, IH.
Qed.

Lemma setChild_setChild (k : string) (v w : node) (l : list (string * node)) :
  setChild k w (setChild k v l) = setChild k w l.
Proof.
  induction l as [|[k' v'] l IH]; simpl.
  - now rewrite String.eqb_refl.
  - destruct (k' =? k) eqn:E; simpl.
    + now rewrite String.eqb_refl.
    + now rewrite E, IH.
Qed.

Lemma setChild_present (k : string) (c : node) (l : list (string * node)) :
  assoc k l = Some c -> setChild k c l = l.
Proof.
  induction l as [|[k' v'] l IH]; simpl; [discriminate|].
  destruct (String.eqb_spec k' k) as [->|Hne].
  - intros H. now inversion H.
  - intros H. now rewrite IH.
Qed.

Lemma In_removeChild (k k0 : string) (l : list (string * node)) :
  In k0 (map fst (removeChild k l)) <-> In k0 (map fst l) /\ k0 <> k.
Proof.
  induction l as [|[k' v'] l IH]; simpl; [tauto|].
  destruct (String.eqb_spec k' k) as [->|Hne]; simpl; rewrite IH.
  - split; [tauto|]. intros [[<-|H] Hk]; [congruence|tauto].
  - split; [|tauto]. intros [<-|[H Hk]]; [|tauto]. split; [now left|congruence].
Qed.

Lemma snoc_cons {A : Type} (l : list A) (x : A) : exists y rest, l ++ [x] = y :: rest.
Proof. destruct l; simpl; eauto. Qed.

(** A directory on the way to a deeper entry. *)
Lemma lookup_cons_dir (c : node) (par : list string) (ch : list (string * node)) (t : Z) :
  lookup par c = Ok (Dir ch t) -> exists ch1 t1, c = Dir ch1 t1.
Proof.
  destruct par; simpl; intros H.
  - inversion H. eauto.
  - destruct c; try discriminate. eauto.
Qed.

(** An entry that was set: a later change there acts on the tree as it was
    before, with the entry that was set in the place of the one found. *)
Lemma alter_twice (par : list string) (s : string)
  (f : option node -> res (option node)) (v : node)
  (ch0 : list (string * node)) (t0 : Z) (ch : list (string * node)) (t : Z) :
  lookup par (Dir ch0 t0) = Ok (Dir ch t) ->
  f (assoc s ch) = Ok (Some v) ->
  exists ch1,
    alter (par ++ [s]) f (Dir ch0 t0) = Ok (Dir ch1 t0)
    /\ lookup (par ++ [s]) (Dir ch1 t0) = Ok v
    /\ forall g, alter (par ++ [s]) g (Dir ch1 t0)
                 = alter (par ++ [s]) (fun _ => g (Some v)) (Dir ch0 t0).
Proof.
  revert ch0 t0. induction par as [|x par IH]; intros ch0 t0 Hl Hf.
  - simpl in Hl. inversion Hl; subst ch0 t0. simpl. rewrite Hf.
    eexists. split; [reflexivity|]. split.
    + now rewrite assoc_setChild_same.
    + intros g. rewrite assoc_setChild_same.
      destruct (g (Some v)) as [[w|]|e]; [|  |reflexivity].
      * now rewrite setChild_setChild.
      * now rewrite removeChild_setChild.
  - simpl in Hl. destruct (assoc x ch0) as [c|] eqn:Ec; [|discriminate].
    destruct (lookup_cons_dir _ _ _ _ Hl) as (c1 & t1 & ->).
    destruct (IH _ _ Hl Hf) as (ch1 & Ha & Hv & Hg).
    destruct (snoc_cons par s) as (y & rest & Hyr).
    change ((x :: par) ++ [s]) with (x :: (par ++ [s])).
    rewrite Hyr, alter_cons, Ec, <- Hyr, Ha.
    eexists. split; [reflexivity|]. split.
    + cbn [lookup]. now rewrite assoc_setChild_same.
    + intros g. rewrite Hyr, !alter_cons, <- Hyr, assoc_setChild_same, Ec, Hg.
      destruct (alter (par ++ [s]) (fun _ => g (Some v)) (Dir c1 t1)); [|reflexivity].
      now rewrite setChild_setChild.
Qed.

(** Removing what is not there, where the parent is a directory, leaves the
    tree as it is. *)
Lemma alter_remove_absent (par : list string) (s : string)
  (ch0 : list (string * node)) (t0 : Z) (ch : list (string * node)) (t : Z) :
  lookup par (Dir ch0 t0) = Ok (Dir ch t) ->
  assoc s ch = None ->
  alter (par ++ [s]) (fun _ => Ok None) (Dir ch0 t0) = Ok (Dir ch0 t0).
Proof.
  revert ch0 t0. induction par as [|x par IH]; intros ch0 t0 Hl Hs.
  - simpl in Hl. inversion Hl; subst ch0 t0. simpl. now rewrite removeChild_absent.
  - simpl in Hl. destruct (assoc x ch0) as [c|] eqn:Ec; [|discriminate].
    destruct (lookup_cons_dir _ _ _ _ Hl) as (c1 & t1 & ->).
    destruct (snoc_cons par s) as (y & rest & Hyr).
    change ((x :: par) ++ [s]) with (x :: (par ++ [s])).
    rewrite Hyr, alter_cons, Ec, <- Hyr, (IH _ _ Hl Hs).
    now rewrite setChild_present.
Qed.

(** [mkdir -p] where only the last name is missing is the creation of one
    entry. *)
Lemma mkdirp_last (par : list string) (s : string) (now : Z)
  (ch0 : list (string * node)) (t0 : Z) (ch : list (string * node)) (t : Z) :
  lookup par (Dir ch0 t0) = Ok (Dir ch t) ->
  assoc s ch = None ->
  mkdirp (par ++ [s]) now (Dir ch0 t0)
  = alter (par ++ [s]) (fun _ => Ok (Some (Dir [] now))) (Dir ch0 t0).
Proof.
  revert ch0 t0. induction par as [|x par IH]; intros ch0 t0 Hl Hs.
  - simpl in Hl. inversion Hl; subst ch0 t0. simpl. now rewrite Hs.
  - simpl in Hl. destruct (assoc x ch0) as [c|] eqn:Ec; [|discriminate].
    destruct (lookup_cons_dir _ _ _ _ Hl) as (c1 & t1 & ->).
    destruct (snoc_cons par s) as (y & rest & Hyr).
    change ((x :: par) ++ [s]) with (x :: (par ++ [s])).
    rewrite Hyr, alter_cons, <- Hyr. cbn [mkdirp]. rewrite Ec, (IH _ _ Hl Hs).
    reflexivity.
Qed.

(** What a committed change leaves around the new tree. *)
Lemma commit_ok (syscall p : string) (ch' : list (string * node)) (t' : Z) (h : host) :
  commit syscall p (Ok (Dir ch' t')) h
  = (Return tt, {| tree := ch'; cwd := cwd h; clock := clock h; mime := mime h;
                   calls := calls h |}).
Proof. reflexivity. Qed.

Lemma untimed_root (h h' : host) : tree h' = tree h -> untimed (root h') = untimed (root h).
Proof. intros H. unfold root. now rewrite H. Qed.

End UndoFacts.

(** * Creation by [open] / [openFile], step by step *)

Section CreateUndo.

Variable h : host.
Variable p : string.
Variables (par : list string) (s : string).
Variables (ch : list (string * node)) (t : Z).
Hypothesis Haddr : address h p = par ++ [s].
Hypothesis Hpar : lookup par (root h) = Ok (Dir ch t).
Hypothesis Hnew : assoc s ch = None.

Let missing : entryAt h p = Err ENOENT.
Proof. unfold entryAt. rewrite Haddr, (lookup_snoc _ _ _ _ _ Hpar). now rewrite Hnew. Qed.

(** The host after a change of the tree and some calls. *)
Let after (ch1 : list (string * node)) (cs : list call) : host :=
  {| tree := ch1; cwd := cwd h; clock := clock h; mime := mime h;
     calls := calls h ++ cs |}.

Lemma entryAt_after (ch1 : list (string * node)) (cs : list call) (q : string) :
  entryAt (after ch1 cs) q = lookup (address h q) (Dir ch1 0).
Proof. reflexivity. Qed.

(** [openFile(p)] where only [p] itself is missing, and [delete()] on the
    handle it returns. *)
Lemma openFile_new_delete :
  exists f ch1,
    openFile p None h
    = (Return f, after ch1 [CallStat p; CallWriteFile p; CallStat p])
    /\ File_path f = Path.resolve (process_cwd h) p
    /\ lookup (par ++ [s]) (Dir ch1 0) = Ok (RegFile [] (clock h))
    /\ File_delete f (after ch1 [CallStat p; CallWriteFile p; CallStat p])
       = (Return tt, after (tree h) [CallStat p; CallWriteFile p; CallStat p]).
Proof.
  destruct (alter_twice par s (putFile [] (clock h)) (RegFile [] (clock h))
              (tree h) 0 ch t Hpar) as (ch1 & Ha & Hv & Hg).
  { now rewrite Hnew. }
  assert (Hw : writeFileSync p [] (withCall h (CallStat p))
               = (Return tt, after ch1 [CallStat p; CallWriteFile p])).
  { unfold writeFileSync.
    change (address (withCall h (CallStat p)) p) with (address h p).
    change (root (withCall h (CallStat p))) with (Dir (tree h) 0).
    change (clock (withCall h (CallStat p))) with (clock h).
    rewrite Haddr, Ha. unfold commit, withRoot, withCall, after. cbn.
    now rewrite <- app_assoc. }
  assert (Hs : statSync p (after ch1 [CallStat p; CallWriteFile p])
               = (Return (statsOf (RegFile [] (clock h))),
                  after ch1 [CallStat p; CallWriteFile p; CallStat p])).
  { rewrite statSync_eq, entryAt_after, Haddr, Hv.
    unfold withCall, after. cbn. now rewrite <- app_assoc. }
  eexists. exists ch1. split; [|split; [|split; [exact Hv|]]].
  - unfold openFile, File_open, bind, tryCatch.
    rewrite (statSync_eq h p), missing. cbn [isNoEntityError negb autoCreateOf].
    rewrite Hw, Hs. reflexivity.
  - reflexivity.
  - unfold File_delete, deleteFile, unlink, File_path. cbn [f_path].
    rewrite address_resolve.
    change (address (after ch1 [CallStat p; CallWriteFile p; CallStat p]) p)
      with (address h p).
    change (root (after ch1 [CallStat p; CallWriteFile p; CallStat p])) with (Dir ch1 0).
    rewrite Haddr, Hg. cbn [unlinkNode].
    rewrite (alter_remove_absent par s (tree h) 0 ch t Hpar Hnew).
    reflexivity.
Qed.

(** [open(p)] where only [p] itself is missing, and [delete()] on the
    handle it returns. *)
Lemma open_new_delete :
  exists d ch1,
    open p None h = (Return d, after ch1 [CallStat p; CallMkdir p; CallStat p])
    /\ Directory_path d = Path.resolve (process_cwd h) p
    /\ lookup (par ++ [s]) (Dir ch1 0) = Ok (Dir [] (clock h))
    /\ Directory_delete d (after ch1 [CallStat p; CallMkdir p; CallStat p])
       = (Return tt, after (tree h) [CallStat p; CallMkdir p; CallStat p]).
Proof.
  destruct (alter_twice par s (fun _ => Ok (Some (Dir [] (clock h)))) (Dir [] (clock h))
              (tree h) 0 ch t Hpar eq_refl) as (ch1 & Ha & Hv & Hg).
  assert (Hm : mkdirSync p (withCall h (CallStat p))
               = (Return tt, after ch1 [CallStat p; CallMkdir p])).
  { unfold mkdirSync.
    change (address (withCall h (CallStat p)) p) with (address h p).
    change (root (withCall h (CallStat p))) with (Dir (tree h) 0).
    change (clock (withCall h (CallStat p))) with (clock h).
    rewrite Haddr, (mkdirp_last par s (clock h) (tree h) 0 ch t Hpar Hnew), Ha.
    unfold commit, withRoot, withCall, after. cbn.
    now rewrite <- app_assoc. }
  assert (Hs : statSync p (after ch1 [CallStat p; CallMkdir p])
               = (Return (statsOf (Dir [] (clock h))),
                  after ch1 [CallStat p; CallMkdir p; CallStat p])).
  { rewrite statSync_eq, entryAt_after, Haddr, Hv.
    unfold withCall, after. cbn. now rewrite <- app_assoc. }
  eexists. exists ch1. split; [|split; [|split; [exact Hv|]]].
  - unfold open, Directory_open, bind, tryCatch.
    rewrite (statSync_eq h p), missing. cbn [isNoEntityError negb autoCreateOf].
    rewrite Hm, Hs. reflexivity.
  - reflexivity.
  - unfold Directory_delete, rm, Directory_path. cbn [d_path].
    rewrite address_resolve.
    change (address (after ch1 [CallStat p; CallMkdir p; CallStat p]) p)
      with (address h p).
    change (root (after ch1 [CallStat p; CallMkdir p; CallStat p])) with (Dir ch1 0).
    rewrite Haddr, Hg. cbn [rmNode].
    rewrite (alter_remove_absent par s (tree h) 0 ch t Hpar Hnew).
    reflexivity.
Qed.

End CreateUndo.

(** * Facts about [open] and [openFile] *)

Section OpenFacts.

Variable h : host.
Variable p : string.

(** [open] goes on from what its first [stat] finds. *)
Lemma open_eq (o : option OpenOptions) :
  open p o h =
  match entryAt h p with
  | Ok m =>
      if isDir m
      then (Return {| d_path := Path.resolve (process_cwd h) p |}, withCall h (CallStat p))
      else (Throw (JsError ("Path " +++ dq +++ p +++ dq +++ " is not a directory")),
            withCall h (CallStat p))
  | Err ENOENT =>
      if autoCreateOf o
      then (mkdirSync p ;;;
            stats <- statSync p ;;
            if negb (st_isDirectory stats)
            then throw (JsError ("Path " +++ dq +++ p +++ dq +++ " is not a directory"))
            else Directory_new p) (withCall h (CallStat p))
      else (Throw (JsError ("Directory " +++ dq +++ p +++ dq +++ " does not exist")),
            withCall h (CallStat p))
  | Err e => (Throw (ErrnoException e "stat" p), withCall h (CallStat p))
  end.
Proof.
  unfold open, Directory_open, bind, tryCatch. rewrite (statSync_eq h p).
  destruct (entryAt h p) as [m|e].
  - unfold st_isDirectory, isDir. change (st_kind (statsOf m)) with (kindOf m).
    now destruct (kind_eqb (kindOf m) KDirectory).
  - destruct e; cbn [isNoEntityError negb]; try reflexivity.
    destruct (autoCreateOf o); [|reflexivity].
    now destruct (mkdirSync p (withCall h (CallStat p))) as [[[]|e'] h2].
Qed.

(** [openFile] goes on from what its first [stat] finds. *)
Lemma openFile_eq (o : option OpenOptions) :
  openFile p o h =
  match entryAt h p with
  | Ok m =>
      if kind_eqb (kindOf m) KFile
      then createFile p (statsOf m) (withCall h (CallStat p))
      else (Throw (JsError ("Path " +++ dq +++ p +++ dq +++ " is not a file")),
            withCall h (CallStat p))
  | Err ENOENT =>
      if autoCreateOf o
      then (writeFileSync p [] ;;;
            stats <- statSync p ;;
            if negb (st_isFile stats)
            then throw (JsError ("Path " +++ dq +++ p +++ dq +++ " is not a file"))
            else createFile p stats) (withCall h (CallStat p))
      else (Throw (JsError ("File " +++ dq +++ p +++ dq +++ " does not exist")),
            withCall h (CallStat p))
  | Err e => (Throw (ErrnoException e "stat" p), withCall h (CallStat p))
  end.
Proof.
  unfold openFile, File_open, bind, tryCatch. rewrite (statSync_eq h p).
  destruct (entryAt h p) as [m|e].
  - unfold st_isFile. change (st_kind (statsOf m)) with (kindOf m).
    now destruct (kind_eqb (kindOf m) KFile).
  - destruct e; cbn [isNoEntityError negb]; try reflexivity.
    destruct (autoCreateOf o); [|reflexivity].
    now destruct (writeFileSync p [] (withCall h (CallStat p))) as [[[]|e'] h2].
Qed.

(** Whenever [open] returns, a directory stands at [p] in the host it
    leaves, and the handle is the one for [p]. *)
Lemma open_returns (o : option OpenOptions) (d : Directory) (h1 : host) :
  open p o h = (Return d, h1) ->
  (exists ch t, entryAt h1 p = Ok (Dir ch t))
  /\ sameProcess h h1
  /\ d = {| d_path := Path.resolve (process_cwd h) p |}.
Proof.
  rewrite open_eq. destruct (entryAt h p) as [m|e] eqn:Hm.
  - destruct (isDir m) eqn:Hk; [|discriminate].
    intros H. inversion H; subst. split; [|split; [repeat split|reflexivity]].
    rewrite entryAt_withCall, Hm.
    destruct (isDir_Dir m Hk) as (ch & t & ->). eauto.
  - destruct e; try discriminate.
    destruct (autoCreateOf o); [|discriminate].
    unfold bind.
    destruct (mkdirSync p (withCall h (CallStat p))) as [[[]|e'] h2] eqn:Hmk;
      [|discriminate].
    destruct (mkdirSync_returns _ _ _ Hmk) as [(ch & t & Hd) Hsp].
    rewrite (statSync_eq h2 p), Hd. cbn.
    intros H. inversion H; subst. split; [|split].
    + rewrite entryAt_withCall. eauto.
    + destruct Hsp as (a & b & c). repeat split; assumption.
    + f_equal. change (process_cwd (withCall h2 (CallStat p))) with (process_cwd h2).
      rewrite (process_cwd_same _ _ Hsp). reflexivity.
Qed.

(** Whenever [openFile] returns, a regular file stands at [p] in the host it
    leaves, and the handle is the one [createFile] makes for it. *)
Lemma openFile_returns (o : option OpenOptions) (f : File) (h1 : host) :
  openFile p o h = (Return f, h1) ->
  exists bs t, entryAt h1 p = Ok (RegFile bs t)
               /\ sameProcess h h1
               /\ createFile p (statsOf (RegFile bs t)) h1 = (Return f, h1).
Proof.
  rewrite openFile_eq. destruct (entryAt h p) as [m|e] eqn:Hm.
  - destruct (kind_eqb (kindOf m) KFile) eqn:Hk; [|discriminate].
    destruct (isFile_RegFile m Hk) as (bs & t & ->).
    intros H. inversion H; subst. exists bs, t.
    split; [now rewrite entryAt_withCall|]. split; [repeat split|reflexivity].
  - destruct e; try discriminate.
    destruct (autoCreateOf o); [|discriminate].
    unfold bind.
    destruct (writeFileSync p [] (withCall h (CallStat p))) as [[[]|e'] h2] eqn:Hw;
      [|discriminate].
    destruct (writeFileSync_returns _ _ _ _ Hw) as [Hd Hsp].
    rewrite (statSync_eq h2 p), Hd. cbn [negb st_isFile statsOf st_kind kindOf kind_eqb].
    intros H. inversion H; subst. exists [], (clock (withCall h (CallStat p))).
    split; [now rewrite entryAt_withCall|]. split.
    + destruct Hsp as (a & b & c). repeat split; assumption.
    + reflexivity.
Qed.

End OpenFacts.

(** * Facts about the entries of one directory *)

Section ChildFacts.

Variable h : host.
Variable dir : string.
Variables (ch : list (string * node)) (t : Z).
Hypothesis Hdir : entryAt h dir = Ok (Dir ch t).

(** The host with another tree and some more calls. *)
Let after (ch1 : list (string * node)) (cs : list call) : host :=
  {| tree := ch1; cwd := cwd h; clock := clock h; mime := mime h;
     calls := calls h ++ cs |}.

(** The removal of the entry [n] of the directory. *)
Lemma alter_child_none (n : string) (f : option node -> res (option node)) :
  f (assoc n ch) = Ok None ->
  exists ch', alter (address h dir ++ [n]) f (root h) = Ok (Dir ch' 0)
              /\ lookup (address h dir) (Dir ch' 0) = Ok (Dir (removeChild n ch) t).
Proof.
  intros Hf. pose proof (alter_snoc (address h dir) n f (tree h) 0 ch t Hdir) as Ha.
  now rewrite Hf in Ha.
Qed.

(** The entries of the directory once [n] is removed. *)
Lemma removed_child (ch' : list (string * node)) (cs : list call) (n : string) :
  lookup (address h dir) (Dir ch' 0) = Ok (Dir (removeChild n ch) t) ->
  validName n = true ->
  entryAt (after ch' cs) (Path.join dir n) = Err ENOENT
  /\ (forall n', validName n' = true -> n' <> n ->
        entryAt (after ch' cs) (Path.join dir n') = entryAt h (Path.join dir n'))
  /\ (forall m q, validName m = true ->
        address h q = address h dir ++ [n] ->
        entryAt (after ch' cs) (Path.join q m) = Err ENOENT).
Proof.
  intros Hl Hn.
  assert (Hd' : entryAt (after ch' cs) dir = Ok (Dir (removeChild n ch) t)) by exact Hl.
  split; [|split].
  - rewrite (entryAt_child _ _ _ _ _ Hn Hd'). now rewrite assoc_removeChild_same.
  - intros n' Hn' Hne.
    rewrite (entryAt_child _ _ _ _ _ Hn' Hd'), (entryAt_child _ _ _ _ _ Hn' Hdir).
    now rewrite assoc_removeChild_other.
  - intros m q Hm Hq. unfold entryAt.
    rewrite (address_join _ _ _ Hm).
    change (address (after ch' cs) q) with (address h q).
    change (root (after ch' cs)) with (Dir ch' 0).
    rewrite Hq, lookup_app, lookup_app, Hl. cbn [lookup].
    now rewrite assoc_removeChild_same.
Qed.

(** [entryNames()] of a handle for the directory. *)
Lemma entryNames_eq (d : Directory) :
  Directory_path d = dir ->
  Directory_entryNames d h = (Return (map fst ch), withCall h (CallReaddir dir)).
Proof.
  intros <-. unfold Directory_entryNames, bind.
  fold (Directory_entries d). rewrite (entries_eq d h ch t Hdir).
  unfold ret. now rewrite map_map.
Qed.

End ChildFacts.

Section ResolvedFacts.

(** The path of a handle is a resolved path: [/] followed by valid names. *)
Lemma resolved_path (h0 : host) (name : string) :
  exists l, Forall (fun s => validName s = true) l
            /\ Path.resolve (process_cwd h0) name = "/" +++ Path.unsegments l
            /\ l = address h0 name.
Proof.
  exists (address h0 name). split; [apply address_valid|]. split; [apply resolve_eq|reflexivity].
Qed.

(** The parent of a resolved path. *)
Lemma dirname_of_resolved (l : list string) :
  Forall (fun s => validName s = true) l ->
  Path.dirname ("/" +++ Path.unsegments l) = "/" +++ Path.unsegments (removelast l).
Proof.
  intros Hv. destruct (list_snoc_cases l) as [->|(par & n & ->)]; [reflexivity|].
  apply Forall_app in Hv as [Hpar Hn].
  rewrite removelast_last. apply dirname_resolved; [assumption|exact (Forall_inv Hn)].
Qed.

Lemma Forall_removelast {A : Type} (P : A -> Prop) (l : list A) :
  Forall P l -> Forall P (removelast l).
Proof.
  intros Hv. destruct (list_snoc_cases l) as [->|(par & n & ->)]; [constructor|].
  rewrite removelast_last. now apply Forall_app in Hv as [Hpar _].
Qed.

(** The getter [dir] on a handle with a resolved path. *)
Lemma Directory_dir_resolved (h : host) (l : list string) :
  Forall (fun s => validName s = true) l ->
  Directory_dir {| d_path := "/" +++ Path.unsegments l |} h
  = (Return {| d_path := "/" +++ Path.unsegments (removelast l) |}, h).
Proof.
  intros Hv. unfold Directory_dir, Directory_new, Directory_dirname, Directory_path.
  cbn [d_path]. rewrite dirname_of_resolved by assumption.
  now rewrite resolve_of_valid by now apply Forall_removelast.
Qed.

End ResolvedFacts.

(** * Facts about windows of a list of bytes *)

Section ReadFacts.

Context {A : Type}.

Lemma firstn_plus (n m : nat) (l : list A) :
  firstn (n + m) l = firstn n l ++ firstn m (skipn n l).
Proof.
  revert l. induction n as [|n IH]; intros l; [reflexivity|].
  destruct l as [|x l]; simpl.
  - now rewrite firstn_nil.
  - now rewrite IH.
Qed.

(** Two adjacent windows of a list make the window of their union. *)
Lemma windows_adjacent (a b c : nat) (l : list A) :
  (a <= b)%nat -> (b <= c)%nat ->
  firstn (c - a) (skipn a l)
  = firstn (b - a) (skipn a l) ++ firstn (c - b) (skipn b l).
Proof.
  intros Hab Hbc.
  replace (c - a)%nat with ((b - a) + (c - b))%nat by lia.
  rewrite firstn_plus, skipn_skipn.
  now replace (b - a + a)%nat with b by lia.
Qed.

End ReadFacts.

(** [readFile] on a regular file: the request that is sent and the bytes
    that come back. *)
Lemma readFile_eq (h : host) (fn : string) (bs : list Byte.byte) (t a b : Z) :
  entryAt h fn = Ok (RegFile bs t) ->
  (0 <= a < b)%Z ->
  readFile fn (Some a) (Some b) h
  = (Return (firstn (Z.to_nat b - Z.to_nat a) (skipn (Z.to_nat a) bs)),
     withCall h (CallRead fn (Some a) (Some (b - 1)%Z))).
Proof.
  intros He Ha. unfold readFile, createReadStream.
  assert (Hok : rangeOk (Some a) (Some (b - 1)%Z) = true).
  { unfold rangeOk. rewrite !andb_true_iff, !Z.leb_le. lia. }
  rewrite Hok. cbn [negb]. unfold entryAt in He. rewrite He.
  unfold liftRes, bytesBetween.
  replace (Z.max 0 a) with a by lia.
  now replace (Z.to_nat (b - 1 + 1 - a)) with (Z.to_nat b - Z.to_nat a)%nat by lia.
Qed.

(** [readFile] without an [end]. *)
Lemma readFile_rest (h : host) (fn : string) (bs : list Byte.byte) (t a : Z) :
  entryAt h fn = Ok (RegFile bs t) ->
  (0 <= a)%Z ->
  readFile fn (Some a) None h
  = (Return (skipn (Z.to_nat a) bs), withCall h (CallRead fn (Some a) None)).
Proof.
  intros He Ha. unfold readFile, createReadStream.
  assert (Hok : rangeOk (Some a) None = true).
  { unfold rangeOk. rewrite andb_true_iff, Z.leb_le. split; [lia|reflexivity]. }
  rewrite Hok. cbn [negb]. unfold entryAt in He. rewrite He.
  unfold liftRes, bytesBetween. do 2 f_equal.
  rewrite firstn_all2; [f_equal; lia|].
  rewrite length_skipn. lia.
Qed.

(** * Facts about the generators of the browser *)

Lemma forAwait_start {G A : Type}
  (next : G -> host -> outcome (IteratorResult A) * G * host)
  (fuel : nat) (g g' : G) (h1 h2 : host) :
  next g h1 = next g' h2 ->
  forAwait next (S fuel) g h1 = forAwait next (S fuel) g' h2.
Proof. intros H. cbn [forAwait]. now rewrite H. Qed.

Section BrowserFacts.

Variable b : FileBrowser.t.

Let dir := FileBrowser.directory b.

Lemma opendir_eq (h : host) (ch : list (string * node)) (t : Z) :
  entryAt h dir = Ok (Dir ch t) ->
  opendir dir h = (Return (map direntOf ch), h).
Proof. unfold opendir, entryAt. now intros ->. Qed.

Lemma opendir_err (h : host) (e : errno) :
  entryAt h dir = Err e ->
  opendir dir h = (Throw (ErrnoException e "opendir" dir), h).
Proof. unfold opendir, entryAt. now intros ->. Qed.

Lemma fileNames_next_loop (g : NamesGenerator) (e : Dirent) (rest : list Dirent) (h1 : host) :
  fileNames_next (namesSuspend g (GenLoop (e :: rest))) h1
  = (Return (Yield (de_name e)), namesSuspend g (GenLoop rest), h1).
Proof. reflexivity. Qed.

Lemma fileNames_next_start (b0 : FileBrowser.t) (h1 : host) :
  fileNames_next (FileBrowser_fileNames b0) h1
  = match opendir (FileBrowser.directory b0) h1 with
    | (Return entries, h') => fileNamesLoop (FileBrowser_fileNames b0) entries h'
    | (Throw e, h') => (Throw e, namesSuspend (FileBrowser_fileNames b0) GenDone, h')
    end.
Proof. reflexivity. Qed.

(** The run of [fileNames] from the inside of its loop. *)
Lemma fileNames_run (g : NamesGenerator) (rest : list Dirent) :
  forall (fuel : nat) (h1 : host),
    (List.length rest < fuel)%nat ->
    forAwait fileNames_next fuel (namesSuspend g (GenLoop rest)) h1
    = Some (Return (map de_name rest), h1).
Proof.
  induction rest as [|e rest IH]; intros fuel h1 Hfuel;
    (destruct fuel as [|fuel]; [inversion Hfuel|]).
  - reflexivity.
  - cbn [forAwait]. rewrite fileNames_next_loop.
    rewrite IH by (simpl in Hfuel; lia). reflexivity.
Qed.

(** What [get] answers, by what its [stat] finds. *)
Lemma browser_get_eq (n : string) (h : host) :
  let file := Path.join dir n in
  match entryAt h file with
  | Ok m =>
      exists f, FileBrowser.get b n h = (Return (Some f), withCall h (CallStat file))
                /\ describe (Some f) = Some (n, kind_eqb (kindOf m) KFile, isDir m)
  | Err ENOENT => FileBrowser.get b n h = (Return None, withCall h (CallStat file))
  | Err e => FileBrowser.get b n h
             = (Throw (ErrnoException e "stat" file), withCall h (CallStat file))
  end.
Proof.
  intros file. unfold FileBrowser.get, FileBrowser.getOn, tryCatch, bind.
  cbn [fs_statSync nodeFs]. fold dir. fold file.
  rewrite (statSync_eq h file).
  destruct (entryAt h file) as [m|e].
  - eexists. split; reflexivity.
  - destruct e; reflexivity.
Qed.

(** One [next()] of [files] inside its loop. *)
Lemma browserFiles_next_loop (g : FilesGenerator) (ng : NamesGenerator)
  (e : Dirent) (rest : list Dirent) (h1 : host) :
  fg_this g = b ->
  browserFiles_next (filesSuspend g (BrowseLoop (namesSuspend ng (GenLoop (e :: rest))))) h1
  = match FileBrowser.get b (de_name e) h1 with
    | (Return f, h2) =>
        (Return (Yield f),
         filesSuspend g (BrowseLoop (namesSuspend ng (GenLoop rest))), h2)
    | (Throw x, h2) => (Throw x, filesSuspend g BrowseDone, h2)
    end.
Proof.
  intros Hb. unfold browserFiles_next, browserFiles_nextOn.
  cbn [filesSuspend fg_state fg_this]. unfold browserFilesLoopOn.
  change (fileNames_nextOn nodeFs) with fileNames_next. rewrite fileNames_next_loop.
  cbn [filesSuspend fg_state fg_this]. rewrite Hb.
  change (FileBrowser.getOn nodeFs) with FileBrowser.get.
  now destruct (FileBrowser.get b (de_name e) h1) as [[f|x] h2].
Qed.

(** Without two entries of one name, an entry is the one its name finds. *)
Lemma assoc_NoDup (l : list (string * node)) (k : string) (v : node) :
  NoDup (map fst l) -> In (k, v) l -> assoc k l = Some v.
Proof.
  induction l as [|[k' v'] l IH]; intros Hnd Hin; [inversion Hin|].
  inversion Hnd as [|? ? Hnotin Hnd']; subst. simpl.
  destruct Hin as [E|Hin].
  - inversion E; subst. now rewrite String.eqb_refl.
  - destruct (String.eqb_spec k' k) as [->|Hne]; [|now apply IH].
    exfalso. apply Hnotin. apply in_map_iff. now exists (k, v).
Qed.

End BrowserFacts.

(** * Facts about regular expressions

    The matcher by derivatives and the backtracking matcher accept the same
    strings, so a [RegExp] object without the flags [g] and [y] answers
    [test] as the pattern alone does. *)

Section RegExpFacts.

Lemma append_nil_inv (s1 s2 : string) :
  s1 +++ s2 = EmptyString -> s1 = EmptyString /\ s2 = EmptyString.
Proof. destruct s1; simpl; [auto|discriminate]. Qed.

Lemma append_nil_r (s : string) : s +++ EmptyString = s.
Proof. induction s as [|c s IH]; simpl; [reflexivity|now rewrite IH]. Qed.

Lemma append_assoc (a b c : string) : (a +++ b) +++ c = a +++ b +++ c.
Proof. induction a as [|x a IH]; simpl; [reflexivity|now rewrite IH]. Qed.

Lemma length_append (a b : string) :
  String.length (a +++ b) = (String.length a + String.length b)%nat.
Proof. induction a as [|x a IH]; simpl; [reflexivity|now rewrite IH]. Qed.

Lemma nullable_matches (r : RegExp) : nullable r = true <-> matches r EmptyString.
Proof.
  induction r as [| | c | |r1 IH1 r2 IH2|r1 IH1 r2 IH2|r1 IH1]; simpl.
  - split; [discriminate|]. intros H. inversion H.
  - split; [constructor|reflexivity].
  - split; [discriminate|]. intros H. inversion H.
  - split; [discriminate|]. intros H. inversion H.
  - rewrite andb_true_iff, IH1, IH2. split.
    + intros [H1 H2]. exact (MSeq r1 r2 EmptyString EmptyString H1 H2).
    + intros H. inversion H as [| | |q1 q2 s1 s2 H1 H2 E| | | |]; subst.
      match goal with E : _ +++ _ = EmptyString |- _ =>
        apply append_nil_inv in E as [-> ->] end.
      now split.
  - rewrite orb_true_iff, IH1, IH2. split.
    + intros [H|H]; [now apply MAltL|now apply MAltR].
    + intros H. inversion H; subst; [now left|now right].
  - split; [constructor|reflexivity].
Qed.

(** A match of [r*] that starts with [c] starts with an iteration that
    starts with [c]. *)
Lemma star_cons (r : RegExp) (c : ascii) (s : string) :
  matches (ReStar r) (String c s) ->
  exists s1 s2, s = s1 +++ s2 /\ matches r (String c s1) /\ matches (ReStar r) s2.
Proof.
  intros H. remember (ReStar r) as q eqn:Eq. remember (String c s) as w eqn:Ew.
  revert s Ew. induction H as [| | | | | | |q0 s1 s2 H1 _ H2 IH2]; try discriminate.
  intros s Ew. inversion Eq; subst q0.
  destruct s1 as [|c1 s1]; simpl in Ew.
  - exact (IH2 Eq s Ew).
  - inversion Ew; subst. exists s1, s2. now repeat split.
Qed.

Lemma deriv_matches (r : RegExp) (c : ascii) (s : string) :
  matches (deriv c r) s <-> matches r (String c s).
Proof.
  revert s. induction r as [| | c0 | |r1 IH1 r2 IH2|r1 IH1 r2 IH2|r1 IH1]; intros s; simpl.
  - split; intros H; inversion H.
  - split; intros H; inversion H.
  - destruct (Ascii.eqb_spec c c0) as [->|Hne].
    + split; intros H; inversion H; subst; constructor.
    + split; intros H; inversion H; subst. congruence.
  - destruct (lineTerminator c) eqn:El.
    + split; intros H; inversion H; subst. congruence.
    + split; intros H; inversion H; subst; now constructor.
  - assert (Hseq : matches (ReSeq (deriv c r1) r2) s
                   <-> exists s1 s2, s = s1 +++ s2
                                     /\ matches r1 (String c s1) /\ matches r2 s2).
    { split.
      - intros H. inversion H; subst. eexists _, _. split; [reflexivity|].
        split; [now apply IH1|assumption].
      - intros (s1 & s2 & -> & H1 & H2). constructor; [now apply IH1|assumption]. }
    assert (Hgoal : matches (ReSeq r1 r2) (String c s)
                    <-> (exists s1 s2, s = s1 +++ s2
                                       /\ matches r1 (String c s1) /\ matches r2 s2)
                        \/ (matches r1 EmptyString /\ matches r2 (String c s))).
    { split.
      - intros H. inversion H as [| | |q1 q2 s1 s2 H1 H2 E| | | |]; subst.
        destruct s1 as [|c1 s1]; simpl in *.
        + right. subst. now split.
        + match goal with E : String _ _ = String _ _ |- _ => inversion E; subst end.
          left. exists s1, s2. now repeat split.
      - intros [(s1 & s2 & -> & H1 & H2)|[H1 H2]].
        + exact (MSeq r1 r2 (String c s1) s2 H1 H2).
        + exact (MSeq r1 r2 EmptyString (String c s) H1 H2). }
    rewrite Hgoal. destruct (nullable r1) eqn:En.
    + split.
      * intros H. inversion H; subst.
        -- left. now apply Hseq.
        -- right. split; [now apply nullable_matches|now apply IH2].
      * intros [H|[_ H]].
        -- apply MAltL. now apply Hseq.
        -- apply MAltR. now apply IH2.
    + rewrite Hseq. split; [now left|].
      intros [H|[H _]]; [exact H|].
      apply nullable_matches in H. congruence.
  - split; intros H; inversion H; subst.
    + apply MAltL. now apply IH1.
    + apply MAltR. now apply IH2.
    + apply MAltL. now apply IH1.
    + apply MAltR. now apply IH2.
  - split.
    + intros H. inversion H; subst.
      match goal with H1 : matches (deriv c r1) _ |- _ => apply IH1 in H1 end.
      match goal with H1 : matches r1 (String c ?a), H2 : matches (ReStar r1) ?b |- _ =>
        exact (MStarStep r1 (String c a) b H1 H2) end.
    + intros H. apply star_cons in H as (s1 & s2 & -> & H1 & H2).
      constructor; [now apply IH1|assumption].
Qed.

Lemma matchesPrefix_spec (r : RegExp) (s : string) :
  matchesPrefix r s = true <-> prefixMatch r s.
Proof.
  revert r. induction s as [|c s IH]; intros r; simpl.
  - rewrite orb_false_r, nullable_matches. split.
    + intros H. exists EmptyString, EmptyString. now split.
    + intros (s1 & s2 & E & H). symmetry in E.
      apply append_nil_inv in E as [-> _]. exact H.
  - rewrite orb_true_iff, nullable_matches, IH. split.
    + intros [H|(s1 & s2 & -> & H)].
      * exists EmptyString, (String c s). now split.
      * exists (String c s1), s2. split; [reflexivity|now apply deriv_matches].
    + intros (s1 & s2 & E & H). destruct s1 as [|c1 s1]; simpl in E.
      * now left.
      * inversion E; subst. right. exists s1, s2.
        split; [reflexivity|now apply deriv_matches].
Qed.

(** A match of [r*] is empty or starts with an iteration that is not. *)
Lemma star_progress (r : RegExp) (s : string) :
  matches (ReStar r) s ->
  s = EmptyString
  \/ exists c s1 s2, s = String c s1 +++ s2 /\ matches r (String c s1)
                     /\ matches (ReStar r) s2.
Proof.
  destruct s as [|c s]; [now left|].
  intros H. right. apply star_cons in H as (s1 & s2 & -> & H1 & H2).
  exists c, s1, s2. now repeat split.
Qed.

Lemma repeatK_spec (r1 : RegExp) (k : string -> option string) :
  (forall s k', matchK r1 s k' <> None <-> accepts r1 s k') ->
  forall fuel s, (String.length s <= fuel)%nat ->
    repeatK (matchK r1) k fuel s <> None <-> accepts (ReStar r1) s k.
Proof.
  intros IH1. induction fuel as [|fuel IHf]; intros s Hlen.
  - destruct s as [|c s]; [|simpl in Hlen; lia]. simpl. split.
    + intros H. exists EmptyString, EmptyString. split; [reflexivity|].
      split; [constructor|exact H].
    + intros (s1 & s2 & E & _ & H). symmetry in E.
      apply append_nil_inv in E as [_ ->]. exact H.
  - cbn [repeatK].
    set (d := fun s1 : string =>
                if (String.length s1 <? String.length s)%nat
                then repeatK (matchK r1) k fuel s1 else None).
    assert (Hd : matchK r1 s d <> None
                 <-> exists c a b s2, s = String c a +++ b +++ s2
                                      /\ matches r1 (String c a)
                                      /\ matches (ReStar r1) b /\ k s2 <> None).
    { rewrite IH1. unfold accepts, d. split.
      - intros (s1 & s' & -> & H1 & Hk).
        rewrite length_append in Hk.
        destruct (Nat.ltb_spec (String.length s') (String.length s1 + String.length s'))
          as [Hlt|Hge]; [|congruence].
        apply IHf in Hk; [|rewrite length_append in Hlen; lia].
        destruct Hk as (b & s2 & -> & Hb & Hk).
        destruct s1 as [|c a]; [simpl in Hlt; lia|].
        exists c, a, b, s2. now repeat split.
      - intros (c & a & b & s2 & -> & H1 & Hb & Hk).
        exists (String c a), (b +++ s2). split; [reflexivity|]. split; [exact H1|].
        rewrite !length_append. simpl String.length.
        destruct (Nat.ltb_spec (String.length b + String.length s2)
                    (S (String.length a) + (String.length b + String.length s2)))
          as [_|Hge]; [|lia].
        apply IHf.
        + rewrite !length_append in Hlen. simpl in Hlen. rewrite length_append. lia.
        + exists b, s2. now repeat split. }
    split.
    + intros H. destruct (matchK r1 s d) as [x|] eqn:Em.
      * assert (Hx : Some x <> None) by discriminate.
        apply Hd in Hx as (c & a & b & s2 & -> & H1 & Hb & Hk).
        exists (String c a +++ b), s2. split; [now rewrite append_assoc|].
        split; [now constructor|exact Hk].
      * exists EmptyString, s. split; [reflexivity|]. split; [constructor|exact H].
    + intros (s1 & s2 & -> & Hs & Hk).
      destruct (matchK r1 (s1 +++ s2) d) as [x|] eqn:Em; [discriminate|].
      apply star_progress in Hs as [->|(c & a & b & -> & H1 & Hb)]; [exact Hk|].
      exfalso. assert (Hx : @None string <> None).
      { apply Hd. exists c, a, b, s2. split; [now rewrite append_assoc|]. now repeat split. }
      now apply Hx.
Qed.

Lemma matchK_spec (r : RegExp) (s : string) (k : string -> option string) :
  matchK r s k <> None <-> accepts r s k.
Proof.
  revert s k. induction r as [| | c | |r1 IH1 r2 IH2|r1 IH1 r2 IH2|r1 IH1]; intros s k.
  - simpl. split; [congruence|]. intros (s1 & s2 & _ & H & _). inversion H.
  - simpl. split.
    + intros H. exists EmptyString, s. split; [reflexivity|]. split; [constructor|exact H].
    + intros (s1 & s2 & -> & H & Hk). inversion H; subst. exact Hk.
  - simpl. split.
    + destruct s as [|c' s]; [congruence|].
      destruct (Ascii.eqb_spec c' c) as [->|Hne]; [|congruence].
      intros H. exists (String c EmptyString), s. split; [reflexivity|].
      split; [constructor|exact H].
    + intros (s1 & s2 & -> & H & Hk). inversion H; subst. simpl.
      now rewrite Ascii.eqb_refl.
  - simpl. split.
    + destruct s as [|c' s]; [congruence|].
      destruct (lineTerminator c') eqn:El; [congruence|].
      intros H. exists (String c' EmptyString), s. split; [reflexivity|].
      split; [now constructor|exact H].
    + intros (s1 & s2 & -> & H & Hk). inversion H; subst. simpl.
      match goal with El : lineTerminator _ = false |- _ => now rewrite El end.
  - cbn [matchK]. rewrite IH1. split.
    + intros (s1 & s' & -> & H1 & Hk). apply IH2 in Hk as (s2 & s3 & -> & H2 & Hk).
      exists (s1 +++ s2), s3. split; [now rewrite append_assoc|].
      split; [now constructor|exact Hk].
    + intros (s12 & s3 & -> & H & Hk). inversion H; subst.
      match goal with H1 : matches r1 ?a, H2 : matches r2 ?b |- _ =>
        exists a, (b +++ s3); split; [now rewrite append_assoc|];
        split; [exact H1|]; apply IH2; exists b, s3; now repeat split end.
  - cbn [matchK]. split.
    + destruct (matchK r1 s k) as [x|] eqn:E1.
      * intros _. assert (H : matchK r1 s k <> None) by (rewrite E1; discriminate).
        apply IH1 in H as (s1 & s2 & -> & H1 & Hk).
        exists s1, s2. split; [reflexivity|]. split; [now apply MAltL|exact Hk].
      * intros H. apply IH2 in H as (s1 & s2 & -> & H1 & Hk).
        exists s1, s2. split; [reflexivity|]. split; [now apply MAltR|exact Hk].
    + intros (s1 & s2 & -> & H & Hk).
      destruct (matchK r1 (s1 +++ s2) k) as [x|] eqn:E1; [discriminate|].
      inversion H; subst.
      * exfalso. assert (Hx : matchK r1 (s1 +++ s2) k <> None).
        { apply IH1. exists s1, s2. now repeat split. }
        congruence.
      * apply IH2. exists s1, s2. now repeat split.
  - cbn [matchK]. apply repeatK_spec; [exact IH1|lia].
Qed.

Lemma matchAt_spec (r : RegExp) (s : string) :
  matchAt r s <> None <-> matchesPrefix r s = true.
Proof.
  rewrite matchesPrefix_spec. unfold matchAt, prefixMatch.
  pose proof (matchK_spec r s (fun rest => Some rest)) as H. unfold accepts in H.
  destruct (matchK r s (fun rest => Some rest)) as [x|].
  - split; [|discriminate]. intros _.
    destruct (proj1 H) as (s1 & s2 & E & Hm & _); [discriminate|]. now exists s1, s2.
  - split; [congruence|]. intros (s1 & s2 & E & Hm). exfalso.
    apply (proj2 H); [|reflexivity]. exists s1, s2. split; [exact E|].
    split; [exact Hm|discriminate].
Qed.

(** The search from the start finds a match where [test] of the pattern
    says there is one. *)
Lemma execFrom_test (r : RegExp) (s : string) (i : nat) :
  execFrom r false s i <> None <-> test r s = true.
Proof.
  revert i. induction s as [|c s IH]; intros i.
  - cbn [execFrom test]. rewrite orb_false_r, <- matchAt_spec.
    destruct (matchAt r EmptyString); split; congruence.
  - cbn [execFrom test]. rewrite orb_true_iff, <- matchAt_spec, <- (IH (S i)).
    destruct (matchAt r (String c s)).
    + split; [left|]; discriminate.
    + split; [now right|]. intros [H|H]; [congruence|exact H].
Qed.

(** Without the flags [g] and [y], [test] is the [test] of the pattern and
    leaves the object as it is. *)
Lemma RegExp_test_plain (R : RegExpObject) (s : string) :
  keepsIndex R = false -> RegExp_test R s = (test (re_source R) s, R).
Proof.
  intros Hk. unfold RegExp_test. rewrite Hk. cbn [dropChars].
  unfold keepsIndex in Hk. apply orb_false_iff in Hk as [_ ->].
  pose proof (execFrom_test (re_source R) s 0) as H.
  destruct (execFrom (re_source R) false s 0) as [e|], (test (re_source R) s);
    try reflexivity; exfalso.
  - assert (Hx : false = true) by (apply H; discriminate). discriminate.
  - apply (proj2 H); reflexivity.
Qed.

End RegExpFacts.

(** * Facts about the generators with the filter as an object

    With a filter that has neither the flag [g] nor the flag [y], the
    generators run as the ones that hold the pattern alone. *)

Section FlaggedFacts.

Variable d : Directory.
Variable R : RegExpObject.
Hypothesis Hplain : keepsIndex R = false.

Let flagged (st : genState) : Flagged.Generator :=
  {| Flagged.gen_this := d; Flagged.gen_filter := R; Flagged.gen_state := st |}.

Let unflagged (st : genState) : Generator :=
  {| gen_this := d; gen_filter := re_source R; gen_state := st |}.

Lemma filesLoop_plain (st : genState) (l : list Dirent) (h : host) :
  exists st', Flagged.filesLoop (flagged st) l h
              = (fst (fst (filesLoop (unflagged st) l h)), flagged st',
                 snd (filesLoop (unflagged st) l h))
              /\ snd (fst (filesLoop (unflagged st) l h)) = unflagged st'.
Proof.
  induction l as [|e l IH].
  - exists GenDone. split; reflexivity.
  - unfold flagged, unflagged in *.
    cbn [Flagged.filesLoop filesLoop]. destruct (de_isFile e); [|exact IH].
    cbn [Flagged.gen_filter]. rewrite (RegExp_test_plain R _ Hplain).
    cbn [andb gen_filter].
    destruct (test (re_source R) (de_name e)); [|exact IH].
    cbn [Flagged.withFilter Flagged.gen_this Flagged.gen_state gen_this].
    destruct ((stats <- statSync (Path.join (Directory_path d) (de_name e)) ;;
               createFile (Path.join (Directory_path d) (de_name e)) stats) h)
      as [[f|x] h'].
    + exists (GenLoop l). split; reflexivity.
    + exists GenDone. split; reflexivity.
Qed.

Lemma subdirsLoop_plain (st : genState) (l : list Dirent) (h : host) :
  exists st', Flagged.subdirsLoop (flagged st) l h
              = (fst (fst (subdirsLoop (unflagged st) l h)), flagged st',
                 snd (subdirsLoop (unflagged st) l h))
              /\ snd (fst (subdirsLoop (unflagged st) l h)) = unflagged st'.
Proof.
  induction l as [|e l IH].
  - exists GenDone. split; reflexivity.
  - unfold flagged, unflagged in *.
    cbn [Flagged.subdirsLoop subdirsLoop]. destruct (de_isDirectory e); [|exact IH].
    cbn [Flagged.gen_filter]. rewrite (RegExp_test_plain R _ Hplain).
    cbn [andb gen_filter].
    destruct (test (re_source R) (de_name e)); [|exact IH].
    exists (GenLoop l). split; reflexivity.
Qed.

Lemma files_next_plain (st : genState) (h : host) :
  exists st', Flagged.files_next (flagged st) h
              = (fst (fst (files_next (unflagged st) h)), flagged st',
                 snd (files_next (unflagged st) h))
              /\ snd (fst (files_next (unflagged st) h)) = unflagged st'.
Proof.
  unfold Flagged.files_next, files_next.
  pose proof (filesLoop_plain st) as Hloop. unfold flagged, unflagged in *.
  cbn [Flagged.gen_state gen_state Flagged.gen_this gen_this].
  destruct st as [|rest|].
  - destruct (Directory_entries d h) as [[entries|x] h'].
    + exact (Hloop entries h').
    + exists GenDone. split; reflexivity.
  - exact (Hloop rest h).
  - exists GenDone. split; reflexivity.
Qed.

Lemma subdirs_next_plain (st : genState) (h : host) :
  exists st', Flagged.subdirs_next (flagged st) h
              = (fst (fst (subdirs_next (unflagged st) h)), flagged st',
                 snd (subdirs_next (unflagged st) h))
              /\ snd (fst (subdirs_next (unflagged st) h)) = unflagged st'.
Proof.
  unfold Flagged.subdirs_next, subdirs_next.
  pose proof (subdirsLoop_plain st) as Hloop. unfold flagged, unflagged in *.
  cbn [Flagged.gen_state gen_state Flagged.gen_this gen_this].
  destruct st as [|rest|].
  - destruct (Directory_entries d h) as [[entries|x] h'].
    + exact (Hloop entries h').
    + exists GenDone. split; reflexivity.
  - exact (Hloop rest h).
  - exists GenDone. split; reflexivity.
Qed.

(** [Array.from] on two generators that go step by step together. *)
Lemma arrayFrom_plain {A : Type}
  (fnext : Flagged.Generator -> host -> outcome (IteratorResult A) * Flagged.Generator * host)
  (next : Generator -> host -> outcome (IteratorResult A) * Generator * host) :
  (forall st h, exists st',
      fnext (flagged st) h
      = (fst (fst (next (unflagged st) h)), flagged st', snd (next (unflagged st) h))
      /\ snd (fst (next (unflagged st) h)) = unflagged st') ->
  forall fuel st h,
    Flagged.arrayFrom fnext fuel (flagged st) h = arrayFrom next fuel (unflagged st) h.
Proof.
  intros Hstep. induction fuel as [|fuel IH]; intros st h; [reflexivity|].
  cbn [Flagged.arrayFrom arrayFrom].
  destruct (Hstep st h) as (st' & -> & Hg).
  destruct (next (unflagged st) h) as [[r g'] h']. cbn [fst snd] in *. subst g'.
  destruct r as [[v|]|x]; try reflexivity.
  now rewrite IH.
Qed.

Lemma files_plain (fuel : nat) (st : genState) (h : host) :
  Flagged.arrayFrom Flagged.files_next fuel (flagged st) h
  = arrayFrom files_next fuel (unflagged st) h.
Proof. apply arrayFrom_plain. exact files_next_plain. Qed.

Lemma subdirs_plain (fuel : nat) (st : genState) (h : host) :
  Flagged.arrayFrom Flagged.subdirs_next fuel (flagged st) h
  = arrayFrom subdirs_next fuel (unflagged st) h.
Proof. apply arrayFrom_plain. exact subdirs_next_plain. Qed.

End FlaggedFacts.

(** ** The handles of a run *)

Section HandleFacts.

Variable d : Directory.
Variable r : RegExp.
Variable h : host.
Variable ch : list (string * node).
Variable t : Z.
Hypothesis Hdir : entryAt h (Directory_path d) = Ok (Dir ch t).

Let path := Directory_path d.

Let listed (rest : list Dirent) : Prop :=
  Forall (fun e => validName (de_name e) = true /\ assoc (de_name e) ch <> None) rest.

Lemma files_run_handles (g : Generator) (rest : list Dirent) :
  gen_this g = d -> gen_filter g = r ->
  forall (fuel : nat) (h1 : host),
    tree h1 = tree h -> cwd h1 = cwd h ->
    listed rest -> (List.length rest < fuel)%nat ->
    exists fs hf,
      arrayFrom files_next fuel (suspend g (GenLoop rest)) h1 = Some (Return fs, hf)
      /\ Forall2 (fileOfEntry h path ch) fs (filter (fileMatch r) rest).
Proof.
  intros Hthis Hfilter. induction rest as [|e rest IH]; intros fuel h1 Ht Hc Hl Hfuel.
  - destruct fuel as [|fuel]; [inversion Hfuel|]. exists [], h1. split; [reflexivity|constructor].
  - destruct fuel as [|fuel]; [inversion Hfuel|].
    pose proof (Forall_inv Hl) as [Hv Ha]. pose proof (Forall_inv_tail Hl) as Hl'.
    simpl List.length in Hfuel.
    destruct (fileMatch r e) eqn:Hm.
    + assert (Hd1 : entryAt h1 path = Ok (Dir ch t)).
      { unfold path. now rewrite (entryAt_same h h1 _ Ht Hc). }
      pose proof (entryAt_child h1 path _ ch t Hv Hd1) as Hstat.
      destruct (assoc (de_name e) ch) as [c|] eqn:Ec; [|congruence].
      destruct (IH fuel (withCall h1 (CallStat (Path.join path (de_name e)))))
        as (fs & hf & Hrun & Hfs); [exact Ht|exact Hc|exact Hl'|lia|].
      eexists. exists hf. split.
      * cbn [arrayFrom]. rewrite files_next_match by (now rewrite Hfilter).
        rewrite Hthis. fold path. rewrite Hstat. cbn [createFile File_new].
        rewrite Hrun. reflexivity.
      * cbn [filter]. rewrite Hm. constructor; [|exact Hfs].
        split.
        -- unfold File_path. cbn [f_path]. unfold process_cwd. cbn [cwd withCall].
           now rewrite Hc.
        -- exists c. split; [exact Ec|]. reflexivity.
    + destruct (IH (S fuel) h1) as (fs & hf & Hrun & Hfs);
        [exact Ht|exact Hc|exact Hl'|lia|].
      exists fs, hf. split.
      * rewrite <- Hrun. apply arrayFrom_step, files_next_skip. now rewrite Hfilter.
      * cbn [filter]. now rewrite Hm.
Qed.

Lemma subdirs_run_handles (g : Generator) (rest : list Dirent) :
  gen_this g = d -> gen_filter g = r ->
  forall (fuel : nat) (h1 : host),
    cwd h1 = cwd h -> (List.length rest < fuel)%nat ->
    exists ds,
      arrayFrom subdirs_next fuel (suspend g (GenLoop rest)) h1 = Some (Return ds, h1)
      /\ Forall2 (dirOfEntry h path) ds (filter (dirMatch r) rest).
Proof.
  intros Hthis Hfilter. induction rest as [|e rest IH]; intros fuel h1 Hc Hfuel.
  - destruct fuel as [|fuel]; [inversion Hfuel|]. exists []. split; [reflexivity|constructor].
  - destruct fuel as [|fuel]; [inversion Hfuel|].
    simpl List.length in Hfuel.
    destruct (dirMatch r e) eqn:Hm.
    + destruct (IH fuel h1) as (ds & Hrun & Hds); [exact Hc|lia|].
      eexists. split.
      * cbn [arrayFrom]. rewrite subdirs_next_match by (now rewrite Hfilter).
        rewrite Hrun. reflexivity.
      * cbn [filter]. rewrite Hm. constructor; [|exact Hds].
        unfold dirOfEntry, Directory_path. cbn [d_path]. rewrite Hthis.
        unfold process_cwd. now rewrite Hc.
    + destruct (IH (S fuel) h1) as (ds & Hrun & Hds); [exact Hc|lia|].
      exists ds. split.
      * rewrite <- Hrun. apply arrayFrom_step, subdirs_next_skip. now rewrite Hfilter.
      * cbn [filter]. now rewrite Hm.
Qed.

End HandleFacts.

(** The whole runs, with the handles they make. *)
Lemma files_handles_from_start (h : host) (d : Directory) (pattern : option RegExp)
  (ch : list (string * node)) (t : Z) (fuel : nat) :
  entryAt h (Directory_path d) = Ok (Dir ch t) ->
  Forall (fun kv => validName (fst kv) = true) ch ->
  (List.length ch < fuel)%nat ->
  exists fs hf,
    arrayFrom files_next fuel (Directory_files d pattern) h = Some (Return fs, hf)
    /\ Forall2 (fileOfEntry h (Directory_path d) ch) fs
         (filter (fileMatch (orElse pattern matchAll)) (map direntOf ch)).
Proof.
  intros Hd Hv Hfuel.
  destruct fuel as [|fuel]; [inversion Hfuel|].
  destruct (files_run_handles d (orElse pattern matchAll) h ch t Hd
              (Directory_files d pattern) (map direntOf ch)
              eq_refl eq_refl (S fuel) (withCall h (CallReaddir (Directory_path d))))
    as (fs & hf & Hrun & Hfs);
    [reflexivity|reflexivity|now apply listed_entries|now rewrite length_map|].
  exists fs, hf. split; [|exact Hfs].
  rewrite <- Hrun.
  apply arrayFrom_start.
  unfold files_next at 1. cbn [Directory_files gen_state gen_this].
  rewrite (entries_eq d h ch t Hd).
  unfold files_next. cbn [gen_state suspend]. now rewrite filesLoop_suspend.
Qed.

Lemma subdirs_handles_from_start (h : host) (d : Directory) (pattern : option RegExp)
  (ch : list (string * node)) (t : Z) (fuel : nat) :
  entryAt h (Directory_path d) = Ok (Dir ch t) ->
  (List.length ch < fuel)%nat ->
  exists ds hd,
    arrayFrom subdirs_next fuel (Directory_subdirs d pattern) h = Some (Return ds, hd)
    /\ Forall2 (dirOfEntry h (Directory_path d)) ds
         (filter (dirMatch (orElse pattern matchAll)) (map direntOf ch)).
Proof.
  intros Hd Hfuel.
  destruct fuel as [|fuel]; [inversion Hfuel|].
  destruct (subdirs_run_handles d (orElse pattern matchAll) h
              (Directory_subdirs d pattern) (map direntOf ch)
              eq_refl eq_refl (S fuel) (withCall h (CallReaddir (Directory_path d))))
    as (ds & Hrun & Hds); [reflexivity|now rewrite length_map|].
  exists ds. eexists. split; [|exact Hds].
  rewrite <- Hrun.
  apply arrayFrom_start.
  unfold subdirs_next at 1. cbn [Directory_subdirs gen_state gen_this].
  rewrite (entries_eq d h ch t Hd).
  unfold subdirs_next. cbn [gen_state suspend]. now rewrite subdirsLoop_suspend.
Qed.

(** * Facts about the browser where symbolic links stand *)

Section LinkFacts.

Lemma isPrefixOf_nil (l : list string) : isPrefixOf l [] = true -> l = [].
Proof. destruct l; [reflexivity|discriminate]. Qed.

Lemma isPrefixOf_snoc (l a : list string) (n : string) :
  isPrefixOf l (a ++ [n]) = true -> isPrefixOf l a = true \/ l = a ++ [n].
Proof.
  revert a. induction l as [|x l IH]; intros a H; [now left|].
  destruct a as [|y a]; simpl in H; apply andb_prop in H as [Hx Hl].
  - right. apply String.eqb_eq in Hx. subst. now rewrite (isPrefixOf_nil _ Hl).
  - apply String.eqb_eq in Hx. subst y. destruct (IH a Hl) as [Hp| ->].
    + left. simpl. now rewrite String.eqb_refl.
    + now right.
Qed.

Lemma isPrefixOf_refl (l : list string) : isPrefixOf l l = true.
Proof. induction l as [|x l IH]; simpl; [reflexivity|]. now rewrite String.eqb_refl. Qed.

Lemma linkNameIn_spec (dir l : list string) (n : string) :
  linkNameIn dir l = Some n <-> l = dir ++ [n].
Proof.
  revert l. induction dir as [|x dir IH]; intros l; simpl.
  - destruct l as [|y [|z l]]; split; intros H; try discriminate; now inversion H.
  - destruct l as [|y l]; [split; discriminate|].
    destruct (String.eqb_spec x y) as [->|Hne].
    + rewrite IH. split; intros H; [now subst|now inversion H].
    + split; [discriminate|]. intros H. inversion H. congruence.
Qed.

Lemma In_linkNamesIn (links : list (list string)) (dir : list string) (n : string) :
  In n (linkNamesIn links dir) <-> In (dir ++ [n]) links.
Proof.
  unfold linkNamesIn. rewrite in_flat_map. split.
  - intros (l & Hin & Hn). destruct (linkNameIn dir l) as [m|] eqn:E; [|contradiction].
    destruct Hn as [->|[]]. apply linkNameIn_spec in E. now subst.
  - intros Hin. exists (dir ++ [n]). split; [exact Hin|].
    rewrite (proj2 (linkNameIn_spec dir (dir ++ [n]) n) eq_refl). now left.
Qed.

Lemma throughLink_In (links : list (list string)) (a : list string) :
  In a links -> throughLink links a = true.
Proof.
  intros Hin. unfold throughLink. apply existsb_exists. exists a.
  split; [exact Hin|apply isPrefixOf_refl].
Qed.

Lemma throughLink_snoc (links : list (list string)) (a : list string) (n : string) :
  throughLink links a = false -> ~ In (a ++ [n]) links ->
  throughLink links (a ++ [n]) = false.
Proof.
  intros Ha Hn. destruct (throughLink links (a ++ [n])) eqn:E; [|reflexivity].
  unfold throughLink in E. apply existsb_exists in E as (l & Hin & Hp).
  destruct (isPrefixOf_snoc l a n Hp) as [Hp'| ->]; [|contradiction].
  assert (Ht : throughLink links a = true).
  { unfold throughLink. apply existsb_exists. now exists l. }
  congruence.
Qed.

Lemma Linked_statSync_free (links : list (list string)) (p : string) (h : host) :
  throughLink links (address h p) = false -> Linked_statSync links p h = statSync p h.
Proof. unfold Linked_statSync. now intros ->. Qed.

Lemma Linked_statSync_link (links : list (list string)) (p : string) (h : host) :
  throughLink links (address h p) = true ->
  Linked_statSync links p h
  = (Throw (ErrnoException ENOENT "stat" p), withCall h (CallStat p)).
Proof. unfold Linked_statSync. now intros ->. Qed.

(** Without links, the calls are those of the tree. *)
Lemma linkedFs_nil_stat (p : string) (h : host) :
  fs_statSync (linkedFs []) p h = fs_statSync nodeFs p h.
Proof. reflexivity. Qed.

Lemma linkedFs_nil_opendir (p : string) (h : host) :
  fs_opendir (linkedFs []) p h = fs_opendir nodeFs p h.
Proof.
  cbn [fs_opendir linkedFs nodeFs]. unfold Linked_opendir. cbn [throughLink existsb].
  destruct (opendir p h) as [[entries|e] h']; [|reflexivity].
  cbn [linkNamesIn flat_map map]. now rewrite app_nil_r.
Qed.

(** What a listing that succeeds is made of. *)
Lemma Linked_opendir_entries (links : list (list string)) (p : string) (h h1 : host)
  (entries : list Dirent) :
  Linked_opendir links p h = (Return entries, h1) ->
  throughLink links (address h p) = false
  /\ h1 = h
  /\ exists ch t, entryAt h p = Ok (Dir ch t)
                  /\ entries = map direntOf ch
                               ++ map linkEntry (linkNamesIn links (address h p)).
Proof.
  unfold Linked_opendir, opendir, entryAt.
  destruct (throughLink links (address h p)); [discriminate|].
  destruct (lookup (address h p) (root h)) as [m|e]; [|discriminate].
  destruct m as [bs t|ch t|t|t]; try discriminate.
  cbn [readdirOf liftRes]. intros H. inversion H; subst.
  split; [reflexivity|]. split; [reflexivity|]. exists ch, t. split; reflexivity.
Qed.

(** What [get] answers, by the answer of [stat]. *)
Lemma getOn_eq (fs : fsModule) (b : FileBrowser.t) (n : string) (h : host) :
  let file := Path.join (FileBrowser.directory b) n in
  FileBrowser.getOn fs b n h
  = match fs_statSync fs file h with
    | (Return st, h1) =>
        (Return
           (Some {| FileTs.super :=
                      LazyFile_new (LazyFileContent (st_size st) file) n (mime h1 n)
                        (Some (st_mtimeMs st)) (clock h1);
                    FileTs.props :=
                      {| FileTs.dirname := Some (FileBrowser.directory b);
                         FileTs.isDirectory := Some (st_isDirectory st);
                         FileTs.isFIFO := Some (st_isFIFO st);
                         FileTs.isFile := Some (st_isFile st);
                         FileTs.isSocket := Some (st_isSocket st);
                         FileTs.isSymbolicLink := Some (st_isSymbolicLink st);
                         FileTs.lastModified := Some (st_mtimeMs st);
                         FileTs.type := mime h1 n |} |}), h1)
    | (Throw e, h1) => if isNoEntityError e then (Return None, h1) else (Throw e, h1)
    end.
Proof.
  intros file. unfold FileBrowser.getOn, tryCatch, bind. fold file.
  destruct (fs_statSync fs file h) as [[st|e] h1]; [reflexivity|].
  destruct (isNoEntityError e); reflexivity.
Qed.

Lemma kindOf_not_link (c : node) : kind_eqb (kindOf c) KSymbolicLink = false.
Proof. now destruct c. Qed.

Lemma NoDup_app_l {A : Type} (l1 l2 : list A) : NoDup (l1 ++ l2) -> NoDup l1.
Proof.
  induction l1 as [|x l1 IH]; simpl; intros H; [constructor|].
  inversion H as [|? ? Hn Hnd]; subst. constructor.
  - intros Hin. apply Hn. apply in_or_app. now left.
  - now apply IH.
Qed.

Lemma NoDup_app_disjoint {A : Type} (l1 l2 : list A) (x : A) :
  NoDup (l1 ++ l2) -> In x l1 -> ~ In x l2.
Proof.
  induction l1 as [|y l1 IH]; simpl; intros H Hin; [contradiction|].
  inversion H as [|? ? Hn Hnd]; subst. destruct Hin as [->|Hin].
  - intros H2. apply Hn. apply in_or_app. now right.
  - now apply IH.
Qed.

(** An entry the listing shows, in a listing without a name twice: the
    answer of [stat] at its name. *)
Lemma listed_stat (links : list (list string)) (dir : string) (h h1 : host)
  (entries : list Dirent) (entry : Dirent) :
  Linked_opendir links dir h = (Return entries, h1) ->
  NoDup (map de_name entries) ->
  In entry entries ->
  validName (de_name entry) = true ->
  let file := Path.join dir (de_name entry) in
  (de_isSymbolicLink entry = true
   /\ Linked_statSync links file h
      = (Throw (ErrnoException ENOENT "stat" file), withCall h (CallStat file)))
  \/ (de_isSymbolicLink entry = false
      /\ exists c, entryAt h file = Ok c /\ kindOf c = de_kind entry
                   /\ Linked_statSync links file h
                      = (Return (statsOf c), withCall h (CallStat file))).
Proof.
  intros Hop Hnd Hin Hv file.
  destruct (Linked_opendir_entries links dir h h1 entries Hop)
    as (Hfree & _ & ch & t & Hd & ->).
  rewrite map_app, !map_map in Hnd. cbn [linkEntry de_name] in Hnd.
  rewrite map_id in Hnd.
  change (map (fun x => de_name (direntOf x)) ch) with (map fst ch) in Hnd.
  unfold file. apply in_app_or in Hin as [Hin|Hin].
  - right. apply in_map_iff in Hin as ([k c] & <- & Hin).
    cbn [direntOf de_name de_kind fst snd] in *.
    split; [apply kindOf_not_link|]. exists c.
    assert (Ha : assoc k ch = Some c).
    { apply assoc_NoDup; [now apply NoDup_app_l in Hnd|exact Hin]. }
    assert (He : entryAt h (Path.join dir k) = Ok c).
    { rewrite (entryAt_child h dir k ch t Hv Hd). now rewrite Ha. }
    split; [exact He|]. split; [reflexivity|].
    rewrite Linked_statSync_free, statSync_eq, He; [reflexivity|].
    rewrite (address_join h dir k Hv). apply throughLink_snoc; [exact Hfree|].
    intros Hl. apply In_linkNamesIn in Hl.
    apply (NoDup_app_disjoint _ _ k Hnd); [|exact Hl].
    apply in_map_iff. now exists (k, c).
  - left. apply in_map_iff in Hin as (k & <- & Hin).
    cbn [linkEntry de_name] in *. split; [reflexivity|].
    apply Linked_statSync_link. rewrite (address_join h dir k Hv).
    apply throughLink_In. now apply In_linkNamesIn.
Qed.

(** The listing does not depend on the calls made so far. *)
Lemma Linked_opendir_same (links : list (list string)) (p : string) (h h1 : host)
  (entries : list Dirent) :
  tree h1 = tree h -> cwd h1 = cwd h ->
  Linked_opendir links p h = (Return entries, h) ->
  Linked_opendir links p h1 = (Return entries, h1).
Proof.
  intros Ht Hc. unfold Linked_opendir, opendir, root.
  rewrite Ht, (address_cwd h h1 p Hc).
  destruct (throughLink links (address h p)); [discriminate|].
  destruct (liftRes "opendir" p
              match lookup (address h p) (Dir (tree h) 0) with
              | Ok n => readdirOf n
              | Err e => Err e
              end) as [es|e]; intros H; inversion H; reflexivity.
Qed.

(** One [next()] of [files] inside its loop. *)
Lemma browserFiles_nextOn_loop (fs : fsModule) (g : FilesGenerator) (ng : NamesGenerator)
  (e : Dirent) (rest : list Dirent) (h1 : host) :
  browserFiles_nextOn fs
    (filesSuspend g (BrowseLoop (namesSuspend ng (GenLoop (e :: rest))))) h1
  = match FileBrowser.getOn fs (fg_this g) (de_name e) h1 with
    | (Return f, h2) =>
        (Return (Yield f),
         filesSuspend g (BrowseLoop (namesSuspend ng (GenLoop rest))), h2)
    | (Throw x, h2) => (Throw x, filesSuspend g BrowseDone, h2)
    end.
Proof.
  unfold browserFiles_nextOn. cbn [filesSuspend fg_state fg_this].
  unfold browserFilesLoopOn, fileNames_nextOn.
  cbn [namesSuspend ng_state ng_this fileNamesLoop filesSuspend fg_state fg_this].
  now destruct (FileBrowser.getOn fs (fg_this g) (de_name e) h1) as [[f|x] h2].
Qed.

Section LinkedRun.

Variable links : list (list string).
Variable b : FileBrowser.t.
Variable h : host.
Variable entries : list Dirent.

Let dir := FileBrowser.directory b.

Hypothesis Hlisting : Linked_opendir links dir h = (Return entries, h).
Hypothesis Hnodup : NoDup (map de_name entries).

Let statOf (e : Dirent) : call := CallStat (Path.join dir (de_name e)).
Let shown (e : Dirent) : option (string * bool * bool) :=
  if de_isSymbolicLink e then None else Some (de_name e, de_isFile e, de_isDirectory e).

(** The run of [files] from the inside of its loop, where links stand. *)
Lemma linkedFiles_run (g : FilesGenerator) (ng : NamesGenerator) (rest : list Dirent) :
  fg_this g = b ->
  Forall (fun e => In e entries /\ validName (de_name e) = true) rest ->
  forall (fuel : nat) (h1 : host),
    tree h1 = tree h -> cwd h1 = cwd h ->
    (List.length rest < fuel)%nat ->
    exists out,
      forAwait (browserFiles_nextOn (linkedFs links)) fuel
        (filesSuspend g (BrowseLoop (namesSuspend ng (GenLoop rest)))) h1
      = Some (Return out, withCalls h1 (map statOf rest))
      /\ map describe out = map shown rest.
Proof.
  intros Hb. induction rest as [|e rest IH]; intros Hl fuel h1 Ht Hc Hfuel;
    (destruct fuel as [|fuel]; [inversion Hfuel|]).
  - exists []. split; reflexivity.
  - pose proof (Forall_inv Hl) as [Hin Hv].
    pose proof (Linked_opendir_same links dir h h1 entries Ht Hc Hlisting) as Hop1.
    pose proof (getOn_eq (linkedFs links) b (de_name e) h1) as Hg. cbv zeta in Hg.
    fold dir in Hg. cbn [fs_statSync linkedFs] in Hg.
    destruct (IH (Forall_inv_tail Hl) fuel (withCall h1 (statOf e)))
      as (out & Hrun & Hout); [exact Ht|exact Hc|simpl in Hfuel; lia|].
    destruct (listed_stat links dir h1 h1 entries e Hop1 Hnodup Hin Hv)
      as [[Hk Hst]|[Hk (c & _ & Hkind & Hst)]]; rewrite Hst in Hg.
    + exists (None :: out). split.
      * cbn [forAwait map]. rewrite browserFiles_nextOn_loop, Hb, Hg.
        cbn [isNoEntityError]. unfold statOf in Hrun. rewrite Hrun. reflexivity.
      * cbn [map]. rewrite Hout. unfold shown at 2. now rewrite Hk.
    + eexists (Some _ :: out). split.
      * cbn [forAwait map]. rewrite browserFiles_nextOn_loop, Hb, Hg.
        unfold statOf in Hrun. rewrite Hrun. reflexivity.
      * cbn [map]. rewrite Hout. unfold shown at 2. rewrite Hk.
        unfold describe, FileTs.get_isFile, FileTs.get_isDirectory, st_isFile,
          st_isDirectory, de_isFile, de_isDirectory.
        cbn [FileTs.super FileTs.props FileTs.isFile FileTs.isDirectory orElse
             LazyFile_new lf_name statsOf st_kind].
        now rewrite Hkind.
Qed.

End LinkedRun.

End LinkFacts.

(** * The claims *)

(** C1: for a file handle [f] and [0 <= a <= b <= c <= d <= f.size], the
    handle [f.slice(a, d).slice(b - a, c - a)] and the handle
    [f.slice(b, c)] have the same window: the source of [f], the offset of
    [f] moved by [b], and the length [c - b].  So they deliver the same
    bytes, failures and read requests included, in every state of the host.
    When [f] is backed by a file, reading the slice of the slice sends one
    read request to the file, for the positions [b <= i < c] of the
    composed window counted from the offset of [f], and delivers the bytes
    of the file at these positions; when the composed window is empty,
    nothing is read at all. *)
Theorem slice_of_slice (f : File) (h1 h2 h3 h : host) (a b c d : Z) :
  (0 <= a <= b)%Z -> (b <= c <= d)%Z -> (d <= File_size f)%Z ->
  exists g1 g2 g3 : File,
    File_slice f (Some a) (Some d) None h1 = (Return g1, h1)
    /\ File_slice g1 (Some (b - a)%Z) (Some (c - a)%Z) None h2 = (Return g2, h2)
    /\ File_slice f (Some b) (Some c) None h3 = (Return g3, h3)
    /\ lf_content (f_super g2) = lf_content (f_super f)
    /\ lf_content (f_super g3) = lf_content (f_super f)
    /\ lf_offset (f_super g2) = (lf_offset (f_super f) + b)%Z
    /\ lf_offset (f_super g3) = (lf_offset (f_super f) + b)%Z
    /\ File_size g2 = (c - b)%Z
    /\ File_size g3 = (c - b)%Z
    /\ File_bytes g2 h = File_bytes g3 h
    /\ (forall n fn bs t,
          lf_content (f_super f) = LazyFileContent n fn ->
          (0 <= lf_offset (f_super f))%Z ->
          entryAt h fn = Ok (RegFile bs t) ->
          let o := lf_offset (f_super f) in
          File_bytes g2 h
          = if (b <? c)%Z
            then (Return (bytesBetween (o + b) (o + c) bs),
                  withCall h (CallRead fn (Some (o + b)%Z) (Some (o + c - 1)%Z)))
            else (Return [], h)).
Proof.
  intros Hab Hcd Hd.
  destruct (File_slice_window f a d None h1) as (g1 & E1 & C1 & O1 & S1 & _); [lia|lia|].
  destruct (File_slice_window g1 (b - a) (c - a) None h2) as (g2 & E2 & C2 & O2 & S2 & _);
    [lia|lia|].
  destruct (File_slice_window f b c None h3) as (g3 & E3 & C3 & O3 & S3 & _); [lia|lia|].
  exists g1, g2, g3.
  assert (HO2 : lf_offset (f_super g2) = (lf_offset (f_super f) + b)%Z)
    by (rewrite O2, O1; lia).
  assert (HS2 : File_size g2 = (c - b)%Z) by (rewrite S2; lia).
  assert (HC2 : lf_content (f_super g2) = lf_content (f_super f)) by now rewrite C2.
  split; [exact E1|]. split; [exact E2|]. split; [exact E3|].
  split; [exact HC2|]. split; [exact C3|]. split; [exact HO2|]. split; [exact O3|].
  split; [exact HS2|]. split; [exact S3|]. split.
  - unfold File_size, LazyFile_size in HS2, S3.
    unfold File_bytes, LazyFile_bytes. now rewrite HC2, C3, HO2, O3, HS2, S3.
  - intros n fn bs t Hc Ho He o.
    rewrite (File_bytes_window g2 n fn h); [|now rewrite HC2|rewrite HO2; lia].
    rewrite HO2, HS2, He. fold o.
    replace (0 <? c - b)%Z with (b <? c)%Z
      by (destruct (Z.ltb_spec b c), (Z.ltb_spec 0 (c - b)); lia).
    destruct (b <? c)%Z; [|reflexivity].
    now replace (o + b + (c - b))%Z with (o + c)%Z by lia.
Qed.

(** A witness of [slice_of_slice]: [a.txt] of the fixtures as [file] hands
    it out, with the bounds 2, 5, 9 and 12. *)
Lemma slice_of_slice_witness :
  exists f g1 g2 g3 : File,
    evalIO (Directory_file {| d_path := fixtures |} "a.txt") testHost = Some (Some f)
    /\ File_slice f (Some 2%Z) (Some 12%Z) None testHost = (Return g1, testHost)
    /\ File_slice g1 (Some (5 - 2)%Z) (Some (9 - 2)%Z) None testHost = (Return g2, testHost)
    /\ File_slice f (Some 5%Z) (Some 9%Z) None testHost = (Return g3, testHost)
    /\ File_bytes g2 testHost = File_bytes g3 testHost
    /\ File_bytes g2 testHost
       = (Return (list_byte_of_string "is f"),
          withCall testHost (CallRead (Path.join fixtures "a.txt") (Some 5%Z) (Some 8%Z))).
Proof.
  eexists.
  match goal with
  | |- exists g1 g2 g3, evalIO _ _ = Some (Some ?F) /\ _ =>
      destruct (slice_of_slice
                  {| f_super := LazyFile_new (LazyFileContent 16 (Path.join fixtures "a.txt"))
                                  "a.txt" None (Some 1%Z) 1000;
                     f_path := Path.join fixtures "a.txt" |}
                  testHost testHost testHost testHost 2 5 9 12)
        as (g1 & g2 & g3 & E1 & E2 & E3 & _ & _ & _ & _ & _ & _ & HB & HL);
        [lia|lia|vm_compute; discriminate|]
  end.
  exists g1, g2, g3.
  split; [reflexivity|]. split; [exact E1|]. split; [exact E2|]. split; [exact E3|].
  split; [exact HB|].
  erewrite HL; [|reflexivity|vm_compute; discriminate|reflexivity].
  reflexivity.
Defined.




(** C3: [file(n)] and [subdir(n)] answer [null] when the [stat] of the
    child fails with not-found and when it finds an entry of another kind,
    they hand out a handle when the kind is the requested one, and every
    other failure of [stat] is thrown as it is.  For a valid entry name [n]
    in a directory whose entries are [ch]: no entry named [n] gives [null],
    and so does an entry of the wrong kind. *)
Theorem child_lookup_null (h : host) (d : Directory) (n : string) :
  let p := Path.join (Directory_path d) n in
  let h' := withCall h (CallStat p) in
  match entryAt h p with
  | Err ENOENT =>
      Directory_file d n h = (Return None, h')
      /\ Directory_subdir d n h = (Return None, h')
  | Err e =>
      Directory_file d n h = (Throw (ErrnoException e "stat" p), h')
      /\ Directory_subdir d n h = (Throw (ErrnoException e "stat" p), h')
  | Ok m =>
      (if kind_eqb (kindOf m) KFile
       then exists f, Directory_file d n h = (Return (Some f), h')
                      /\ File_path f = Path.resolve (process_cwd h) p
       else Directory_file d n h = (Return None, h'))
      /\ (if isDir m
          then exists s, Directory_subdir d n h = (Return (Some s), h')
                         /\ Directory_path s = Path.resolve (process_cwd h) p
          else Directory_subdir d n h = (Return None, h'))
  end
  /\ (forall ch t,
        validName n = true ->
        entryAt h (Directory_path d) = Ok (Dir ch t) ->
        match assoc n ch with
        | None =>
            Directory_file d n h = (Return None, h')
            /\ Directory_subdir d n h = (Return None, h')
        | Some c =>
            (kind_eqb (kindOf c) KFile = false -> Directory_file d n h = (Return None, h'))
            /\ (isDir c = false -> Directory_subdir d n h = (Return None, h'))
        end).
Proof.
  intros p h'.
  assert (Hmain :
    match entryAt h p with
    | Err ENOENT =>
        Directory_file d n h = (Return None, h')
        /\ Directory_subdir d n h = (Return None, h')
    | Err e =>
        Directory_file d n h = (Throw (ErrnoException e "stat" p), h')
        /\ Directory_subdir d n h = (Throw (ErrnoException e "stat" p), h')
    | Ok m =>
        (if kind_eqb (kindOf m) KFile
         then exists f, Directory_file d n h = (Return (Some f), h')
                        /\ File_path f = Path.resolve (process_cwd h) p
         else Directory_file d n h = (Return None, h'))
        /\ (if isDir m
            then exists s, Directory_subdir d n h = (Return (Some s), h')
                           /\ Directory_path s = Path.resolve (process_cwd h) p
            else Directory_subdir d n h = (Return None, h'))
    end).
  { unfold Directory_file, Directory_subdir, tryCatch, bind.
    fold p. rewrite (statSync_eq h p). fold h'.
    destruct (entryAt h p) as [m|e].
    - unfold st_isFile, st_isDirectory, isDir. change (st_kind (statsOf m)) with (kindOf m).
      split.
      + destruct (kind_eqb (kindOf m) KFile); [|reflexivity].
        eexists. split; reflexivity.
      + destruct (kind_eqb (kindOf m) KDirectory); [|reflexivity].
        eexists. split; reflexivity.
    - destruct e; split; reflexivity. }
  split; [exact Hmain|].
  intros ch t Hn Hd.
  pose proof (entryAt_child h _ n ch t Hn Hd) as Hc. fold p in Hc.
  rewrite Hc in Hmain.
  destruct (assoc n ch) as [c|]; [|exact Hmain].
  destruct Hmain as [Hf Hs]. split.
  - intros Hk. now rewrite Hk in Hf.
  - intros Hk. now rewrite Hk in Hs.
Qed.

(** A witness of [child_lookup_null]: in the fixtures, [file("sub")] is
    [null] because [sub] is a directory, and [subdir("a.txt")] is [null]
    because [a.txt] is a file. *)
Lemma child_lookup_null_witness :
  Directory_file {| d_path := fixtures |} "sub" testHost
  = (Return None, withCall testHost (CallStat (Path.join fixtures "sub")))
  /\ Directory_subdir {| d_path := fixtures |} "a.txt" testHost
     = (Return None, withCall testHost (CallStat (Path.join fixtures "a.txt"))).
Proof.
  split.
  - destruct (child_lookup_null testHost {| d_path := fixtures |} "sub") as [_ H].
    specialize (H _ 1%Z eq_refl eq_refl). simpl in H. destruct H as [H _].
    apply H. reflexivity.
  - destruct (child_lookup_null testHost {| d_path := fixtures |} "a.txt") as [_ H].
    specialize (H _ 1%Z eq_refl eq_refl). simpl in H. destruct H as [_ H].
    apply H. reflexivity.
Defined.

(** C4, as amended: for a pattern that has neither the flag [g] nor the
    flag [y], in a directory whose entries are [ch], the sequence made by
    [files(pattern)] holds, in the order of [entries()], exactly the
    entries that are regular files and whose name passes the pattern, each
    as the handle of that child, and the one made by [subdirs(pattern)]
    exactly the directories whose name passes it; enough calls of [next()]
    end the sequence.  Such a pattern answers [test] as a function of the
    name and is left as it was.  Without a pattern, the default one
    accepts every name. *)
Theorem files_subdirs_filtered (h : host) (d : Directory) (pattern : option RegExpObject)
  (ch : list (string * node)) (t : Z) (fuel : nat) :
  (forall R, pattern = Some R -> re_global R = false /\ re_sticky R = false) ->
  entryAt h (Directory_path d) = Ok (Dir ch t) ->
  Forall (fun kv => validName (fst kv) = true) ch ->
  (List.length ch < fuel)%nat ->
  let R := orElse pattern Flagged.defaultFilter in
  let r := re_source R in
  exists entries fs ds hf hd,
    Directory_entries d h = (Return entries, withCall h (CallReaddir (Directory_path d)))
    /\ map de_name entries = map fst ch
    /\ Flagged.arrayFrom Flagged.files_next fuel (Flagged.Directory_files d pattern) h
       = Some (Return fs, hf)
    /\ map File_name fs = map de_name (filter (fileMatch r) entries)
    /\ Forall2 (fileOfEntry h (Directory_path d) ch) fs (filter (fileMatch r) entries)
    /\ Flagged.arrayFrom Flagged.subdirs_next fuel (Flagged.Directory_subdirs d pattern) h
       = Some (Return ds, hd)
    /\ map Directory_name ds = map de_name (filter (dirMatch r) entries)
    /\ Forall2 (dirOfEntry h (Directory_path d)) ds (filter (dirMatch r) entries)
    /\ (forall n, In n (map File_name fs)
                  <-> exists c, In (n, c) ch /\ kindOf c = KFile /\ test r n = true)
    /\ (forall n, In n (map Directory_name ds)
                  <-> exists c, In (n, c) ch /\ kindOf c = KDirectory /\ test r n = true)
    /\ (forall s, RegExp_test R s = (test r s, R))
    /\ (pattern = None -> forall s, test r s = true).
Proof.
  intros Hflags Hd Hv Hfuel R r.
  assert (Hplain : keepsIndex R = false).
  { unfold R. destruct pattern as [R0|]; [|reflexivity].
    destruct (Hflags R0 eq_refl) as [Hg Hy]. unfold keepsIndex. cbn [orElse].
    now rewrite Hg, Hy. }
  destruct (files_from_start h d (Some r) ch t fuel Hd Hv Hfuel) as (fs & Hf & Hfn).
  destruct (subdirs_from_start h d (Some r) ch t fuel Hd Hv Hfuel) as (ds & Hs & Hsn).
  destruct (files_handles_from_start h d (Some r) ch t fuel Hd Hv Hfuel)
    as (fs' & hf' & Hf' & Hfh).
  destruct (subdirs_handles_from_start h d (Some r) ch t fuel Hd Hfuel)
    as (ds' & hd' & Hs' & Hsh).
  rewrite Hf in Hf'. inversion Hf'; subst fs' hf'. clear Hf'.
  rewrite Hs in Hs'. inversion Hs'; subst ds' hd'. clear Hs'.
  cbn [orElse] in Hfn, Hsn, Hfh, Hsh.
  exists (map direntOf ch), fs, ds. do 2 eexists.
  split; [now apply entries_eq with (t := t)|].
  split; [now rewrite map_map|].
  split; [exact (eq_trans (files_plain d R Hplain fuel GenStart h) Hf)|].
  split; [exact Hfn|]. split; [exact Hfh|].
  split; [exact (eq_trans (subdirs_plain d R Hplain fuel GenStart h) Hs)|].
  split; [exact Hsn|]. split; [exact Hsh|].
  split; [|split; [|split]].
  - intros n. rewrite Hfn. rewrite filtered_names.
    split; intros (c & Hin & Ht); exists c; (split; [exact Hin|]).
    + unfold fileMatch, de_isFile in Ht. cbn [direntOf de_kind de_name fst snd] in Ht.
      apply andb_prop in Ht as [Hk Ht]. split; [|exact Ht].
      destruct (kindOf c); try discriminate; reflexivity.
    + unfold fileMatch, de_isFile. cbn [direntOf de_kind de_name fst snd].
      destruct Ht as [-> ->]. reflexivity.
  - intros n. rewrite Hsn. rewrite filtered_names.
    split; intros (c & Hin & Ht); exists c; (split; [exact Hin|]).
    + unfold dirMatch, de_isDirectory in Ht. cbn [direntOf de_kind de_name fst snd] in Ht.
      apply andb_prop in Ht as [Hk Ht]. split; [|exact Ht].
      destruct (kindOf c); try discriminate; reflexivity.
    + unfold dirMatch, de_isDirectory. cbn [direntOf de_kind de_name fst snd].
      destruct Ht as [-> ->]. reflexivity.
  - intros s. now apply RegExp_test_plain.
  - intros -> s. apply test_matchAll.
Qed.

(** A witness of [files_subdirs_filtered]: the fixtures with the pattern
    [/b/]. *)
Lemma files_subdirs_filtered_witness :
  exists fs ds hf hd,
    Flagged.arrayFrom Flagged.files_next 6
      (Flagged.Directory_files {| d_path := fixtures |} (Some (literal (ReChar "b"))))
      testHost = Some (Return fs, hf)
    /\ map File_name fs = ["b.txt"]
    /\ map File_path fs = [Path.join fixtures "b.txt"]
    /\ Flagged.arrayFrom Flagged.subdirs_next 6
         (Flagged.Directory_subdirs {| d_path := fixtures |} (Some (literal (ReChar "b"))))
         testHost = Some (Return ds, hd)
    /\ map Directory_name ds = ["sub"; "sub2"].
Proof.
  assert (Hflags : forall R, Some (literal (ReChar "b")) = Some R
                             -> re_global R = false /\ re_sticky R = false).
  { intros R E. inversion E. split; reflexivity. }
  destruct (files_subdirs_filtered testHost {| d_path := fixtures |}
              (Some (literal (ReChar "b"))) _ _ 6 Hflags eq_refl)
    as (entries & fs & ds & hf & hd & He & _ & Hf & Hfn & _ & Hs & Hsn & _).
  - repeat constructor.
  - simpl. lia.
  - exists fs, ds, hf, hd. inversion He; subst entries.
    split; [exact Hf|]. split; [exact Hfn|].
    split; [inversion Hf; reflexivity|]. split; [exact Hs|exact Hsn].
Defined.

(** C4, as stated, fails: with the flag [g] the pattern keeps, from one
    entry to the next, the index at which its last match ended.  On the
    fixtures, [files(/\.txt/g)] yields [a.txt] and [c.txt]: after the match
    in [a.txt] the search in [b.txt] starts at the index 5, finds nothing
    and resets the index.  [b.txt] is a regular file of the directory and
    its name matches the pattern. *)
Lemma files_global_pattern_skips :
  let R := {| re_source := dotTxt; re_global := true; re_sticky := false;
              re_lastIndex := 0 |} in
  exists fs hf,
    Flagged.arrayFrom Flagged.files_next 6
      (Flagged.Directory_files {| d_path := fixtures |} (Some R)) testHost
    = Some (Return fs, hf)
    /\ map File_name fs = ["a.txt"; "c.txt"]
    /\ evalIO (Directory_entryNames {| d_path := fixtures |}) testHost
       = Some ["a.txt"; "b.txt"; "c.txt"; "sub"; "sub2"]
    /\ entryAt testHost (Path.join fixtures "b.txt")
       = Ok (fileOf ("This is file b." +++ newline))
    /\ test dotTxt "b.txt" = true
    /\ RegExp_test R "a.txt" = (true, setLastIndex R 5)
    /\ RegExp_test (setLastIndex R 5) "b.txt" = (false, R)
    /\ ~ (forall n, In n (map File_name fs)
                    <-> exists c, In (n, c) [("a.txt", fileOf ("This is file a." +++ newline));
                                             ("b.txt", fileOf ("This is file b." +++ newline));
                                             ("c.txt", fileOf ("This is file c." +++ newline));
                                             ("sub", Dir [] 1); ("sub2", Dir [] 1)]
                                  /\ kindOf c = KFile /\ test dotTxt n = true).
Proof.
  intros R. eexists. eexists.
  split; [vm_compute; reflexivity|].
  split; [reflexivity|]. split; [reflexivity|]. split; [reflexivity|].
  split; [reflexivity|]. split; [reflexivity|]. split; [reflexivity|].
  intros H.
  assert (Hin : In "b.txt" ["a.txt"; "c.txt"]).
  { apply (proj2 (H "b.txt")). eexists. split; [right; left; reflexivity|].
    split; reflexivity. }
  simpl in Hin. destruct Hin as [E|[E|[]]]; discriminate E.
Qed.

(** C5: a [Directory] or [File] handle satisfies
    [path == join(dirname, name)]; its path is the input path resolved once,
    by the constructor, and its [path], [dirname] and [name] are functions
    of the handle alone: no getter reads the host.  A handle derived later
    with [slice], in whatever state [h2] the host then is, has the same
    [path], [name] and [dirname]. *)
Theorem handle_path_invariant (h h2 : host) (name : string) (c : content)
  (props : option FilePropertyBag) (start end_ : option Z) (contentType : option string) :
  exists (d : Directory) (f g : File),
    Directory_new name h = (Return d, h)
    /\ File_new c name props h = (Return f, h)
    /\ File_slice f start end_ contentType h2 = (Return g, h2)
    /\ Directory_path d = Path.resolve (process_cwd h) name
    /\ Path.join (Directory_dirname d) (Directory_name d) = Directory_path d
    /\ File_path f = Path.resolve (process_cwd h) name
    /\ Path.join (File_dirname f) (File_name f) = File_path f
    /\ File_path g = File_path f
    /\ File_name g = File_name f
    /\ File_dirname g = File_dirname f.
Proof.
  do 3 eexists.
  split; [reflexivity|]. split; [reflexivity|]. split; [reflexivity|].
  unfold Directory_path, Directory_dirname, Directory_name, File_path,
    File_dirname, File_name, Directory_path. simpl.
  rewrite resolve_resolve.
  pose proof (resolve_invariant h name) as Hinv. simpl in Hinv.
  repeat split; auto.
Qed.

(** C6: when the entry at [p] is not a directory, [open(p)] throws the
    error [Path "p" is not a directory]; when it is not a regular file,
    [openFile(p)] throws [Path "p" is not a file]; nothing is created.  A
    handle is returned only when the entry at [p], as found or as just
    created, is of the requested kind. *)
Theorem wrong_kind_rejected (h : host) (p : string) (options : option OpenOptions) :
  (forall m, entryAt h p = Ok m -> isDir m = false ->
     open p options h
     = (Throw (JsError ("Path " +++ dq +++ p +++ dq +++ " is not a directory")),
        withCall h (CallStat p)))
  /\ (forall m, entryAt h p = Ok m -> kind_eqb (kindOf m) KFile = false ->
     openFile p options h
     = (Throw (JsError ("Path " +++ dq +++ p +++ dq +++ " is not a file")),
        withCall h (CallStat p)))
  /\ (forall d h', open p options h = (Return d, h') ->
        exists ch t, entryAt h' p = Ok (Dir ch t))
  /\ (forall f h', openFile p options h = (Return f, h') ->
        exists bs t, entryAt h' p = Ok (RegFile bs t)).
Proof.
  unfold open, openFile, Directory_open, File_open, bind, tryCatch.
  rewrite (statSync_eq h p).
  split; [|split; [|split]].
  - intros m Hm Hk. rewrite Hm. unfold st_isDirectory.
    change (st_kind (statsOf m)) with (kindOf m).
    unfold isDir in Hk. now rewrite Hk.
  - intros m Hm Hk. rewrite Hm. unfold st_isFile.
    change (st_kind (statsOf m)) with (kindOf m). now rewrite Hk.
  - intros d h'. destruct (entryAt h p) as [m|e] eqn:Hm.
    + unfold st_isDirectory. change (st_kind (statsOf m)) with (kindOf m).
      destruct (kind_eqb (kindOf m) KDirectory) eqn:Hk; [|discriminate].
      simpl. intros H. inversion H; subst.
      rewrite entryAt_withCall, Hm.
      destruct (isDir_Dir m Hk) as (ch & t & ->). eauto.
    + destruct e; cbn [isNoEntityError negb]; try discriminate.
      destruct (autoCreateOf options); [|discriminate].
      destruct (mkdirSync p (withCall h (CallStat p))) as [[[]|e'] h2] eqn:Hmk;
        [|discriminate].
      destruct (mkdirSync_returns _ _ _ Hmk) as [(ch & t & Hd) _].
      rewrite (statSync_eq h2 p), Hd. simpl.
      intros H. inversion H; subst. rewrite entryAt_withCall. eauto.
  - intros f h'. destruct (entryAt h p) as [m|e] eqn:Hm.
    + unfold st_isFile. change (st_kind (statsOf m)) with (kindOf m).
      destruct (kind_eqb (kindOf m) KFile) eqn:Hk; [|discriminate].
      simpl. intros H. inversion H; subst.
      rewrite entryAt_withCall, Hm.
      destruct (isFile_RegFile m Hk) as (bs & t & ->). eauto.
    + destruct e; cbn [isNoEntityError negb]; try discriminate.
      destruct (autoCreateOf options); [|discriminate].
      destruct (writeFileSync p [] (withCall h (CallStat p))) as [[[]|e'] h2] eqn:Hw;
        [|discriminate].
      destruct (writeFileSync_returns _ _ _ _ Hw) as [Hd _].
      rewrite (statSync_eq h2 p), Hd. simpl.
      intros H. inversion H; subst. rewrite entryAt_withCall. eauto.
Qed.

(** A witness of [wrong_kind_rejected]: in the fixtures, [open] of [a.txt]
    and [openFile] of [sub] are rejected. *)
Lemma wrong_kind_rejected_witness :
  open (Path.join fixtures "a.txt") None testHost
  = (Throw (JsError ("Path " +++ dq +++ "/pkg/src/test/fixtures/a.txt" +++ dq
                     +++ " is not a directory")),
     withCall testHost (CallStat "/pkg/src/test/fixtures/a.txt"))
  /\ openFile (Path.join fixtures "sub") None testHost
     = (Throw (JsError ("Path " +++ dq +++ "/pkg/src/test/fixtures/sub" +++ dq
                        +++ " is not a file")),
        withCall testHost (CallStat "/pkg/src/test/fixtures/sub")).
Proof.
  split.
  - destruct (wrong_kind_rejected testHost (Path.join fixtures "a.txt") None) as [H _].
    apply (H (fileOf ("This is file a." +++ newline))); reflexivity.
  - destruct (wrong_kind_rejected testHost (Path.join fixtures "sub") None) as (_ & H & _).
    apply (H (Dir [] 1)); reflexivity.
Defined.

(** C7: [delete()] removes the file at [path]; when nothing is there the
    promise rejects with the not-found error of the host, and any other
    error of the host is passed on as it is.  The method returns nothing and
    assigns no field: the handle is the value it was, and so are its
    [path], [name], [dirname] and window; the host keeps its working
    directory and the log of its synchronous calls.  The handle stays
    usable: its [stats], read after the removal, fail with not-found for
    the same path. *)
Theorem delete_removes_file (h : host) (f : File) :
  let p := File_path f in
  match entryAt h p with
  | Err e => File_delete f h = (Throw (ErrnoException e "unlink" p), h)
  | Ok m =>
      if isDir m then File_delete f h = (Throw (ErrnoException EISDIR "unlink" p), h)
      else exists h', File_delete f h = (Return tt, h')
                      /\ entryAt h' p = Err ENOENT
                      /\ sameProcess h h' /\ calls h' = calls h
                      /\ File_stats f h'
                         = (Throw (ErrnoException ENOENT "stat" p), withCall h' (CallStat p))
  end.
Proof.
  intros p. unfold File_delete, deleteFile. fold p.
  pose proof (unlink_eq h p) as H.
  destruct (entryAt h p) as [m|e]; [|exact H].
  destruct (isDir m); [exact H|].
  destruct H as (h' & H1 & H2 & H3 & H4 & H5 & H6).
  exists h'. split; [exact H1|]. split; [exact H2|].
  split; [repeat split; assumption|]. split; [exact H4|].
  unfold File_stats. fold p. now rewrite (statSync_eq h' p), H2.
Qed.

(** C8: [save()] opens the parent directory with the default options
    before it writes.  For a handle [f] whose parent directory is missing,
    that directory is created, the result of [save()] is the result of
    writing [f] into it, and the destination is opened for writing; when
    the content of [f] can then be read, [save()] returns the handle of
    the written file, and when it fails, the only failure is that of
    reading the content. *)
Theorem save_creates_parent (h0 h : host) (c0 : content) (name0 : string)
  (props : option FilePropertyBag) :
  entryAt h (Path.dirname (Path.resolve (process_cwd h0) name0)) = Err ENOENT ->
  exists f d h1 h2,
    File_new c0 name0 props h0 = (Return f, h0)
    /\ open (File_dirname f) None h = (Return d, h1)
    /\ entryAt h1 (File_dirname f) = Ok (Dir [] (clock h))
    /\ File_save f h = Directory_write d f h1
    /\ createWriteStream (File_path f) h1 = (Return tt, h2)
    /\ (forall bs h2', File_bytes f h2 = (Return bs, h2') ->
          exists f' h3,
            File_save f h = (Return (Some f'), h3)
            /\ entryAt h3 (File_path f) = Ok (RegFile bs (clock h))
            /\ File_size f' = Z.of_nat (List.length bs)
            /\ File_path f' = File_path f)
    /\ (forall e h2', File_bytes f h2 = (Throw e, h2') -> File_save f h = (Throw e, h2')).
Proof.
  intros Hmiss.
  pose proof (address_valid h0 name0) as Hv.
  rewrite resolve_eq in Hmiss.
  destruct (list_snoc_cases (address h0 name0)) as [E|(par & n & E)].
  { rewrite E in Hmiss. discriminate Hmiss. }
  rewrite E in Hv, Hmiss. apply Forall_app in Hv as [Hpar Hn0].
  pose proof (Forall_inv Hn0) as Hn. cbv beta in Hn.
  rewrite dirname_resolved in Hmiss by assumption.
  set (D := "/" +++ Path.unsegments par) in *.
  set (P := "/" +++ Path.unsegments (par ++ [n])).
  destruct (open_missing h D Hmiss) as (d & h1 & Hopen & Hd1 & Hdp & Hsp & _).
  assert (HdD : Directory_path d = D).
  { rewrite Hdp. now apply resolve_of_valid. }
  eexists. exists d, h1.
  assert (Hpath : forall f, File_new c0 name0 props h0 = (Return f, h0) ->
                            File_path f = P /\ File_name f = n /\ File_dirname f = D).
  { intros f Hf. unfold File_new in Hf. inversion Hf; subst f. clear Hf.
    unfold File_path, File_name, File_dirname, File_path.
    cbn [f_path f_super LazyFile_new lf_name].
    rewrite resolve_eq, E. fold P. split; [reflexivity|]. split.
    - unfold P. rewrite basename_resolved by (apply Forall_app; split; assumption).
      apply last_last.
    - unfold P. now apply dirname_resolved. }
  destruct (Hpath _ eq_refl) as (HP & HN & HD).
  rewrite HD, HP.
  assert (Hjoin : Path.join (Directory_path d) n = P).
  { rewrite HdD. unfold D, P. now apply join_resolved. }
  match goal with
  | |- exists h2, _ = (Return ?F, h0) /\ _ => set (f := F) in *
  end.
  destruct (Directory_write_new h1 d f [] (clock h)) as (h2 & Hc & Hsp2 & Hok & Herr).
  { now rewrite HN. }
  { now rewrite HdD. }
  { reflexivity. }
  rewrite HN, Hjoin in Hc, Hok.
  assert (Hsave : File_save f h = Directory_write d f h1).
  { unfold File_save, bind. rewrite HD, Hopen. reflexivity. }
  exists h2. split; [reflexivity|]. split; [exact Hopen|]. split; [exact Hd1|].
  split; [exact Hsave|]. split; [exact Hc|]. split.
  - intros bs h2' Hb. destruct (Hok bs h2' Hb) as (f' & h3 & Hw & He & Hs & Hp').
    exists f', h3. rewrite Hsave. split; [exact Hw|].
    assert (Hclock : clock h1 = clock h) by apply Hsp.
    rewrite Hclock in He. split; [exact He|]. split; [exact Hs|].
    rewrite Hp'. unfold P. apply resolve_of_valid.
    apply Forall_app. split; assumption.
  - intros e h2' Hb. rewrite Hsave. now apply Herr.
Qed.

(** A witness of [save_creates_parent]: a file made in memory for the path
    [/pkg/out/deep/hello.txt], whose directory [/pkg/out] does not exist. *)
Lemma save_creates_parent_witness :
  exists f f' h3,
    File_new (BlobParts [BytesPart (list_byte_of_string "hello")])
      "/pkg/out/deep/hello.txt" None testHost = (Return f, testHost)
    /\ File_save f testHost = (Return (Some f'), h3)
    /\ entryAt h3 "/pkg/out/deep/hello.txt"
       = Ok (RegFile (list_byte_of_string "hello") 1000)
    /\ File_size f' = 5%Z.
Proof.
  destruct (save_creates_parent testHost testHost
              (BlobParts [BytesPart (list_byte_of_string "hello")])
              "/pkg/out/deep/hello.txt" None eq_refl)
    as (f & d & h1 & h2 & Hf & _ & _ & _ & Hc & Hok & _).
  inversion Hf; subst f.
  destruct (Hok (list_byte_of_string "hello") h2 eq_refl) as (f' & h3 & Hs & He & Hz & _).
  eexists. exists f', h3.
  split; [reflexivity|]. split; [exact Hs|]. split; [exact He|exact Hz].
Defined.



(** C10, as amended: whatever host stands behind [fs.statSync],
    [FileBrowser.get(n)] hands out a handle exactly when the [stat] of the
    entry succeeds, for an entry of whatever kind, a directory included,
    with the five kind flags, the size, the name and the directory name
    taken from that [stat]; it answers [null] exactly when the [stat]
    fails with not-found, and any other failure is thrown as it is.  For
    an entry that the listing of the directory shows, in a listing that has
    no name twice: an entry that is no symbolic link gets a handle with the
    kind the listing shows, which never says [isSymbolicLink]; a symbolic
    link whose target is missing gets [null], although it stands in the
    directory. *)
Theorem browser_get_any_kind (fs : fsModule) (links : list (list string)) (h : host)
  (b : FileBrowser.t) (n : string) :
  let dir := FileBrowser.directory b in
  let file := Path.join dir n in
  (forall st h1,
     fs_statSync fs file h = (Return st, h1) ->
     exists f, FileBrowser.getOn fs b n h = (Return (Some f), h1)
               /\ FileTs.get_isFile f = st_isFile st
               /\ FileTs.get_isDirectory f = st_isDirectory st
               /\ FileTs.get_isFIFO f = st_isFIFO st
               /\ FileTs.get_isSocket f = st_isSocket st
               /\ FileTs.get_isSymbolicLink f = st_isSymbolicLink st
               /\ FileTs.get_dirname f = dir
               /\ lf_name (FileTs.super f) = n
               /\ LazyFile_size (FileTs.super f) = st_size st)
  /\ (forall e h1,
        fs_statSync fs file h = (Throw e, h1) ->
        FileBrowser.getOn fs b n h
        = if isNoEntityError e then (Return None, h1) else (Throw e, h1))
  /\ (forall entries h1 entry,
        fs_opendir (linkedFs links) dir h = (Return entries, h1) ->
        NoDup (map de_name entries) ->
        In entry entries -> de_name entry = n -> validName n = true ->
        if de_isSymbolicLink entry
        then FileBrowser.getOn (linkedFs links) b n h
             = (Return None, withCall h (CallStat file))
        else exists f, FileBrowser.getOn (linkedFs links) b n h
                       = (Return (Some f), withCall h (CallStat file))
                       /\ FileTs.get_isFile f = de_isFile entry
                       /\ FileTs.get_isDirectory f = de_isDirectory entry
                       /\ FileTs.get_isFIFO f = kind_eqb (de_kind entry) KFIFO
                       /\ FileTs.get_isSocket f = kind_eqb (de_kind entry) KSocket
                       /\ FileTs.get_isSymbolicLink f = false).
Proof.
  intros dir file. split; [|split].
  - intros st h1 Hst. pose proof (getOn_eq fs b n h) as Hg. cbv zeta in Hg.
    fold dir in Hg. fold file in Hg. rewrite Hst in Hg.
    eexists. split; [exact Hg|]. repeat split.
  - intros e h1 Hst. pose proof (getOn_eq fs b n h) as Hg. cbv zeta in Hg.
    fold dir in Hg. fold file in Hg. now rewrite Hst in Hg.
  - intros entries h1 entry Hop Hnd Hin Hname Hv. subst n.
    pose proof (getOn_eq (linkedFs links) b (de_name entry) h) as Hg. cbv zeta in Hg.
    fold dir in Hg. fold file in Hg. cbn [fs_statSync linkedFs] in Hg.
    destruct (listed_stat links dir h h1 entries entry Hop Hnd Hin Hv)
      as [[Hk Hst]|[Hk (c & _ & Hc & Hst)]]; fold file in Hst; rewrite Hk, Hst in *.
    + exact Hg.
    + eexists. split; [exact Hg|].
      cbn [FileTs.get_isFile FileTs.get_isDirectory FileTs.get_isFIFO FileTs.get_isSocket
           FileTs.get_isSymbolicLink FileTs.props FileTs.isFile FileTs.isDirectory
           FileTs.isFIFO FileTs.isSocket FileTs.isSymbolicLink orElse].
      unfold st_isFile, st_isDirectory, st_isFIFO, st_isSocket, st_isSymbolicLink,
        de_isFile, de_isDirectory.
      cbn [statsOf st_kind]. rewrite Hc. repeat split.
      unfold de_isSymbolicLink in Hk. exact Hk.
Qed.

(** A witness of [browser_get_any_kind]: the fixtures with a symbolic link
    [ghost] whose target is missing; [get("sub")] is a handle that says it
    is a directory. *)
Lemma browser_get_any_kind_witness :
  let links := [["pkg"; "src"; "test"; "fixtures"; "ghost"]] in
  exists f, FileBrowser.getOn (linkedFs links) {| FileBrowser.directory := fixtures |} "sub"
              testHost
            = (Return (Some f), withCall testHost (CallStat (Path.join fixtures "sub")))
            /\ FileTs.get_isFile f = false
            /\ FileTs.get_isDirectory f = true
            /\ FileTs.get_isSymbolicLink f = false.
Proof.
  intros links.
  destruct (browser_get_any_kind nodeFs links testHost
              {| FileBrowser.directory := fixtures |} "sub") as (_ & _ & H).
  specialize (H _ _ {| de_name := "sub"; de_kind := KDirectory |} eq_refl).
  cbn [de_isSymbolicLink de_kind kind_eqb] in H.
  destruct H as (f & H1 & H2 & H3 & _ & _ & H4).
  - repeat constructor; simpl; intuition discriminate.
  - simpl. tauto.
  - reflexivity.
  - reflexivity.
  - exists f. split; [exact H1|]. split; [exact H2|]. split; [exact H3|exact H4].
Defined.

(** C10, as stated, fails: in the fixtures with a symbolic link [ghost]
    whose target is missing, the listing of the directory shows [ghost],
    an existing child, and [get("ghost")] answers [null]: [stat] follows
    the link and fails with not-found. *)
Lemma browser_get_dangling_link :
  let links := [["pkg"; "src"; "test"; "fixtures"; "ghost"]] in
  let fs := linkedFs links in
  let b := {| FileBrowser.directory := fixtures |} in
  fs_opendir fs fixtures testHost
  = (Return [{| de_name := "a.txt"; de_kind := KFile |};
             {| de_name := "b.txt"; de_kind := KFile |};
             {| de_name := "c.txt"; de_kind := KFile |};
             {| de_name := "sub"; de_kind := KDirectory |};
             {| de_name := "sub2"; de_kind := KDirectory |};
             {| de_name := "ghost"; de_kind := KSymbolicLink |}], testHost)
  /\ fs_statSync fs (Path.join fixtures "ghost") testHost
     = (Throw (ErrnoException ENOENT "stat" (Path.join fixtures "ghost")),
        withCall testHost (CallStat (Path.join fixtures "ghost")))
  /\ FileBrowser.getOn fs b "ghost" testHost
     = (Return None, withCall testHost (CallStat (Path.join fixtures "ghost")))
  /\ ~ (exists f h', FileBrowser.getOn fs b "ghost" testHost = (Return (Some f), h')).
Proof.
  intros links fs b.
  split; [reflexivity|]. split; [reflexivity|]. split; [reflexivity|].
  intros (f & h' & H). discriminate H.
Qed.

(** * Further properties of the resolvers, the handles and the browser *)

(** X1: for a path [p] made of entry names only, at which nothing stands,
    in a process whose working directory is a directory, [open(p)] with the
    default options returns a handle for the resolved path whatever is
    missing on the way: the directory at [p] is created empty, its parent
    is a directory afterwards, and the calls are [stat], [mkdir], [stat].
    An options object without [autoCreate], or with [autoCreate: true], is
    the default; with [autoCreate: false] the call throws
    [Directory "p" does not exist] after its one [stat]. *)
Theorem open_creates_recursively (h : host) (p : string)
  (cw : list (string * node)) (tc : Z) :
  plainPath p = true ->
  entryAt h (process_cwd h) = Ok (Dir cw tc) ->
  entryAt h p = Err ENOENT ->
  (exists d h1,
     open p None h = (Return d, h1)
     /\ Directory_path d = Path.resolve (process_cwd h) p
     /\ entryAt h1 p = Ok (Dir [] (clock h))
     /\ (exists ch t, entryAt h1 (Directory_dirname d) = Ok (Dir ch t))
     /\ Directory_entryNames d h1
        = (Return [], withCall h1 (CallReaddir (Directory_path d)))
     /\ calls h1 = calls h ++ [CallStat p; CallMkdir p; CallStat p])
  /\ open p (Some {| autoCreate := None |}) h = open p None h
  /\ open p (Some {| autoCreate := Some true |}) h = open p None h
  /\ open p (Some {| autoCreate := Some false |}) h
     = (Throw (JsError ("Directory " +++ dq +++ p +++ dq +++ " does not exist")),
        withCall h (CallStat p)).
Proof.
  intros _ _ Hp. split; [|split; [reflexivity|split; [reflexivity|]]].
  - destruct (open_missing h p Hp) as (d & h1 & Ho & He & Hd & Hsp & Hc).
    exists d, h1. split; [exact Ho|]. split; [exact Hd|]. split; [exact He|].
    assert (Ha1 : forall q, address h1 q = address h q).
    { intros q. apply address_cwd, Hsp. }
    split; [|split; [|exact Hc]].
    + unfold Directory_dirname. rewrite Hd, resolve_eq.
      pose proof (address_valid h p) as Hv.
      unfold entryAt in He. rewrite Ha1 in He.
      destruct (list_snoc_cases (address h p)) as [E|(par & n & E)].
      * unfold entryAt in Hp. rewrite E in Hp. discriminate Hp.
      * rewrite E in Hv, He |- *. apply Forall_app in Hv as [Hpar Hn].
        rewrite dirname_resolved by (try assumption; exact (Forall_inv Hn)).
        unfold entryAt. rewrite Ha1, address_of_valid by assumption.
        rewrite lookup_app in He.
        destruct (lookup par (root h1)) as [m|e]; [|discriminate].
        destruct m as [bs t|ch t|t|t]; try discriminate. eauto.
    + unfold Directory_entryNames, Directory_entries, bind.
      rewrite readdirSync_eq. unfold entryAt.
      rewrite Hd, Ha1, address_resolve, <- Ha1.
      unfold entryAt in He. rewrite He. reflexivity.
  - rewrite open_eq, Hp. reflexivity.
Qed.

(** A witness of [open_creates_recursively]: [/pkg/out/deep/er], three
    levels of which are missing in the fixtures. *)
Lemma open_creates_recursively_witness :
  exists d h1,
    open "/pkg/out/deep/er" None testHost = (Return d, h1)
    /\ Directory_path d = "/pkg/out/deep/er"
    /\ entryAt h1 "/pkg/out/deep/er" = Ok (Dir [] 1000)
    /\ entryAt h1 "/pkg/out/deep" = Ok (Dir [("er", Dir [] 1000)] 1000).
Proof.
  destruct (open_creates_recursively testHost "/pkg/out/deep/er" _ _ eq_refl eq_refl eq_refl)
    as [(d & h1 & Ho & Hd & He & _) _].
  exists d, h1. split; [exact Ho|]. split; [exact Hd|]. split; [exact He|].
  inversion Ho. reflexivity.
Defined.

(** X2: once [open(p)] has returned a handle, opening [p] again returns the
    same handle after a single [stat], whatever the options of either call,
    and creates nothing; the same holds for [openFile(p)]. *)
Theorem reopen_same_handle (h h1 : host) (p : string) (o o' : option OpenOptions) :
  (forall d, open p o h = (Return d, h1) ->
     open p o' h1 = (Return d, withCall h1 (CallStat p)))
  /\ (forall f, openFile p o h = (Return f, h1) ->
        openFile p o' h1 = (Return f, withCall h1 (CallStat p))).
Proof.
  split.
  - intros d H. destruct (open_returns h p o d h1 H) as ((ch & t & He) & Hsp & ->).
    rewrite open_eq, He. cbn [isDir kindOf kind_eqb].
    now rewrite (process_cwd_same _ _ Hsp).
  - intros f H. destruct (openFile_returns h p o f h1 H) as (bs & t & He & Hsp & Hf).
    rewrite openFile_eq, He. cbn [kindOf kind_eqb].
    unfold createFile, File_new in Hf |- *. inversion Hf. reflexivity.
Qed.

(** A witness of [reopen_same_handle]: the directory the test suite
    creates, opened a second time without the permission to create. *)
Lemma reopen_same_handle_witness :
  exists d h1,
    open (Path.join fixtures "does-not-exist") None testHost = (Return d, h1)
    /\ open (Path.join fixtures "does-not-exist") (Some {| autoCreate := Some false |}) h1
       = (Return d, withCall h1 (CallStat (Path.join fixtures "does-not-exist"))).
Proof.
  eexists. eexists. split; [reflexivity|].
  apply (reopen_same_handle testHost _ (Path.join fixtures "does-not-exist") None).
  reflexivity.
Defined.

(** X3: where an entry stands at [p], [open(p)] and [openFile(p)] do one
    [stat] and nothing else, whatever the options; for a regular file,
    [openFile(p)] returns a handle with the size and the modification time
    of that [stat], and the file keeps its bytes.  With
    [autoCreate: false] neither of them ever changes the tree. *)
Theorem existing_entry_only_stat (h : host) (p : string) (o : option OpenOptions) :
  (forall m, entryAt h p = Ok m ->
     snd (open p o h) = withCall h (CallStat p)
     /\ snd (openFile p o h) = withCall h (CallStat p))
  /\ (forall bs t, entryAt h p = Ok (RegFile bs t) ->
        exists f, openFile p o h = (Return f, withCall h (CallStat p))
                  /\ File_size f = Z.of_nat (List.length bs)
                  /\ lf_lastModified (f_super f) = t
                  /\ File_path f = Path.resolve (process_cwd h) p
                  /\ entryAt (withCall h (CallStat p)) p = Ok (RegFile bs t))
  /\ tree (snd (open p (Some {| autoCreate := Some false |}) h)) = tree h
  /\ tree (snd (openFile p (Some {| autoCreate := Some false |}) h)) = tree h.
Proof.
  split; [|split; [|split]].
  - intros m Hm. rewrite open_eq, openFile_eq, Hm. split.
    + now destruct (isDir m).
    + now destruct (kind_eqb (kindOf m) KFile).
  - intros bs t Hm. rewrite openFile_eq, Hm. cbn [kindOf kind_eqb].
    eexists. split; [reflexivity|]. repeat split. exact Hm.
  - rewrite open_eq. destruct (entryAt h p) as [m|e].
    + now destruct (isDir m).
    + now destruct e.
  - rewrite openFile_eq. destruct (entryAt h p) as [m|e].
    + now destruct (kind_eqb (kindOf m) KFile).
    + now destruct e.
Qed.

(** A witness of [existing_entry_only_stat]: [a.txt] of the fixtures. *)
Lemma existing_entry_only_stat_witness :
  exists f, openFile (Path.join fixtures "a.txt") None testHost
            = (Return f, withCall testHost (CallStat (Path.join fixtures "a.txt")))
            /\ File_size f = 16%Z
            /\ lf_lastModified (f_super f) = 1%Z.
Proof.
  destruct (existing_entry_only_stat testHost (Path.join fixtures "a.txt") None)
    as (_ & H & _).
  destruct (H _ _ eq_refl) as (f & H1 & H2 & H3 & _).
  exists f. split; [exact H1|]. split; [exact H2|exact H3].
Defined.

(** X4: for a path [p] made of entry names only, at which nothing stands
    and whose parent is a directory, [openFile(p)] followed by [delete()] on the handle it
    returns, and [open(p)] followed by [delete()] on the handle it returns,
    leave the tree as it was before: the same names, kinds and files.
    This is how the test suite cleans up after itself. *)
Theorem created_then_deleted (h : host) (p : string) (ch : list (string * node)) (t : Z) :
  plainPath p = true ->
  entryAt h p = Err ENOENT ->
  entryAt h (Path.dirname (Path.resolve (process_cwd h) p)) = Ok (Dir ch t) ->
  (exists f h1 h2,
     openFile p None h = (Return f, h1)
     /\ entryAt h1 p = Ok (RegFile [] (clock h))
     /\ File_delete f h1 = (Return tt, h2)
     /\ untimed (root h2) = untimed (root h)
     /\ entryAt h2 p = Err ENOENT)
  /\ (exists d h1 h2,
        open p None h = (Return d, h1)
        /\ entryAt h1 p = Ok (Dir [] (clock h))
        /\ Directory_delete d h1 = (Return tt, h2)
        /\ untimed (root h2) = untimed (root h)
        /\ entryAt h2 p = Err ENOENT).
Proof.
  intros _ Hp Hd.
  destruct (missing_entry_parent h p ch t Hp Hd) as (par & s & E & Hs & Hl & Ha).
  split.
  - destruct (openFile_new_delete h p par s ch t E Hl Ha) as (f & ch1 & Ho & _ & Hv & Hdel).
    exists f. do 2 eexists. split; [exact Ho|].
    split; [unfold entryAt; cbn [tree root]; now rewrite <- Hv, <- E|].
    split; [exact Hdel|]. split; [reflexivity|exact Hp].
  - destruct (open_new_delete h p par s ch t E Hl Ha) as (d & ch1 & Ho & _ & Hv & Hdel).
    exists d. do 2 eexists. split; [exact Ho|].
    split; [unfold entryAt; cbn [tree root]; now rewrite <- Hv, <- E|].
    split; [exact Hdel|]. split; [reflexivity|exact Hp].
Qed.

(** A witness of [created_then_deleted]: [does-not-exist.txt] in the
    fixtures, as in the test suite. *)
Lemma created_then_deleted_witness :
  exists f h1 h2,
    openFile (Path.join fixtures "does-not-exist.txt") None testHost = (Return f, h1)
    /\ File_delete f h1 = (Return tt, h2)
    /\ untimed (root h2) = untimed (root testHost).
Proof.
  destruct (created_then_deleted testHost (Path.join fixtures "does-not-exist.txt")
              _ _ eq_refl eq_refl eq_refl)
    as [(f & h1 & h2 & H1 & _ & H2 & H3 & _) _].
  exists f, h1, h2. split; [exact H1|]. split; [exact H2|exact H3].
Defined.

(** X5: for a handle [d] of a directory and a subdirectory [n] of it,
    [delete()] on the handle [d.subdir(n)] returns removes [n] with all it
    holds: afterwards [d.subdir(n)] is [null], nothing stands below the
    path of the deleted handle, [d.entryNames()] lists the names it listed
    before without [n], and every other entry of [d] is the entry it was.
    A second [delete()] rejects with the not-found error of [rm]. *)
Theorem Directory_delete_subtree (h : host) (d : Directory) (n : string)
  (ch ch1 : list (string * node)) (t t1 : Z) :
  entryAt h (Directory_path d) = Ok (Dir ch t) ->
  validName n = true ->
  assoc n ch = Some (Dir ch1 t1) ->
  let p := Path.join (Directory_path d) n in
  exists s h2 names,
    Directory_subdir d n h = (Return (Some s), withCall h (CallStat p))
    /\ Directory_delete s (withCall h (CallStat p)) = (Return tt, h2)
    /\ Directory_subdir d n h2 = (Return None, withCall h2 (CallStat p))
    /\ (forall m, validName m = true ->
          entryAt h2 (Path.join (Directory_path s) m) = Err ENOENT)
    /\ Directory_entryNames d h2
       = (Return names, withCall h2 (CallReaddir (Directory_path d)))
    /\ (forall k, In k names <-> In k (map fst ch) /\ k <> n)
    /\ (forall n', validName n' = true -> n' <> n ->
          entryAt h2 (Path.join (Directory_path d) n')
          = entryAt h (Path.join (Directory_path d) n'))
    /\ Directory_delete s h2
       = (Throw (ErrnoException ENOENT "rm" (Directory_path s)), h2).
Proof.
  intros Hd Hn Hc p.
  pose proof (entryAt_child h _ n ch t Hn Hd) as Hp. rewrite Hc in Hp. fold p in Hp.
  destruct (alter_child_none h _ ch t Hd n rmNode) as (ch' & Ha & Hl).
  { now rewrite Hc. }
  destruct (removed_child h _ ch t Hd ch' [CallStat p] n Hl Hn) as (Hgone & Hsib & Hbelow).
  fold p in Hgone.
  set (h2 := {| tree := ch'; cwd := cwd h; clock := clock h; mime := mime h;
                calls := calls h ++ [CallStat p] |}) in *.
  set (s := {| d_path := Path.resolve (process_cwd h) p |}).
  assert (Hs : address h (Directory_path s) = address h (Directory_path d) ++ [n]).
  { unfold s, Directory_path at 1. cbn [d_path]. rewrite address_resolve.
    now apply address_join. }
  exists s, h2, (map fst (removeChild n ch)).
  split; [|split; [|split; [|split; [|split; [|split; [|split]]]]]].
  - unfold Directory_subdir, tryCatch, bind. fold p.
    rewrite (statSync_eq h p), Hp. reflexivity.
  - unfold Directory_delete, rm.
    change (address (withCall h (CallStat p)) (Directory_path s))
      with (address h (Directory_path s)).
    change (root (withCall h (CallStat p))) with (root h).
    rewrite Hs, Ha. reflexivity.
  - unfold Directory_subdir, tryCatch, bind. fold p.
    rewrite (statSync_eq h2 p), Hgone. reflexivity.
  - intros m Hm. exact (Hbelow m (Directory_path s) Hm Hs).
  - apply (entryNames_eq _ (Directory_path d) (removeChild n ch) t); [exact Hl|reflexivity].
  - intros k. apply In_removeChild.
  - exact Hsib.
  - unfold Directory_delete, rm.
    change (address h2 (Directory_path s)) with (address h (Directory_path s)).
    change (root h2) with (Dir ch' 0).
    rewrite Hs.
    pose proof (alter_snoc (address h (Directory_path d)) n rmNode ch' 0 _ t Hl) as Hno.
    rewrite assoc_removeChild_same in Hno. cbn [rmNode] in Hno.
    now rewrite Hno.
Qed.

(** A witness of [Directory_delete_subtree]: [sub] of the fixtures. *)
Lemma Directory_delete_subtree_witness :
  exists s h2,
    Directory_subdir {| d_path := fixtures |} "sub" testHost
    = (Return (Some s), withCall testHost (CallStat (Path.join fixtures "sub")))
    /\ Directory_delete s (withCall testHost (CallStat (Path.join fixtures "sub")))
       = (Return tt, h2)
    /\ evalIO (Directory_entryNames {| d_path := fixtures |}) h2
       = Some ["a.txt"; "b.txt"; "c.txt"; "sub2"].
Proof.
  destruct (Directory_delete_subtree testHost {| d_path := fixtures |} "sub"
              _ [] 1 1 eq_refl eq_refl eq_refl)
    as (s & h2 & names & H1 & H2 & _).
  exists s, h2. split; [exact H1|]. split; [exact H2|].
  inversion H1; subst s. inversion H2; subst h2. reflexivity.
Defined.

(** X6: [remove(file)] unlinks the entry of this directory that has the
    name of [file]: a [File] argument contributes its [name] only, whatever
    its own path.  In a directory with entries [ch]: no entry of that name
    rejects with the not-found error of [unlink], a subdirectory of that
    name rejects with [EISDIR], and in both cases nothing changes; any other
    entry is removed, after which [file(name)] is [null] and every other
    entry of the directory is the entry it was. *)
Theorem Directory_remove_entry (h : host) (d : Directory) (f : File)
  (ch : list (string * node)) (t : Z) :
  entryAt h (Directory_path d) = Ok (Dir ch t) ->
  validName (File_name f) = true ->
  let n := File_name f in
  let p := Path.join (Directory_path d) n in
  Directory_remove d (inr f) h = Directory_remove d (inl n) h
  /\ match assoc n ch with
     | None => Directory_remove d (inl n) h = (Throw (ErrnoException ENOENT "unlink" p), h)
     | Some c =>
         if isDir c
         then Directory_remove d (inl n) h = (Throw (ErrnoException EISDIR "unlink" p), h)
         else exists h',
                Directory_remove d (inl n) h = (Return tt, h')
                /\ Directory_file d n h' = (Return None, withCall h' (CallStat p))
                /\ (forall n', validName n' = true -> n' <> n ->
                      entryAt h' (Path.join (Directory_path d) n')
                      = entryAt h (Path.join (Directory_path d) n'))
                /\ calls h' = calls h
     end.
Proof.
  intros Hd Hn n p. split; [reflexivity|].
  pose proof (entryAt_child h _ n ch t Hn Hd) as Hp. fold p in Hp.
  assert (Haddr : address h p = address h (Directory_path d) ++ [n])
    by now apply address_join.
  pose proof (alter_snoc (address h (Directory_path d)) n unlinkNode (tree h) 0 ch t Hd)
    as Hsn.
  unfold Directory_remove, deleteFile, unlink. fold p. rewrite Haddr. unfold root.
  destruct (assoc n ch) as [c|] eqn:Hc.
  - destruct (isDir c) eqn:Hk.
    + destruct (isDir_Dir c Hk) as (ch1 & t1 & ->). cbn [unlinkNode] in Hsn.
      now rewrite Hsn.
    + assert (Hu : unlinkNode (Some c) = Ok None)
        by (destruct c; try reflexivity; discriminate Hk).
      rewrite Hu in Hsn. destruct Hsn as (ch' & Ha & Hl). rewrite Ha.
      destruct (removed_child h _ ch t Hd ch' [] n Hl Hn) as (Hgone & Hsib & _).
      fold p in Hgone.
      eexists. split; [reflexivity|]. split; [|split; [|reflexivity]].
      * unfold Directory_file, tryCatch, bind. fold p. rewrite statSync_eq.
        replace (entryAt (withRoot h (Dir ch' 0)) p) with (Err (A := node) ENOENT)
          by (symmetry; exact Hgone).
        reflexivity.
      * intros n' Hn' Hne. exact (Hsib n' Hn' Hne).
  - cbn [unlinkNode] in Hsn. now rewrite Hsn.
Qed.

(** A witness of [Directory_remove_entry]: a handle for [/pkg/a.txt], which
    does not exist, removes [a.txt] of the fixtures. *)
Lemma Directory_remove_entry_witness :
  exists f h',
    File_new (BlobParts []) "/pkg/a.txt" None testHost = (Return f, testHost)
    /\ Directory_remove {| d_path := fixtures |} (inr f) testHost = (Return tt, h')
    /\ entryAt h' (Path.join fixtures "a.txt") = Err ENOENT
    /\ Directory_remove {| d_path := fixtures |} (inl "sub") testHost
       = (Throw (ErrnoException EISDIR "unlink" (Path.join fixtures "sub")), testHost).
Proof.
  eexists. eexists. split; [reflexivity|].
  split; [|split].
  - match goal with
    | |- Directory_remove ?d (inr ?f) _ = _ =>
        destruct (Directory_remove_entry testHost d f _ 1 eq_refl eq_refl) as [-> _]
    end.
    reflexivity.
  - reflexivity.
  - reflexivity.
Defined.

(** X7: writing a file into a directory that has no entry of its name, and
    then removing the handle [write] returned from that directory, leaves
    the tree as it was: the same names, kinds and files.  In between, the
    entry holds the bytes of the source, and the handle returned has the
    name of the source and the size of what was written. *)
Theorem write_then_remove (h : host) (d : Directory) (f : File)
  (ch : list (string * node)) (t : Z) :
  entryAt h (Directory_path d) = Ok (Dir ch t) ->
  validName (File_name f) = true ->
  assoc (File_name f) ch = None ->
  let dest := Path.join (Directory_path d) (File_name f) in
  exists h0,
    createWriteStream dest h = (Return tt, h0)
    /\ forall bs h0',
         File_bytes f h0 = (Return bs, h0') ->
         exists f' h1 h2,
           Directory_write d f h = (Return (Some f'), h1)
           /\ entryAt h1 dest = Ok (RegFile bs (clock h))
           /\ File_name f' = File_name f
           /\ File_size f' = Z.of_nat (List.length bs)
           /\ Directory_remove d (inr f') h1 = (Return tt, h2)
           /\ untimed (root h2) = untimed (root h)
           /\ entryAt h2 dest = Err ENOENT.
Proof.
  intros Hd Hn Hnew dest.
  set (n := File_name f) in *.
  set (par := address h (Directory_path d)).
  assert (Haddr : address h dest = par ++ [n]) by now apply address_join.
  assert (Hmiss : entryAt h dest = Err ENOENT).
  { unfold dest. rewrite (entryAt_child h _ n ch t Hn Hd). now rewrite Hnew. }
  destruct (alter_twice par n (putFile [] (clock h)) (RegFile [] (clock h))
              (tree h) 0 ch t Hd) as (ch1 & Ha1 & Hv1 & Hg1).
  { now rewrite Hnew. }
  eexists. split.
  { unfold createWriteStream. rewrite Haddr. unfold root. rewrite Ha1. reflexivity. }
  intros bs h0' Hb.
  destruct (File_bytes_same _ _ _ _ Hb) as [Ht0 (Hcwd & Hclock & Hmime)].
  cbn [tree cwd clock mime withRoot] in Ht0, Hcwd, Hclock, Hmime.
  destruct (alter_twice par n (fun _ => Ok (Some (RegFile bs (clock h))))
              (RegFile bs (clock h)) (tree h) 0 ch t Hd eq_refl)
    as (ch2 & Ha2 & Hv2 & Hg2).
  assert (Hw : writeChunks dest bs h0'
               = (Return tt, withRoot h0' (Dir ch2 0))).
  { unfold writeChunks. rewrite (address_cwd h h0' dest Hcwd), Haddr.
    unfold root. rewrite Ht0, Hclock, Hg1. cbn [putFile]. now rewrite Ha2. }
  set (h1 := withRoot h0' (Dir ch2 0)) in *.
  assert (He1 : entryAt h1 dest = Ok (RegFile bs (clock h))).
  { unfold entryAt. rewrite (address_cwd h h1 dest Hcwd), Haddr. exact Hv2. }
  assert (Hname : Path.basename (Path.resolve (process_cwd h1) dest) = n).
  { unfold dest. now apply basename_join. }
  eexists. exists (withCall h1 (CallStat dest)). eexists.
  split; [|split; [|split; [|split; [|split; [|split]]]]].
  - unfold Directory_write, writeFile, bind, tryCatch, ret. fold n. fold dest.
    unfold createWriteStream. rewrite Haddr. unfold root at 1. rewrite Ha1.
    cbn [commit]. rewrite Hb, Hw.
    unfold Directory_file, tryCatch, bind. fold dest.
    rewrite (statSync_eq h1 dest), He1. reflexivity.
  - exact He1.
  - unfold File_name at 1. cbn [f_super lf_name LazyFile_new]. exact Hname.
  - reflexivity.
  - unfold Directory_remove, deleteFile, unlink, File_name.
    cbn [f_super lf_name LazyFile_new].
    change (process_cwd (withCall h1 (CallStat dest))) with (process_cwd h1).
    rewrite Hname. fold dest.
    change (address (withCall h1 (CallStat dest)) dest) with (address h1 dest).
    rewrite (address_cwd h h1 dest Hcwd), Haddr.
    change (root (withCall h1 (CallStat dest))) with (Dir ch2 0).
    rewrite Hg2. cbn [unlinkNode].
    rewrite (alter_remove_absent par n (tree h) 0 ch t Hd Hnew).
    reflexivity.
  - reflexivity.
  - unfold entryAt. cbn [tree cwd root withRoot withCall].
    match goal with
    | |- lookup (address ?x dest) _ = _ =>
        rewrite (address_cwd h x dest Hcwd)
    end.
    exact Hmiss.
Qed.

(** A witness of [write_then_remove]: a file made in memory, written into
    the fixtures and removed again. *)
Lemma write_then_remove_witness :
  exists f f' h1 h2,
    File_new (BlobParts [BytesPart (list_byte_of_string "hello")]) "/tmp/hello.txt" None
      testHost = (Return f, testHost)
    /\ Directory_write {| d_path := fixtures |} f testHost = (Return (Some f'), h1)
    /\ entryAt h1 (Path.join fixtures "hello.txt")
       = Ok (RegFile (list_byte_of_string "hello") 1000)
    /\ Directory_remove {| d_path := fixtures |} (inr f') h1 = (Return tt, h2)
    /\ untimed (root h2) = untimed (root testHost).
Proof.
  eexists.
  match goal with
  | |- exists f' h1 h2, File_new ?c ?nm None testHost = (Return ?f, testHost) /\ _ =>
      destruct (write_then_remove testHost {| d_path := fixtures |}
                  {| f_super := LazyFile_new c (Path.basename (Path.resolve (process_cwd testHost) nm))
                                  None None 1000;
                     f_path := Path.resolve (process_cwd testHost) nm |}
                  _ 1 eq_refl eq_refl eq_refl) as (h0 & Hc & H)
  end.
  inversion Hc; subst h0.
  destruct (H (list_byte_of_string "hello") _ eq_refl)
    as (f' & h1 & h2 & H1 & H2 & _ & _ & H3 & H4 & _).
  exists f', h1, h2.
  split; [reflexivity|]. split; [exact H1|]. split; [exact H2|]. split; [exact H3|exact H4].
Defined.

(** X8: what [save()] does is decided by the one [stat] of the parent
    directory of the handle.  When the parent is a directory, [save()] is
    [write] into it and no directory is made; when the parent is an entry
    of another kind, [save()] rejects with [Path "dirname" is not a
    directory] and nothing is written; when nothing stands there, the
    parent is made first; any other failure of the [stat] is the failure of
    [save()]. *)
Theorem save_by_parent (h0 h : host) (c0 : content) (name0 : string)
  (props : option FilePropertyBag) :
  exists f,
    File_new c0 name0 props h0 = (Return f, h0)
    /\ let dir := File_dirname f in
       let h1 := withCall h (CallStat dir) in
       match entryAt h dir with
       | Ok m =>
           if isDir m
           then File_save f h = Directory_write {| d_path := dir |} f h1
           else File_save f h
                = (Throw (JsError ("Path " +++ dq +++ dir +++ dq +++ " is not a directory")),
                   h1)
                /\ tree h1 = tree h
       | Err ENOENT =>
           exists h2, mkdirSync dir h1 = (Return tt, h2)
                      /\ File_save f h
                         = Directory_write {| d_path := dir |} f (withCall h2 (CallStat dir))
       | Err e => File_save f h = (Throw (ErrnoException e "stat" dir), h1)
       end.
Proof.
  eexists. split; [reflexivity|].
  unfold File_dirname, File_path. cbn [f_path].
  set (dir := Path.dirname (Path.resolve (process_cwd h0) name0)).
  assert (Hres : forall x, Path.resolve (process_cwd x) dir = dir).
  { intros x. unfold dir. rewrite (resolve_eq h0 name0).
    rewrite dirname_of_resolved by apply address_valid.
    apply resolve_of_valid, Forall_removelast, address_valid. }
  cbv zeta. unfold File_save, bind, File_dirname, File_path. cbn [f_path]. fold dir.
  rewrite open_eq.
  destruct (entryAt h dir) as [m|e] eqn:Hm.
  - destruct (isDir m); [now rewrite Hres|]. split; reflexivity.
  - destruct e; try reflexivity.
    cbn [autoCreateOf].
    destruct (mkdirSync_enoent (withCall h (CallStat dir)) dir Hm)
      as (h2 & Hmk & He & Hsp & _).
    exists h2. split; [exact Hmk|].
    unfold bind. rewrite Hmk, (statSync_eq h2 dir), He.
    cbn [negb st_isDirectory statsOf st_kind kindOf kind_eqb].
    unfold Directory_new. now rewrite Hres.
Qed.

(** A witness of [save_by_parent]: a file for [/pkg/src/test/fixtures/a.txt/x],
    whose parent is a regular file. *)
Lemma save_by_parent_witness :
  exists f,
    File_new (BlobParts []) (Path.join fixtures "a.txt/x") None testHost
    = (Return f, testHost)
    /\ File_save f testHost
       = (Throw (JsError ("Path " +++ dq +++ "/pkg/src/test/fixtures/a.txt" +++ dq
                          +++ " is not a directory")),
          withCall testHost (CallStat "/pkg/src/test/fixtures/a.txt")).
Proof.
  destruct (save_by_parent testHost testHost (BlobParts []) (Path.join fixtures "a.txt/x") None)
    as (f & Hf & H).
  exists f. split; [exact Hf|].
  inversion Hf; subst f. exact (proj1 H).
Defined.

(** X9: the handle a directory gives for one of its entries leads back to
    it.  For a handle [d] made by the constructor and a valid entry name
    [n]: whenever [d.subdir(n)] or [d.file(n)] returns a handle, its [name]
    is [n], its [dirname] is the path of [d], its [path] is
    [join(d.path, n)], and its [dir] is [d]. *)
Theorem child_leads_back (h0 h h' : host) (name n : string) :
  validName n = true ->
  exists d,
    Directory_new name h0 = (Return d, h0)
    /\ (forall s h1, Directory_subdir d n h = (Return (Some s), h1) ->
          Directory_name s = n
          /\ Directory_dirname s = Directory_path d
          /\ Directory_path s = Path.join (Directory_path d) n
          /\ Directory_dir s h' = (Return d, h'))
    /\ (forall f h1, Directory_file d n h = (Return (Some f), h1) ->
          File_name f = n
          /\ File_dirname f = Directory_path d
          /\ File_path f = Path.join (Directory_path d) n
          /\ File_dir f h' = (Return d, h')).
Proof.
  intros Hn. eexists. split; [reflexivity|].
  cbn [Directory_path d_path].
  rewrite resolve_eq.
  pose proof (address_valid h0 name) as Hv.
  set (l := address h0 name) in *.
  set (D := "/" +++ Path.unsegments l).
  assert (Hj : Path.join D n = "/" +++ Path.unsegments (l ++ [n]))
    by now apply join_resolved.
  assert (Hvn : Forall (fun s => validName s = true) (l ++ [n])).
  { apply Forall_app. split; [assumption|]. now constructor. }
  assert (Hr : forall x, Path.resolve (process_cwd x) (Path.join D n) = Path.join D n).
  { intros x. rewrite Hj. now apply resolve_of_valid. }
  assert (Hb : Path.basename (Path.join D n) = n).
  { rewrite Hj, basename_resolved by assumption. apply last_last. }
  assert (Hdn : Path.dirname (Path.join D n) = D).
  { rewrite Hj. now apply dirname_resolved. }
  assert (Hrd : forall x, Path.resolve (process_cwd x) D = D).
  { intros x. now apply resolve_of_valid. }
  split.
  - intros s h1. unfold Directory_subdir, tryCatch, bind. cbn [Directory_path d_path].
    fold D. rewrite statSync_eq.
    destruct (entryAt h (Path.join D n)) as [m|e].
    + destruct (st_isDirectory (statsOf m)); [|discriminate].
      unfold Directory_new, ret. rewrite Hr. intros H. inversion H; subst s.
      unfold Directory_name, Directory_dirname, Directory_dir, Directory_dirname,
        Directory_new, Directory_path. cbn [d_path].
      rewrite Hb, Hdn, Hrd. repeat split.
    + destruct (isNoEntityError (ErrnoException e "stat" (Path.join D n))); discriminate.
  - intros f h1. unfold Directory_file, tryCatch, bind. cbn [Directory_path d_path].
    fold D. rewrite statSync_eq.
    destruct (entryAt h (Path.join D n)) as [m|e].
    + destruct (st_isFile (statsOf m)); [|discriminate].
      unfold createFile, File_new, ret. rewrite Hr. intros H. inversion H; subst f.
      unfold File_name, File_dirname, File_dir, File_dirname, Directory_new, File_path.
      cbn [f_path f_super lf_name LazyFile_new].
      rewrite Hb, Hdn, Hrd. repeat split.
    + destruct (isNoEntityError (ErrnoException e "stat" (Path.join D n))); discriminate.
Qed.

(** A witness of [child_leads_back]: the fixtures, opened by a relative
    name, and its entries [sub] and [a.txt]. *)
Lemma child_leads_back_witness :
  exists d s f h1 h2,
    Directory_new "src/test/fixtures" testHost = (Return d, testHost)
    /\ Directory_subdir d "sub" testHost = (Return (Some s), h1)
    /\ Directory_dir s testHost = (Return d, testHost)
    /\ Directory_file d "a.txt" testHost = (Return (Some f), h2)
    /\ File_dir f testHost = (Return d, testHost).
Proof.
  destruct (child_leads_back testHost testHost testHost "src/test/fixtures" "sub" eq_refl)
    as (d & Hd & Hs & _).
  destruct (child_leads_back testHost testHost testHost "src/test/fixtures" "a.txt" eq_refl)
    as (d' & Hd' & _ & Hf).
  inversion Hd; subst d. inversion Hd'; subst d'.
  do 5 eexists. split; [reflexivity|].
  split; [reflexivity|]. split; [apply (Hs _ _ eq_refl)|].
  split; [reflexivity|]. apply (Hf _ _ eq_refl).
Defined.

(** X10: walking up with [dir] ends at the root and stays there.  From a
    handle made by the constructor for a path of [k] segments, [k] steps of
    [dir] lead to the handle of [/], whose [dir] is itself and whose [name]
    is empty; more steps change nothing. *)
Theorem ancestors_reach_root (h0 h : host) (name : string) (k : nat) :
  (depth h0 name <= k)%nat ->
  exists d,
    Directory_new name h0 = (Return d, h0)
    /\ ancestor k d h = (Return {| d_path := "/" |}, h)
    /\ Directory_dir {| d_path := "/" |} h = (Return {| d_path := "/" |}, h)
    /\ Directory_name {| d_path := "/" |} = EmptyString.
Proof.
  intros Hk. eexists. split; [reflexivity|]. split; [|split; [|reflexivity]].
  - rewrite resolve_eq. unfold depth in Hk.
    pose proof (address_valid h0 name) as Hv.
    revert Hk Hv. generalize (address h0 name) as l. clear name.
    induction k as [|k IH]; intros l Hk Hv.
    + destruct l; [reflexivity|inversion Hk].
    + cbn [ancestor]. unfold bind. rewrite Directory_dir_resolved by assumption.
      apply IH; [|now apply Forall_removelast].
      destruct (list_snoc_cases l) as [->|(par & n & ->)]; [simpl; lia|].
      rewrite removelast_last. rewrite length_app in Hk. simpl in Hk. lia.
  - exact (Directory_dir_resolved h [] (Forall_nil _)).
Qed.

(** A witness of [ancestors_reach_root]: four steps up from the fixtures. *)
Lemma ancestors_reach_root_witness :
  exists d,
    Directory_new fixtures testHost = (Return d, testHost)
    /\ ancestor 4 d testHost = (Return {| d_path := "/" |}, testHost).
Proof.
  destruct (ancestors_reach_root testHost testHost fixtures 4) as (d & H1 & H2 & _).
  - unfold depth. simpl. lia.
  - exists d. split; [exact H1|exact H2].
Defined.



(** X12: a generator made by [files] or [subdirs] reads the directory at
    its first [next()], not when it is made.  When the path of the handle
    then leads to nothing, or to an entry that is not a directory, that
    first [next()] throws the error of [readdir], the generator is
    finished, and every later [next()] answers that it is done without
    touching the host; [Array.from] throws the same error. *)
Theorem generator_start_failure (h : host) (d : Directory) (pattern : option RegExp)
  (failure : errno) :
  match entryAt h (Directory_path d) with
  | Err e => e = failure
  | Ok m => isDir m = false /\ failure = ENOTDIR
  end ->
  let p := Directory_path d in
  let h1 := withCall h (CallReaddir p) in
  let fs := Directory_files d pattern in
  let ds := Directory_subdirs d pattern in
  files_next fs h = (Throw (ErrnoException failure "scandir" p), suspend fs GenDone, h1)
  /\ subdirs_next ds h = (Throw (ErrnoException failure "scandir" p), suspend ds GenDone, h1)
  /\ (forall h2, files_next (suspend fs GenDone) h2 = (Return Done, suspend fs GenDone, h2))
  /\ (forall h2, subdirs_next (suspend ds GenDone) h2 = (Return Done, suspend ds GenDone, h2))
  /\ (forall fuel, arrayFrom files_next (S fuel) fs h
                   = Some (Throw (ErrnoException failure "scandir" p), h1))
  /\ (forall fuel, arrayFrom subdirs_next (S fuel) ds h
                   = Some (Throw (ErrnoException failure "scandir" p), h1)).
Proof.
  intros Hfail p h1 fs ds. fold p in Hfail.
  assert (Hr : Directory_entries d h = (Throw (ErrnoException failure "scandir" p), h1)).
  { unfold Directory_entries. rewrite readdirSync_eq. fold p. fold h1.
    destruct (entryAt h p) as [m|e].
    - destruct Hfail as [Hk ->]. destruct m; try reflexivity. discriminate Hk.
    - now subst e. }
  assert (Hf : files_next fs h
               = (Throw (ErrnoException failure "scandir" p), suspend fs GenDone, h1)).
  { unfold files_next, fs. cbn [Directory_files gen_state gen_this]. now rewrite Hr. }
  assert (Hs : subdirs_next ds h
               = (Throw (ErrnoException failure "scandir" p), suspend ds GenDone, h1)).
  { unfold subdirs_next, ds. cbn [Directory_subdirs gen_state gen_this]. now rewrite Hr. }
  split; [exact Hf|]. split; [exact Hs|].
  split; [reflexivity|]. split; [reflexivity|].
  split; intros fuel; cbn [arrayFrom]; [now rewrite Hf|now rewrite Hs].
Qed.

(** A witness of [generator_start_failure]: a handle for a path that leads
    to nothing, and a handle for [a.txt]. *)
Lemma generator_start_failure_witness :
  arrayFrom files_next 1 (Directory_files {| d_path := "/pkg/none" |} None) testHost
  = Some (Throw (ErrnoException ENOENT "scandir" "/pkg/none"),
          withCall testHost (CallReaddir "/pkg/none"))
  /\ arrayFrom subdirs_next 1
       (Directory_subdirs {| d_path := Path.join fixtures "a.txt" |} None) testHost
     = Some (Throw (ErrnoException ENOTDIR "scandir" (Path.join fixtures "a.txt")),
             withCall testHost (CallReaddir (Path.join fixtures "a.txt"))).
Proof.
  split.
  - apply (generator_start_failure testHost {| d_path := "/pkg/none" |} None ENOENT).
    reflexivity.
  - apply (generator_start_failure testHost {| d_path := Path.join fixtures "a.txt" |}
             None ENOTDIR).
    split; reflexivity.
Defined.

(** X13: [readFile(filename, start, end)] asks the host for the positions
    [start] to [end - 1] inclusive and delivers the bytes of the file at
    the positions [start <= i < end]: the bound [end] is exclusive.  Two
    windows that touch deliver, one after the other, what the window of
    their union delivers, with no byte read twice and none left out; a
    window never delivers more than its length, and what lies past the end
    of the file is cut off.  Without an [end], the file is read to its
    end. *)
Theorem readFile_adjacent_windows (h : host) (fn : string) (bs : list Byte.byte)
  (t a b c : Z) :
  entryAt h fn = Ok (RegFile bs t) ->
  (0 <= a < b)%Z -> (b < c)%Z ->
  let window (x y : Z) := firstn (Z.to_nat y - Z.to_nat x) (skipn (Z.to_nat x) bs) in
  let size := Z.of_nat (List.length bs) in
  readFile fn (Some a) (Some b) h
  = (Return (window a b), withCall h (CallRead fn (Some a) (Some (b - 1)%Z)))
  /\ readFile fn (Some b) (Some c) h
     = (Return (window b c), withCall h (CallRead fn (Some b) (Some (c - 1)%Z)))
  /\ readFile fn (Some a) (Some c) h
     = (Return (window a b ++ window b c),
        withCall h (CallRead fn (Some a) (Some (c - 1)%Z)))
  /\ Z.of_nat (List.length (window a b)) = (Z.min b size - Z.min a size)%Z
  /\ readFile fn (Some a) None h
     = (Return (skipn (Z.to_nat a) bs), withCall h (CallRead fn (Some a) None)).
Proof.
  intros He Hab Hbc window size.
  split; [apply (readFile_eq h fn bs t a b He); lia|].
  split; [apply (readFile_eq h fn bs t b c He); lia|].
  split; [|split].
  - rewrite (readFile_eq h fn bs t a c He) by lia.
    unfold window. now rewrite (windows_adjacent (Z.to_nat a) (Z.to_nat b) (Z.to_nat c)) by lia.
  - unfold window, size. rewrite length_firstn, length_skipn. lia.
  - apply (readFile_rest h fn bs t a He). lia.
Qed.

(** A witness of [readFile_adjacent_windows]: [a.txt] of the fixtures, cut
    at 5 and read up to 40, past its end. *)
Lemma readFile_adjacent_windows_witness :
  evalIO (readFile (Path.join fixtures "a.txt") (Some 0%Z) (Some 5%Z)) testHost
  = Some (list_byte_of_string "This ")
  /\ evalIO (readFile (Path.join fixtures "a.txt") (Some 5%Z) (Some 40%Z)) testHost
     = Some (list_byte_of_string ("is file a." +++ newline))
  /\ evalIO (readFile (Path.join fixtures "a.txt") (Some 0%Z) (Some 40%Z)) testHost
     = Some (list_byte_of_string ("This is file a." +++ newline)).
Proof.
  destruct (readFile_adjacent_windows testHost (Path.join fixtures "a.txt") _ 1 0 5 40
              eq_refl) as (H1 & H2 & H3 & _); [lia|lia|].
  unfold evalIO. rewrite H1, H2, H3. repeat split.
Defined.

(** X14: the constructor of [FileBrowser] and [open] with the default
    options agree on every path and host: one returns exactly when the
    other does, they throw the same error, and they leave the same tree.
    They differ in what they keep: the browser keeps the directory name as
    it was given, the [Directory] handle keeps the resolved path. *)
Theorem browser_new_like_open (h : host) (p : string) :
  match open p None h, FileBrowser.new p h with
  | (Return d, h1), (Return b, h2) =>
      FileBrowser.directory b = p
      /\ Directory_path d = Path.resolve (process_cwd h) p
      /\ tree h1 = tree h2
      /\ (exists ch t, entryAt h2 p = Ok (Dir ch t))
  | (Throw e1, h1), (Throw e2, h2) => e1 = e2 /\ tree h1 = tree h2
  | _, _ => False
  end.
Proof.
  rewrite open_eq. unfold FileBrowser.new, bind, tryCatch. rewrite (statSync_eq h p).
  destruct (entryAt h p) as [m|e] eqn:Hm.
  - unfold st_isDirectory, isDir. change (st_kind (statsOf m)) with (kindOf m).
    destruct (kind_eqb (kindOf m) KDirectory) eqn:Hk; cbn.
    + repeat split. destruct (isDir_Dir m Hk) as (ch & t & ->). eauto.
    + split; reflexivity.
  - destruct e; cbn [isNoEntityError negb autoCreateOf]; try (split; reflexivity).
    destruct (mkdirSync_enoent (withCall h (CallStat p)) p Hm)
      as (h2 & Hmk & He & Hsp & _).
    unfold bind. rewrite Hmk, (statSync_eq h2 p), He.
    cbn [negb st_isDirectory statsOf st_kind kindOf kind_eqb Directory_new ret
         FileBrowser.directory Directory_path d_path].
    split; [reflexivity|]. split; [|split; [reflexivity|eauto]].
    change (process_cwd (withCall h2 (CallStat p))) with (process_cwd h2).
    now rewrite (process_cwd_same _ _ Hsp).
Qed.

(** X15: [fileNames()] of a browser yields the name of every entry of its
    directory, directories included, in the order of the listing, and
    then ends; nothing is filtered and no [stat] is made.  When the
    directory of the browser is not there any more, the first [next()]
    throws the error of [opendir]. *)
Theorem browser_fileNames_all (h : host) (b : FileBrowser.t) (fuel : nat) :
  let dir := FileBrowser.directory b in
  (forall ch t,
     entryAt h dir = Ok (Dir ch t) ->
     (List.length ch < fuel)%nat ->
     forAwait fileNames_next fuel (FileBrowser_fileNames b) h
     = Some (Return (map fst ch), h))
  /\ (forall e,
        entryAt h dir = Err e ->
        forAwait fileNames_next (S fuel) (FileBrowser_fileNames b) h
        = Some (Throw (ErrnoException e "opendir" dir), h)).
Proof.
  intros dir. split.
  - intros ch t Hd Hfuel. destruct fuel as [|fuel]; [inversion Hfuel|].
    rewrite (forAwait_start fileNames_next fuel (FileBrowser_fileNames b)
               (namesSuspend (FileBrowser_fileNames b) (GenLoop (map direntOf ch))) h h).
    + rewrite fileNames_run by now rewrite length_map.
      now rewrite map_map.
    + rewrite fileNames_next_start. now rewrite (opendir_eq b h ch t Hd).
  - intros e He. cbn [forAwait]. rewrite fileNames_next_start.
    now rewrite (opendir_err b h e He).
Qed.

(** A witness of [browser_fileNames_all]: the fixtures. *)
Lemma browser_fileNames_all_witness :
  forAwait fileNames_next 6 (FileBrowser_fileNames {| FileBrowser.directory := fixtures |})
    testHost
  = Some (Return ["a.txt"; "b.txt"; "c.txt"; "sub"; "sub2"], testHost).
Proof.
  destruct (browser_fileNames_all testHost {| FileBrowser.directory := fixtures |} 6)
    as [H _].
  apply (H _ 1%Z eq_refl). simpl. lia.
Defined.

(** X16: [files()] of a browser yields one value for every entry the
    listing of its directory shows, in the order of the listing, and makes
    one [stat] for each.  For an entry that is no symbolic link the value
    is a handle, whatever the kind of the entry: the handle of a directory
    says [isDirectory], the handle of a regular file says [isFile], and
    each carries the name of its entry.  For a symbolic link whose target
    is missing the value is [null], yielded under the type [File]. *)
Theorem browser_files_all (links : list (list string)) (h : host) (b : FileBrowser.t)
  (entries : list Dirent) (fuel : nat) :
  let dir := FileBrowser.directory b in
  fs_opendir (linkedFs links) dir h = (Return entries, h) ->
  Forall (fun e => validName (de_name e) = true) entries ->
  NoDup (map de_name entries) ->
  (List.length entries < fuel)%nat ->
  exists fs,
    forAwait (browserFiles_nextOn (linkedFs links)) fuel (FileBrowser_files b) h
    = Some (Return fs,
            withCalls h (map (fun e => CallStat (Path.join dir (de_name e))) entries))
    /\ map describe fs
       = map (fun e => if de_isSymbolicLink e then None
                       else Some (de_name e, de_isFile e, de_isDirectory e)) entries.
Proof.
  intros dir Hop Hv Hnd Hfuel. destruct fuel as [|fuel]; [inversion Hfuel|].
  destruct (linkedFiles_run links b h entries Hop Hnd (FileBrowser_files b)
              (FileBrowser_fileNames b) entries eq_refl)
    with (fuel := S fuel) (h1 := h) as (fs & Hrun & Hfs);
    try reflexivity; try assumption.
  { apply Forall_forall. intros e Hin. split; [exact Hin|].
    exact (proj1 (Forall_forall _ _) Hv _ Hin). }
  exists fs. split; [|exact Hfs].
  unfold dir. rewrite <- Hrun. apply forAwait_start.
  unfold browserFiles_nextOn. cbn [FileBrowser_files filesSuspend fg_state fg_this].
  unfold browserFilesLoopOn, fileNames_nextOn.
  cbn [FileBrowser_fileNames namesSuspend ng_state ng_this].
  fold dir. now rewrite Hop.
Qed.

(** A witness of [browser_files_all]: the fixtures with a symbolic link
    [ghost] whose target is missing; [sub] and [sub2] are handed out as
    well, and [ghost] is [null]. *)
Lemma browser_files_all_witness :
  let links := [["pkg"; "src"; "test"; "fixtures"; "ghost"]] in
  exists fs hf,
    forAwait (browserFiles_nextOn (linkedFs links)) 7
      (FileBrowser_files {| FileBrowser.directory := fixtures |}) testHost
    = Some (Return fs, hf)
    /\ map describe fs
       = [Some ("a.txt", true, false); Some ("b.txt", true, false);
          Some ("c.txt", true, false); Some ("sub", false, true);
          Some ("sub2", false, true); None].
Proof.
  intros links.
  destruct (browser_files_all links testHost {| FileBrowser.directory := fixtures |} _ 7
              eq_refl)
    as (fs & H1 & H2).
  - repeat constructor.
  - repeat constructor; simpl; intuition discriminate.
  - simpl. lia.
  - exists fs. eexists. split; [exact H1|exact H2].
Defined.

(** X17: inside the loop of [files()] of a browser, [next()] yields what
    [get] answers for the next name of the listing, as the host is by
    then.  When the entry has been removed since the directory was opened,
    [get] answers [null] and [null] is what is yielded, under the type
    [File]: the entry is not skipped and the generator goes on.  When the
    [stat] fails otherwise, [next()] throws that error and the generator is
    finished.  When an entry stands there, the handle carries the kind the
    [stat] finds, not the kind the listing had. *)
Theorem browser_files_vanished (h1 : host) (g : FilesGenerator) (ng : NamesGenerator)
  (entry : Dirent) (rest : list Dirent) :
  let file := Path.join (FileBrowser.directory (fg_this g)) (de_name entry) in
  let h2 := withCall h1 (CallStat file) in
  let here := filesSuspend g (BrowseLoop (namesSuspend ng (GenLoop (entry :: rest)))) in
  let later := filesSuspend g (BrowseLoop (namesSuspend ng (GenLoop rest))) in
  match entryAt h1 file with
  | Err ENOENT => browserFiles_next here h1 = (Return (Yield None), later, h2)
  | Err e =>
      browserFiles_next here h1
      = (Throw (ErrnoException e "stat" file), filesSuspend g BrowseDone, h2)
  | Ok m =>
      exists f,
        browserFiles_next here h1 = (Return (Yield (Some f)), later, h2)
        /\ describe (Some f) = Some (de_name entry, kind_eqb (kindOf m) KFile, isDir m)
  end.
Proof.
  intros file h2 here later. unfold here.
  rewrite (browserFiles_next_loop (fg_this g) g ng entry rest h1 eq_refl).
  pose proof (browser_get_eq (fg_this g) (de_name entry) h1) as Hg.
  cbv zeta in Hg. fold file in Hg. fold h2 in Hg.
  destruct (entryAt h1 file) as [m|e].
  - destruct Hg as (f & Hg & Hdesc). exists f. now rewrite Hg.
  - destruct e; now rewrite Hg.
Qed.

(** X18: the [openFile(name)] of the first revision kept in [open.ts] is
    the [openFile(name, { autoCreate: false })] of the second one, in every
    host: it never changes the tree, and the two revisions differ only
    where nothing stands at the path, where the first throws
    [File "name" does not exist]; with any options, the second agrees with
    the first wherever an entry is found or the [stat] fails otherwise. *)
Theorem openFile_rev1_never_creates (h : host) (p : string) :
  openFile_rev1 p h = openFile p (Some {| autoCreate := Some false |}) h
  /\ tree (snd (openFile_rev1 p h)) = tree h
  /\ (forall o, entryAt h p <> Err ENOENT -> openFile_rev1 p h = openFile p o h)
  /\ (entryAt h p = Err ENOENT ->
      openFile_rev1 p h
      = (Throw (JsError ("File " +++ dq +++ p +++ dq +++ " does not exist")),
         withCall h (CallStat p))).
Proof.
  assert (Hrev : openFile_rev1 p h = openFile p (Some {| autoCreate := Some false |}) h)
    by reflexivity.
  split; [exact Hrev|]. rewrite Hrev, !openFile_eq.
  split; [|split].
  - destruct (entryAt h p) as [m|e].
    + now destruct (kind_eqb (kindOf m) KFile).
    + now destruct e.
  - intros o Hne. rewrite openFile_eq.
    destruct (entryAt h p) as [m|e]; [reflexivity|].
    destruct e; try reflexivity. now contradiction Hne.
  - now intros ->.
Qed.

(** A witness of [openFile_rev1_never_creates]: [a.txt] of the fixtures is
    opened alike by both revisions, and a missing file is refused by the
    first. *)
Lemma openFile_rev1_never_creates_witness :
  openFile_rev1 (Path.join fixtures "a.txt") testHost
  = openFile (Path.join fixtures "a.txt") None testHost
  /\ openFile_rev1 "/pkg/none.txt" testHost
     = (Throw (JsError ("File " +++ dq +++ "/pkg/none.txt" +++ dq +++ " does not exist")),
        withCall testHost (CallStat "/pkg/none.txt")).
Proof.
  split.
  - apply (openFile_rev1_never_creates testHost (Path.join fixtures "a.txt")).
    discriminate.
  - apply (openFile_rev1_never_creates testHost "/pkg/none.txt"). reflexivity.
Defined.

(** X19: a failure of the first [stat] other than not-found, such as a
    regular file on the way to the path, is thrown as it is by [open], by
    [openFile] of both revisions and by the constructor of [FileBrowser],
    whatever the options: it is not turned into a does-not-exist error, and
    nothing is created. *)
Theorem stat_failure_rethrown (h : host) (p : string) (o : option OpenOptions)
  (e : errno) :
  entryAt h p = Err e ->
  e <> ENOENT ->
  let failed {A : Type} : outcome A * host :=
    (Throw (ErrnoException e "stat" p), withCall h (CallStat p)) in
  open p o h = failed
  /\ openFile p o h = failed
  /\ openFile_rev1 p h = failed
  /\ FileBrowser.new p h = failed
  /\ tree (withCall h (CallStat p)) = tree h.
Proof.
  intros He Hne failed.
  split; [|split; [|split; [|split; [|reflexivity]]]].
  - rewrite open_eq, He. now destruct e.
  - rewrite openFile_eq, He. now destruct e.
  - change (openFile_rev1 p h) with (openFile p (Some {| autoCreate := Some false |}) h).
    rewrite openFile_eq, He. now destruct e.
  - unfold FileBrowser.new, bind, tryCatch. rewrite (statSync_eq h p), He.
    now destruct e.
Qed.

(** A witness of [stat_failure_rethrown]: a path through [a.txt] of the
    fixtures. *)
Lemma stat_failure_rethrown_witness :
  open (Path.join fixtures "a.txt/x") None testHost
  = (Throw (ErrnoException ENOTDIR "stat" "/pkg/src/test/fixtures/a.txt/x"),
     withCall testHost (CallStat "/pkg/src/test/fixtures/a.txt/x"))
  /\ FileBrowser.new (Path.join fixtures "a.txt/x") testHost
     = (Throw (ErrnoException ENOTDIR "stat" "/pkg/src/test/fixtures/a.txt/x"),
        withCall testHost (CallStat "/pkg/src/test/fixtures/a.txt/x")).
Proof.
  destruct (stat_failure_rethrown testHost (Path.join fixtures "a.txt/x") None ENOTDIR
              eq_refl) as (H1 & _ & _ & H2 & _); [discriminate|].
  split; [exact H1|exact H2].
Defined.

(** X20: the lookups of a directory handle are the resolvers without the
    permission to create, with [null] in the place of their own errors.
    For every handle [d] and name [n], with [q = join(d.path, n)]:
    [d.file(n)] returns the handle [openFile(q, { autoCreate: false })]
    returns, answers [null] where that call throws one of its own errors
    (nothing there, or not a regular file), and throws what it throws
    otherwise; likewise [d.subdir(n)] and [open(q, { autoCreate: false })].
    The host is left the same by both. *)
Theorem lookup_like_resolver (h : host) (d : Directory) (n : string) :
  let q := Path.join (Directory_path d) n in
  let never := Some {| autoCreate := Some false |} in
  match openFile q never h with
  | (Return f, h') => Directory_file d n h = (Return (Some f), h')
  | (Throw (JsError _), h') => Directory_file d n h = (Return None, h')
  | (Throw e, h') => Directory_file d n h = (Throw e, h')
  end
  /\ match open q never h with
     | (Return s, h') => Directory_subdir d n h = (Return (Some s), h')
     | (Throw (JsError _), h') => Directory_subdir d n h = (Return None, h')
     | (Throw e, h') => Directory_subdir d n h = (Throw e, h')
     end.
Proof.
  intros q never. unfold never. rewrite openFile_eq, open_eq.
  unfold Directory_file, Directory_subdir, tryCatch, bind. fold q.
  rewrite (statSync_eq h q).
  destruct (entryAt h q) as [m|e].
  - unfold st_isFile, st_isDirectory, isDir. change (st_kind (statsOf m)) with (kindOf m).
    split.
    + now destruct (kind_eqb (kindOf m) KFile).
    + now destruct (kind_eqb (kindOf m) KDirectory).
  - destruct e; split; reflexivity.
Qed.

(** X21: writing a file into a directory that already has a regular file
    of its name replaces what that file held: afterwards the entry holds
    the bytes of the source and nothing of the old content, also when the
    new content is shorter; the handle [write] returns has the size of
    what was written, and every other entry of the directory is the entry
    it was. *)
Theorem write_replaces_content (h : host) (d : Directory) (f : File)
  (ch : list (string * node)) (t : Z) (old : list Byte.byte) (t0 : Z) :
  entryAt h (Directory_path d) = Ok (Dir ch t) ->
  validName (File_name f) = true ->
  assoc (File_name f) ch = Some (RegFile old t0) ->
  let dest := Path.join (Directory_path d) (File_name f) in
  exists h0,
    createWriteStream dest h = (Return tt, h0)
    /\ forall bs h0',
         File_bytes f h0 = (Return bs, h0') ->
         exists f' h1,
           Directory_write d f h = (Return (Some f'), h1)
           /\ entryAt h1 dest = Ok (RegFile bs (clock h))
           /\ File_name f' = File_name f
           /\ File_size f' = Z.of_nat (List.length bs)
           /\ (forall n', validName n' = true -> n' <> File_name f ->
                 entryAt h1 (Path.join (Directory_path d) n')
                 = entryAt h (Path.join (Directory_path d) n')).
Proof.
  intros Hd Hn Hold dest.
  set (n := File_name f) in *.
  set (par := address h (Directory_path d)).
  assert (Haddr : address h dest = par ++ [n]) by now apply address_join.
  destruct (alter_twice par n (putFile [] (clock h)) (RegFile [] (clock h))
              (tree h) 0 ch t Hd) as (ch1 & Ha1 & Hv1 & Hg1).
  { now rewrite Hold. }
  eexists. split.
  { unfold createWriteStream. rewrite Haddr. unfold root. rewrite Ha1. reflexivity. }
  intros bs h0' Hb.
  destruct (File_bytes_same _ _ _ _ Hb) as [Ht0 (Hcwd & Hclock & Hmime)].
  cbn [tree cwd clock mime withRoot] in Ht0, Hcwd, Hclock, Hmime.
  destruct (alter_twice par n (fun _ => Ok (Some (RegFile bs (clock h))))
              (RegFile bs (clock h)) (tree h) 0 ch t Hd eq_refl)
    as (ch2 & Ha2 & Hv2 & _).
  pose proof (alter_snoc par n (fun _ => Ok (Some (RegFile bs (clock h))))
                (tree h) 0 ch t Hd) as Hsn.
  cbv beta in Hsn. destruct Hsn as (ch' & Ha' & Hl2).
  rewrite Ha2 in Ha'. inversion Ha'; subst ch'. clear Ha'.
  assert (Hw : writeChunks dest bs h0' = (Return tt, withRoot h0' (Dir ch2 0))).
  { unfold writeChunks. rewrite (address_cwd h h0' dest Hcwd), Haddr.
    unfold root. rewrite Ht0, Hclock, Hg1. cbn [putFile]. now rewrite Ha2. }
  set (h1 := withRoot h0' (Dir ch2 0)) in *.
  assert (He1 : entryAt h1 dest = Ok (RegFile bs (clock h))).
  { unfold entryAt. rewrite (address_cwd h h1 dest Hcwd), Haddr. exact Hv2. }
  assert (Hd1 : entryAt h1 (Directory_path d)
                = Ok (Dir (setChild n (RegFile bs (clock h)) ch) t)).
  { unfold entryAt. rewrite (address_cwd h h1 _ Hcwd). exact Hl2. }
  eexists. exists (withCall h1 (CallStat dest)).
  split; [|split; [|split; [|split]]].
  - unfold Directory_write, writeFile, bind, tryCatch, ret. fold n. fold dest.
    unfold createWriteStream. rewrite Haddr. unfold root at 1. rewrite Ha1.
    cbn [commit]. rewrite Hb, Hw.
    unfold Directory_file, tryCatch, bind. fold dest.
    rewrite (statSync_eq h1 dest), He1. reflexivity.
  - exact He1.
  - unfold File_name at 1. cbn [f_super lf_name LazyFile_new].
    unfold dest. now apply basename_join.
  - reflexivity.
  - intros n' Hn' Hne. rewrite entryAt_withCall.
    rewrite (entryAt_child h1 _ n' _ t Hn' Hd1), (entryAt_child h _ n' ch t Hn' Hd).
    now rewrite assoc_setChild_other.
Qed.

(** A witness of [write_replaces_content]: a file of two bytes named
    [a.txt], written into the fixtures over the sixteen bytes of
    [a.txt]. *)
Lemma write_replaces_content_witness :
  exists f f' h1,
    File_new (BlobParts [BytesPart (list_byte_of_string "hi")]) "/tmp/a.txt" None testHost
    = (Return f, testHost)
    /\ Directory_write {| d_path := fixtures |} f testHost = (Return (Some f'), h1)
    /\ entryAt h1 (Path.join fixtures "a.txt") = Ok (RegFile (list_byte_of_string "hi") 1000)
    /\ File_size f' = 2%Z.
Proof.
  eexists.
  match goal with
  | |- exists f' h1, File_new ?c ?nm None testHost = (Return ?f, testHost) /\ _ =>
      destruct (write_replaces_content testHost {| d_path := fixtures |}
                  {| f_super := LazyFile_new c (Path.basename (Path.resolve (process_cwd testHost) nm))
                                  None None 1000;
                     f_path := Path.resolve (process_cwd testHost) nm |}
                  _ 1 _ 1 eq_refl eq_refl eq_refl) as (h0 & Hc & H)
  end.
  inversion Hc; subst h0.
  destruct (H (list_byte_of_string "hi") _ eq_refl) as (f' & h1 & H1 & H2 & _ & H3 & _).
  exists f', h1.
  split; [reflexivity|]. split; [exact H1|]. split; [exact H2|exact H3].
Defined.
